(** * Score extraction and iteration control of the MTFC auto-iteration system

    A shallow embedding of [extract_scores] and [main] of
    [mtfc-generator/auto_iteration_system.py], with the properties of the
    feedback/retry loop stated over it.

    Conventions of the embedding.
    - Text is a [string] of 8-bit characters, read as the code points
      U+0000..U+00FF of a Python [str]; [\s], [\d], [str.lower] and
      [re.IGNORECASE] are the ones of [str] patterns on these code points.
    - Python's [float] is IEEE-754 binary64, taken from the specification
      of the standard library ([spec_float] at precision 53, [emax] 1024).
      The integer literals [0], [90], [96] and [100] of the source are
      used only in arithmetic and comparisons with floats and are
      represented by the floats of the same value.
    - Exceptions are values of type [exn]; code that can raise returns a
      [result].
    - [extract_scores] and [main] read the global [RUBRIC], and [main]
      sets [target_score] and [max_iterations] itself; here they are
      parameters, so that the scenarios of the specification, which use
      a rubric of two categories and other caps, can be stated.  The
      values of the source are [RUBRIC] and [source_config]. *)

From Stdlib Require Import Bool Arith ZArith Lia List String Ascii.
From Stdlib Require Import SpecFloat.
Import ListNotations.

Open Scope list_scope.
Open Scope string_scope.

(** ** Characters *)

Module Char.

Definition code (a : ascii) : N := N_of_ascii a.

Definition between (lo hi : N) (a : ascii) : bool :=
  (lo <=? code a)%N && (code a <=? hi)%N.

(** [str.lower] on one code point below 256: [A-Z] and the Latin-1
    capitals U+00C0..U+00DE other than the multiplication sign. *)
Definition lower (a : ascii) : ascii :=
  if between 65 90 a || (between 192 222 a && negb (code a =? 215)%N)
  then ascii_of_N (code a + 32)
  else a.

(** Two characters are equal under [re.IGNORECASE]. *)
Definition eq_ci (a b : ascii) : bool := Ascii.eqb (lower a) (lower b).

(** [\d]: the decimal digits below 256 are [0-9]. *)
Definition is_digit (a : ascii) : bool := between 48 57 a.

(** [\s] on a [str] pattern: tab, LF, VT, FF, CR, the separators
    U+001C..U+001F, space, NEL and the no-break space. *)
Definition is_space (a : ascii) : bool :=
  between 9 13 a || between 28 32 a || (code a =? 133)%N || (code a =? 160)%N.

Definition LF : ascii := ascii_of_N 10.

End Char.

Definition LF : string := String Char.LF EmptyString.

(** ** Strings *)

Module Str.

Fixpoint lower (s : string) : string :=
  match s with
  | EmptyString => EmptyString
  | String a s' => String (Char.lower a) (lower s')
  end.

Fixpoint take (n : nat) (s : string) : string :=
  match n, s with
  | S n', String a s' => String a (take n' s')
  | _, _ => EmptyString
  end.

(** [starts_with p s]: [Some rest] when [s = p ++ rest]. *)
Fixpoint starts_with (p s : string) : option string :=
  match p with
  | EmptyString => Some s
  | String a p' =>
      match s with
      | String b s' => if Ascii.eqb a b then starts_with p' s' else None
      | EmptyString => None
      end
  end.

(** [str.replace old new]: non-overlapping occurrences, left to right.
    [pending] counts the characters of an occurrence already replaced
    that are still to be passed over.  [old] is not empty at any call of
    the source. *)
Fixpoint replace_from (old new : string) (pending : nat) (s : string) : string :=
  match s with
  | EmptyString => EmptyString
  | String a s' =>
      match pending with
      | S n => replace_from old new n s'
      | O =>
          match starts_with old s with
          | Some _ => new ++ replace_from old new (String.length old - 1) s'
          | None => String a (replace_from old new 0 s')
          end
      end
  end.

Definition replace (old new s : string) : string := replace_from old new 0 s.

End Str.

(** ** Exceptions *)

Inductive exn : Type :=
| ValueError
| IndexError
| TypeError
| KeyError
| OSError
| APIError
| KeyboardInterrupt.

(** [except Exception] catches every exception of the model except
    [KeyboardInterrupt], which derives from [BaseException] only. *)
Definition is_Exception (e : exn) : bool :=
  match e with
  | KeyboardInterrupt => false
  | _ => true
  end.

Inductive result (A : Type) : Type :=
| Ok (a : A)
| Raise (e : exn).

Arguments Ok {A} a.
Arguments Raise {A} e.

Definition bind {A B : Type} (m : result A) (f : A -> result B) : result B :=
  match m with
  | Ok a => f a
  | Raise e => Raise e
  end.

Notation "x <- m ;; f" := (bind m (fun x => f))
  (at level 61, m at next level, right associativity).

(** ** Floats *)

Module Float.

Definition float : Type := spec_float.

Definition prec : Z := 53.
Definition emax : Z := 1024.

Definition zero : float := S754_zero false.

(** The float of a positive integer, correctly rounded. *)
Definition of_pos (p : positive) : float := binary_normalize prec emax (Zpos p) 0 false.

Definition of_N (n : N) : float :=
  match n with
  | N0 => zero
  | Npos p => of_pos p
  end.

Definition hundred : float := of_N 100.

Definition add : float -> float -> float := SFadd prec emax.
Definition mul : float -> float -> float := SFmul prec emax.
Definition ltb : float -> float -> bool := SFltb.
Definition leb : float -> float -> bool := SFleb.
Definition eqb : float -> float -> bool := SFeqb.

Definition one : float := of_N 1.

(** A float that is neither negative nor NaN: +0, a positive finite
    number or +infinity. *)
Definition nonneg (x : float) : bool :=
  match x with
  | S754_zero false | S754_finite false _ _ | S754_infinity false => true
  | _ => false
  end.

Definition is_nan (x : float) : bool :=
  match x with
  | S754_nan => true
  | _ => false
  end.

Definition is_inf (x : float) : bool :=
  match x with
  | S754_infinity _ => true
  | _ => false
  end.

(** Truth value of a float: every float but the two zeros is true. *)
Definition truthy (x : float) : bool := negb (eqb x zero).

Fixpoint pow10 (k : nat) : positive :=
  match k with
  | O => 1
  | S k' => 10 * pow10 k'
  end%positive.

(** [n / 10^k] rounded once to the nearest float, ties to even: the
    value [float] gives the decimal literal with digits [n] and [k]
    digits after the point. *)
Definition of_decimal (n : N) (k : nat) : float :=
  match n with
  | N0 => zero
  | Npos p =>
      SFdiv prec emax (S754_finite false p 0)
                      (S754_finite false (pow10 k) 0)
  end.

End Float.

(** [float(s)] on the texts the patterns below can capture: digits,
    optionally followed by a point and digits.  Any other text is
    reported as [ValueError]; no pattern of this program captures one. *)
Module PyFloat.

Definition digit_value (a : ascii) : N := (Char.code a - 48)%N.

(** Reads the leading digits of [s] into [acc]; returns the value, the
    number of digits read and the rest of the text. *)
Fixpoint read_digits (s : string) (acc : N) (count : nat) : N * nat * string :=
  match s with
  | String a s' =>
      if Char.is_digit a
      then read_digits s' (10 * acc + digit_value a)%N (S count)
      else (acc, count, s)
  | EmptyString => (acc, count, s)
  end.

Definition py_float (s : string) : result Float.float :=
  let '(n, i, rest) := read_digits s 0%N 0 in
  match i, rest with
  | O, _ => Raise ValueError
  | _, EmptyString => Ok (Float.of_decimal n 0)
  | _, String dot frac =>
      if Ascii.eqb dot "."
      then
        let '(m, k, rest') := read_digits frac n 0 in
        match k, rest' with
        | S _, EmptyString => Ok (Float.of_decimal m k)
        | _, _ => Raise ValueError
        end
      else Raise ValueError
  end.

End PyFloat.

(** ** Dictionaries

    A [dict] keeps its keys in insertion order; assigning to a key that
    is present replaces the value in place. *)

Module Dict.

Section Ops.
Context {V : Type}.

Definition dict : Type := list (string * V).

Fixpoint get (k : string) (d : dict) : option V :=
  match d with
  | [] => None
  | (k', v) :: d' => if String.eqb k k' then Some v else get k d'
  end.

Definition mem (k : string) (d : dict) : bool :=
  match get k d with
  | Some _ => true
  | None => false
  end.

Fixpoint set (k : string) (v : V) (d : dict) : dict :=
  match d with
  | [] => [(k, v)]
  | (k', v') :: d' =>
      if String.eqb k k' then (k, v) :: d' else (k', v') :: set k v d'
  end.

(** [d.get(k, default)] *)
Definition get_default (k : string) (default : V) (d : dict) : V :=
  match get k d with
  | Some v => v
  | None => default
  end.

(** [d[k]] *)
Definition item (k : string) (d : dict) : result V :=
  match get k d with
  | Some v => Ok v
  | None => Raise KeyError
  end.

Definition keys (d : dict) : list string := map fst d.

End Ops.

Arguments dict V : clear implicits.

End Dict.

(** ** Regular expressions

    The fragment of [re] the program uses, matched by backtracking in
    the order [re] tries the alternatives.  Every pattern is compiled
    with [re.IGNORECASE]; [Any] is [.] under [re.DOTALL]. *)

Module Re.

Inductive cclass : Type :=
| Space                (* \s *)
| Digit                (* \d *)
| Any                  (* . *)
| Char (a : ascii).    (* one literal character *)

Definition cmatch (c : cclass) (a : ascii) : bool :=
  match c with
  | Space => Char.is_space a
  | Digit => Char.is_digit a
  | Any => true
  | Char b => Char.eq_ci b a
  end.

Inductive regex : Type :=
| Eps
| Chr (c : cclass)
| Lit (l : string)             (* literal text, as produced by re.escape *)
| Seq (r1 r2 : regex)
| Alt (r1 r2 : regex)          (* r1|r2 *)
| Star (c : cclass)            (* c*, greedy *)
| LazyStar (c : cclass)        (* c*?, lazy *)
| Group (r : regex)            (* the capturing group *)
| Eos.                         (* $ *)

Definition Opt (r : regex) : regex := Alt r Eps.          (* r? *)
Definition Plus (c : cclass) : regex := Seq (Chr c) (Star c). (* c+ *)

Fixpoint cat (rs : list regex) : regex :=
  match rs with
  | [] => Eps
  | r :: rs' => Seq r (cat rs')
  end.

(** Every match of [r] sets the group. *)
Fixpoint sets_group (r : regex) : bool :=
  match r with
  | Group _ => true
  | Seq r1 r2 => sets_group r1 || sets_group r2
  | Alt r1 r2 => sets_group r1 && sets_group r2
  | _ => false
  end.

(** The literal [l] read off the front of [s], ignoring case. *)
Fixpoint lit_prefix (l s : string) : option string :=
  match l with
  | EmptyString => Some s
  | String a l' =>
      match s with
      | String b s' => if Char.eq_ci a b then lit_prefix l' s' else None
      | EmptyString => None
      end
  end.

(** [$] without [re.MULTILINE]: at the end of the text, or before a
    newline that ends the text. *)
Definition at_end (s : string) : bool :=
  match s with
  | EmptyString => true
  | String a EmptyString => Ascii.eqb a Char.LF
  | _ => false
  end.

(** What a group captured: the text between two positions, each given
    by the text that remains after it. *)
Definition consumed (s s' : string) : string :=
  Str.take (String.length s - String.length s') s.

Section Matcher.
Context {R : Type}.

Fixpoint star_greedy (p : ascii -> bool) (k : string -> option R) (s : string)
  : option R :=
  match s with
  | String a s' =>
      if p a
      then match star_greedy p k s' with
           | Some x => Some x
           | None => k s
           end
      else k s
  | EmptyString => k s
  end.

Fixpoint star_lazy (p : ascii -> bool) (k : string -> option R) (s : string)
  : option R :=
  match k s with
  | Some x => Some x
  | None =>
      match s with
      | String a s' => if p a then star_lazy p k s' else None
      | EmptyString => None
      end
  end.

(** [exec r s g k]: match [r] at the front of [s] with group value
    [g], then continue with [k] on the rest; [None] makes the matcher
    backtrack to the latest choice. *)
Fixpoint exec (r : regex) (s : string) (g : option string)
         (k : string -> option string -> option R) : option R :=
  match r with
  | Eps => k s g
  | Chr c =>
      match s with
      | String a s' => if cmatch c a then k s' g else None
      | EmptyString => None
      end
  | Lit l =>
      match lit_prefix l s with
      | Some s' => k s' g
      | None => None
      end
  | Seq r1 r2 => exec r1 s g (fun s' g' => exec r2 s' g' k)
  | Alt r1 r2 =>
      match exec r1 s g k with
      | Some x => Some x
      | None => exec r2 s g k
      end
  | Star c => star_greedy (cmatch c) (fun s' => k s' g) s
  | LazyStar c => star_lazy (cmatch c) (fun s' => k s' g) s
  | Group r' => exec r' s g (fun s' _ => k s' (Some (consumed s s')))
  | Eos => if at_end s then k s g else None
  end.

End Matcher.

(** A match object, reduced to what the program reads from it:
    [group(1)], which is [None] when the group took no part. *)
Record rmatch : Type := { group1 : option string }.

(** [re.match]: a match starting at the front of [s]. *)
Definition match_here (r : regex) (s : string) : option rmatch :=
  exec r s None (fun _ g => Some {| group1 := g |}).

(** [re.search]: the match at the leftmost position that has one. *)
Fixpoint search (r : regex) (s : string) : option rmatch :=
  match match_here r s with
  | Some m => Some m
  | None =>
      match s with
      | String _ s' => search r s'
      | EmptyString => None
      end
  end.

End Re.

Import Re.

Abbreviation float := Float.float.
Abbreviation dict := Dict.dict.

(** ** The rubric *)

(** [RUBRIC]: category name to weight, in the order of the source. *)
Definition RUBRIC : dict float :=
  [ ("Project Definition", Float.of_decimal 15 2);
    ("Data Identification & Assessment", Float.of_decimal 20 2);
    ("Mathematical Modeling", Float.of_decimal 25 2);
    ("Risk Analysis", Float.of_decimal 20 2);
    ("Recommendations", Float.of_decimal 15 2);
    ("Communication & Clarity", Float.of_decimal 5 2) ].

(** ** The patterns of [extract_scores] *)

(** [\d+(?:\.\d+)?] *)
Definition number : regex :=
  Seq (Plus Digit) (Opt (Seq (Chr (Char ".")) (Plus Digit))).

Definition colon : regex := Chr (Char ":").

(** [(?:WEIGHTED TOTAL|OVERALL|TOTAL|$)] *)
Definition stops : regex :=
  Alt (Lit "WEIGHTED TOTAL") (Alt (Lit "OVERALL") (Alt (Lit "TOTAL") Eos)).

(** [(?:SCORES?|RUBRIC SCORES?|EVALUATION)\s*:?\s*\n(.*?)(?:WEIGHTED TOTAL|OVERALL|TOTAL|$)] *)
Definition scores_section : regex :=
  cat [ Alt (Seq (Lit "SCORE") (Opt (Lit "S")))
            (Alt (Seq (Lit "RUBRIC SCORE") (Opt (Lit "S"))) (Lit "EVALUATION"));
        Star Space; Opt colon; Star Space; Chr (Char Char.LF);
        Group (LazyStar Any);
        stops ].

Definition key_variations (key : string) : list string :=
  [ key;
    Str.lower key;
    Str.replace " & " " and " key;
    Str.replace " & " " " key ].

Definition patterns (key_var : string) : list regex :=
  [ cat [Lit key_var; Star Space; Opt colon; Star Space; Group number];
    cat [Lit key_var; Star Space; Chr (Char "-"); Star Space; Group number];
    cat [Lit key_var; Star Space; Chr (Char "="); Star Space; Group number];
    cat [Group number; Star Space; Opt colon; Star Space; Lit key_var] ].

Definition total_pattern (header : string) : regex :=
  cat [Lit header; Star Space; Opt colon; Star Space; Group number].

Definition total_patterns : list regex :=
  map total_pattern
      ["WEIGHTED TOTAL"; "OVERALL SCORE"; "TOTAL SCORE"; "FINAL SCORE"; "WEIGHTED"].

(** ** [extract_scores] *)

(** [0 <= val <= 100] *)
Definition in_range (val : float) : bool :=
  Float.leb Float.zero val && Float.leb val Float.hundred.

(** [float(match.group(1))]: [float(None)] is a [TypeError]. *)
Definition float_of_group (m : rmatch) : result float :=
  match group1 m with
  | Some text => PyFloat.py_float text
  | None => Raise TypeError
  end.

(** The handler [except (ValueError, IndexError)]. *)
Definition handled (e : exn) : bool :=
  match e with
  | ValueError | IndexError => true
  | _ => false
  end.

(** [for pattern in patterns: ...] for one variation of one key; the
    loop is left by [break] as soon as a value is stored. *)
Fixpoint for_patterns (key : string) (ps : list regex) (score_text : string)
         (scores : dict float) : result (dict float) :=
  match ps with
  | [] => Ok scores
  | pattern :: ps' =>
      match search pattern score_text with
      | Some m =>
          match float_of_group m with
          | Ok val =>
              if in_range val
              then Ok (Dict.set key val scores)
              else for_patterns key ps' score_text scores
          | Raise e =>
              if handled e
              then for_patterns key ps' score_text scores
              else Raise e
          end
      | None => for_patterns key ps' score_text scores
      end
  end.

(** [for key_var in key_variations: ...; if key in scores: break] *)
Fixpoint for_variations (key : string) (vars : list string) (score_text : string)
         (scores : dict float) : result (dict float) :=
  match vars with
  | [] => Ok scores
  | key_var :: vars' =>
      scores' <- for_patterns key (patterns key_var) score_text scores ;;
      if Dict.mem key scores'
      then Ok scores'
      else for_variations key vars' score_text scores'
  end.

(** [for key in RUBRIC.keys(): ...] *)
Fixpoint for_keys (ks : list string) (score_text : string) (scores : dict float)
  : result (dict float) :=
  match ks with
  | [] => Ok scores
  | key :: ks' =>
      scores' <- for_variations key (key_variations key) score_text scores ;;
      for_keys ks' score_text scores'
  end.

(** [for pattern in total_patterns: ...]: [total] is assigned before the
    range is tested, and only a value in range leaves the loop. *)
Fixpoint for_total_patterns (ps : list regex) (response : string) (total : float)
  : result float :=
  match ps with
  | [] => Ok total
  | pattern :: ps' =>
      match search pattern response with
      | Some total_match =>
          match float_of_group total_match with
          | Ok total' =>
              if in_range total'
              then Ok total'
              else for_total_patterns ps' response total'
          | Raise e =>
              if handled e
              then for_total_patterns ps' response total
              else Raise e
          end
      | None => for_total_patterns ps' response total
      end
  end.

(** [sum(scores.get(k, 0) * RUBRIC[k] for k in RUBRIC.keys())]: the
    products are added from the left, starting at 0, each addition
    rounded.  (From CPython 3.12 on [sum] carries a correction term for
    floats, which can change the last bit of a sum; no property below
    depends on that bit.) *)
Fixpoint weighted_sum (rubric : dict float) (ks : list string) (scores : dict float)
         (acc : float) : result float :=
  match ks with
  | [] => Ok acc
  | k :: ks' =>
      w <- Dict.item k rubric ;;
      weighted_sum rubric ks' scores
                   (Float.add acc (Float.mul (Dict.get_default k Float.zero scores) w))
  end.

Definition calculated_total (rubric : dict float) (scores : dict float) : result float :=
  weighted_sum rubric (Dict.keys rubric) scores Float.zero.

(** [for key in RUBRIC.keys(): if key not in scores: scores[key] = 0] *)
Fixpoint fill_missing (ks : list string) (scores : dict float) : dict float :=
  match ks with
  | [] => scores
  | key :: ks' =>
      fill_missing ks' (if Dict.mem key scores then scores
                        else Dict.set key Float.zero scores)
  end.

(** The text the category patterns are searched in. *)
Definition score_text_of (response : string) : result string :=
  match search scores_section response with
  | Some m =>
      match group1 m with
      | Some text => Ok text
      | None => Raise TypeError   (* a later re.search on None *)
      end
  | None => Ok response
  end.

(** The scores stored by the category loop, before the missing ones are
    filled in. *)
Definition category_scores (rubric : dict float) (response : string)
  : result (dict float) :=
  score_text <- score_text_of response ;;
  for_keys (Dict.keys rubric) score_text [].

(** The value of [total] after the loop over [total_patterns]. *)
Definition scanned_total (response : string) : result float :=
  for_total_patterns total_patterns response Float.zero.

Definition extract_scores (rubric : dict float) (response : string)
  : result (dict float * float) :=
  scores <- category_scores rubric response ;;
  total <- scanned_total response ;;
  total <-
    (if negb (Float.truthy total) || Nat.ltb (List.length scores) (List.length rubric)
     then
       calculated_total <- calculated_total rubric scores ;;
       Ok (if Float.ltb Float.zero calculated_total then calculated_total else total)
     else Ok total) ;;
  Ok (fill_missing (Dict.keys rubric) scores, total).

(** ** The iteration loop of [main] *)

(** One entry of [all_iterations], also the content of
    [iteration_N.json]. *)
Record iteration_result : Type := {
  r_iteration : nat;
  r_script : string;
  r_scores : dict float;
  r_overall_score : float;
  r_timestamp : string
}.

(** The content of [summary.json]. *)
Record summary : Type := {
  final_score : float;
  s_target_score : float;
  total_iterations : nat;
  achieved_target : bool;
  iterations : list iteration_result
}.

Inductive path : Type :=
| iteration_json (n : nat)     (* SAVE_DIR / f"iteration_{n}.json" *)
| summary_json.                (* SAVE_DIR / "summary.json" *)

Inductive document : Type :=
| IterationDoc (r : iteration_result)
| SummaryDoc (s : summary).

(** What the program does not control: the completion endpoint, the
    file system and the clock.  [chat n prompt] is the outcome of the
    [n]-th request, [write_error p] the exception raised when [p] is
    written, if any. *)
Record world : Type := {
  chat : nat -> string -> result string;
  write_error : path -> option exn;
  clock : nat -> string
}.

(** The prompt texts.  Their wording plays no part in the control flow
    and is left open. *)
Record prompts : Type := {
  initial_prompt : string;
  revise_prompt : dict float -> float -> dict float -> string;
  refine_prompt : float -> float -> string
}.

Record config : Type := {
  target_score : float;
  max_iterations : nat
}.

(** The constants of the source: [target_score = 96], [max_iterations = 15]. *)
Definition source_config : config :=
  {| target_score := Float.of_N 96; max_iterations := 15 |}.

(** The variables of [main], the files written so far and the number of
    requests sent so far. *)
Record state : Type := {
  iteration : nat;
  overall : float;
  prompt : string;
  all_iterations : list iteration_result;
  files : list (path * document);
  requests : nat
}.

(** How one pass through the [try] block ends. *)
Inductive pass_end : Type :=
| Next                (* the end of the block was reached *)
| BreakTarget         (* break: target reached *)
| Thrown (e : exn).   (* an exception left the block *)

(** How the [while] statement is left. *)
Inductive loop_exit : Type :=
| ConditionFalse
| TargetBreak
| ExceptBreak (e : exn)   (* caught by [except Exception], then break *)
| Uncaught (e : exn).     (* passes through [except Exception] *)

(** [with open(p, "w") as f: json.dump(doc, f)] *)
Definition write (w : world) (p : path) (doc : document)
           (fs : list (path * document)) : result (list (path * document)) :=
  match write_error w p with
  | Some e => Raise e
  | None => Ok (fs ++ [(p, doc)])%list
  end.

Definition ninety : float := Float.of_N 90.

(** [{k: v for k, v in scores.items() if v < 90}] *)
Definition low_scores (scores : dict float) : dict float :=
  filter (fun kv => Float.ltb (snd kv) ninety) scores.

Section Main.

Variable rubric : dict float.
Variable texts : prompts.
Variable cfg : config.
Variable w : world.

(** The body of the [try] block. *)
Definition pass (st : state) : state * pass_end :=
  let n := S (requests st) in
  match chat w n (prompt st) with
  | Raise e =>
      ({| iteration := iteration st; overall := overall st; prompt := prompt st;
          all_iterations := all_iterations st; files := files st;
          requests := n |}, Thrown e)
  | Ok response =>
      match extract_scores rubric response with
      | Raise e =>
          ({| iteration := iteration st; overall := overall st; prompt := prompt st;
              all_iterations := all_iterations st; files := files st;
              requests := n |}, Thrown e)
      | Ok (scores, overall') =>
          let result := {| r_iteration := iteration st;
                           r_script := response;
                           r_scores := scores;
                           r_overall_score := overall';
                           r_timestamp := clock w n |} in
          let all_iterations' := (all_iterations st ++ [result])%list in
          match write w (iteration_json (iteration st)) (IterationDoc result) (files st) with
          | Raise e =>
              ({| iteration := iteration st; overall := overall'; prompt := prompt st;
                  all_iterations := all_iterations'; files := files st;
                  requests := n |}, Thrown e)
          | Ok files' =>
              if Float.leb (target_score cfg) overall'
              then
                ({| iteration := iteration st; overall := overall'; prompt := prompt st;
                    all_iterations := all_iterations'; files := files';
                    requests := n |}, BreakTarget)
              else
                let low := low_scores scores in
                let feedback :=
                  match low with
                  | _ :: _ => revise_prompt texts scores overall' low
                  | [] => refine_prompt texts (target_score cfg) overall'
                  end in
                ({| iteration := S (iteration st); overall := overall'; prompt := feedback;
                    all_iterations := all_iterations'; files := files';
                    requests := n |}, Next)
          end
      end
  end.

(** [while overall < target_score and iteration <= max_iterations: ...].
    [None] only when [fuel] passes were not enough. *)
Fixpoint while_loop (fuel : nat) (st : state) : option (state * loop_exit) :=
  if Float.ltb (overall st) (target_score cfg) && (iteration st <=? max_iterations cfg)%nat
  then
    match fuel with
    | O => None
    | S fuel' =>
        match pass st with
        | (st', Next) => while_loop fuel' st'
        | (st', BreakTarget) => Some (st', TargetBreak)
        | (st', Thrown e) =>
            Some (st', if is_Exception e then ExceptBreak e else Uncaught e)
        end
    end
  else Some (st, ConditionFalse).

Definition initial_state : state :=
  {| iteration := 1; overall := Float.zero; prompt := initial_prompt texts;
     all_iterations := []; files := []; requests := 0 |}.

(** The summary built after the loop. *)
Definition summary_of (st : state) : summary :=
  {| final_score := overall st;
     s_target_score := target_score cfg;
     total_iterations := iteration st - 1;
     achieved_target := Float.leb (target_score cfg) (overall st);
     iterations := all_iterations st |}.

(** What a run leaves behind. *)
Record outcome : Type := {
  final : state;               (* variables, files and requests at the end *)
  exit : loop_exit;            (* how the loop was left *)
  raised : option exn          (* the exception [main] ended with, if any *)
}.

Definition after_loop (st : state) (x : loop_exit) : outcome :=
  match x with
  | Uncaught e => {| final := st; exit := x; raised := Some e |}
  | _ =>
      match write w summary_json (SummaryDoc (summary_of st)) (files st) with
      | Ok files' =>
          {| final := {| iteration := iteration st; overall := overall st;
                         prompt := prompt st; all_iterations := all_iterations st;
                         files := files'; requests := requests st |};
             exit := x; raised := None |}
      | Raise e => {| final := st; exit := x; raised := Some e |}
      end
  end.

Definition main : option outcome :=
  match while_loop (max_iterations cfg) initial_state with
  | Some (st, x) => Some (after_loop st x)
  | None => None
  end.

End Main.

(** The summary file a run wrote, if it wrote one. *)
Fixpoint written_summary (fs : list (path * document)) : option summary :=
  match fs with
  | [] => None
  | (summary_json, SummaryDoc s) :: _ => Some s
  | _ :: fs' => written_summary fs'
  end.

(** The iteration numbers whose file was written. *)
Fixpoint written_iterations (fs : list (path * document)) : list nat :=
  match fs with
  | [] => []
  | (iteration_json n, _) :: fs' => n :: written_iterations fs'
  | _ :: fs' => written_iterations fs'
  end.

(** ** Vocabulary of the properties *)

(** The value [float] gives a captured text, 0 where it raises. *)
Definition value_of (text : string) : float :=
  match PyFloat.py_float text with
  | Ok x => x
  | Raise _ => Float.zero
  end.

(** The score block the system prompt asks for: the header, one line
    [<category>: <value>] per category and the weighted total. *)
Definition score_line (entry : string * string) : string :=
  fst entry ++ ": " ++ snd entry ++ LF.

Fixpoint score_lines (entries : list (string * string)) : string :=
  match entries with
  | [] => ""
  | entry :: entries' => score_line entry ++ score_lines entries'
  end.

Definition score_block (entries : list (string * string)) (total : string) : string :=
  "SCORES:" ++ LF ++ score_lines entries ++ "WEIGHTED TOTAL: " ++ total.

(** A reported value: a decimal text whose float passes the range test
    of the source. *)
Definition reported (text : string) : Prop :=
  exists x, PyFloat.py_float text = Ok x /\ in_range x = true.

(** *** Category names that cannot be confused

    [mismatch l q]: reading the literal [l] off [q] fails on a character
    of [q], whatever follows [q]. *)
Fixpoint mismatch (l q : string) : bool :=
  match l, q with
  | String a l', String b q' => if Char.eq_ci a b then mismatch l' q' else true
  | _, _ => false
  end.

(** [absent l t]: [l] mismatches at every position of [t]. *)
Fixpoint absent (l t : string) : bool :=
  match t with
  | EmptyString => true
  | String _ t' => mismatch l t && absent l t'
  end.

Definition is_numeric (a : ascii) : bool := Char.is_digit a || Ascii.eqb a ".".

Fixpoint all_chars (p : ascii -> bool) (s : string) : bool :=
  match s with
  | EmptyString => true
  | String a s' => p a && all_chars p s'
  end.

(** A non-empty run of digits. *)
Definition digits (s : string) : Prop :=
  all_chars Char.is_digit s = true /\ s <> "".

(** The texts of the form [\d+(\.\d+)?]. *)
Definition decimal (v : string) : Prop :=
  digits v \/ exists ip fp, v = ip ++ "." ++ fp /\ digits ip /\ digits fp.

(** [rest] does not continue a number: it is empty or starts with a
    character that is neither a digit nor a point. *)
Definition ends_number (rest : string) : Prop :=
  match rest with
  | EmptyString => True
  | String a _ => is_numeric a = false
  end.

(** Reading the literal [l] off the front of [t] fails. *)
Definition lit_fails (l : string) (t : string) : Prop := lit_prefix l t = None.

Definition no_digit_ahead (rest : string) : Prop :=
  match rest with
  | EmptyString => True
  | String a _ => Char.is_digit a = false
  end.

(** [P] holds of [pre ++ s] and of every later suffix of it that still
    starts inside [pre]. *)
Fixpoint throughout (P : string -> Prop) (pre s : string) : Prop :=
  match pre with
  | EmptyString => True
  | String _ pre' => P (pre ++ s) /\ throughout P pre' s
  end.

(** The first character of [l] exists and matches neither a digit, nor a
    point, nor white space. *)
Definition plain_head (l : string) : bool :=
  match l with
  | String a _ => negb (is_numeric (Char.lower a)) && negb (Char.is_space (Char.lower a))
                  && negb (Char.is_space a)
  | EmptyString => false
  end.

Fixpoint nodup_keys (ks : list string) : bool :=
  match ks with
  | [] => true
  | k :: ks' => negb (existsb (String.eqb k) ks') && nodup_keys ks'
  end.

(** The headers that end the scores section or introduce the total. *)
Definition stop_words : list string := ["WEIGHTED TOTAL"; "OVERALL"; "TOTAL"].

(** Category names are separated when each starts with a plain
    character, no two are equal, no name occurs inside the label
    [<name>: ] of another, and no label contains a stop word. *)
Definition separated (ks : list string) : bool :=
  nodup_keys ks
  && forallb plain_head ks
  && forallb (fun k =>
                forallb (fun k' => String.eqb k k' || absent k (k' ++ ": ")) ks) ks
  && forallb (fun k => forallb (fun stop => absent stop (k ++ ": ")) stop_words) ks.

(** *** First accepted combination

    Modelled from the spec: section 4.3 step 2, the ordered list of
    (variant, pattern) combinations of one category and the first of
    them that yields a number in the range. *)
Definition combinations (key : string) : list regex :=
  flat_map patterns (key_variations key).

Definition accepted (p : regex) (text : string) : option float :=
  match search p text with
  | Some m =>
      match float_of_group m with
      | Ok val => if in_range val then Some val else None
      | Raise _ => None
      end
  | None => None
  end.

Fixpoint first_accepted (ps : list regex) (text : string) : option float :=
  match ps with
  | [] => None
  | p :: ps' =>
      match accepted p text with
      | Some val => Some val
      | None => first_accepted ps' text
      end
  end.

(** The categories with an accepted combination, in the order of [ks],
    each with its first accepted value. *)
Definition found_scores (ks : list string) (text : string) : dict float :=
  flat_map (fun key =>
              match first_accepted (combinations key) text with
              | Some val => [(key, val)]
              | None => []
              end) ks.

(** No pattern of the extractor matches anywhere in [response]. *)
Definition unrecognised (rubric : dict float) (response : string) : bool :=
  forallb (fun key =>
             forallb (fun p =>
                        match score_text_of response with
                        | Ok text => match search p text with None => true | Some _ => false end
                        | Raise _ => false
                        end)
                     (combinations key))
          (Dict.keys rubric)
  && forallb (fun p => match search p response with None => true | Some _ => false end)
             total_patterns.

(** Some pattern of the total scan matches in [response]. *)
Definition total_found (response : string) : bool :=
  existsb (fun p => match search p response with Some _ => true | None => false end)
          total_patterns.

(** A weight of the rubric: a float in (0, 1]. *)
Definition weight_ok (w : float) : bool :=
  Float.ltb Float.zero w && Float.leb w Float.one.

Definition weights_ok (rubric : dict float) : bool :=
  forallb (fun kw => weight_ok (snd kw)) rubric.

(** A stored score: a float that is not negative and passes the range
    test. *)
Definition good (x : float) : Prop := Float.nonneg x = true /\ in_range x = true.

Definition all_good (scores : dict float) : Prop := Forall (fun kv => good (snd kv)) scores.

(** *** Runs *)

(** Modelled from the spec: the terminal states of section 4.4, read off
    the way the loop was left; the source has no such value. *)
Inductive terminal : Type :=
| TARGET_REACHED
| MAX_ITERATIONS_EXHAUSTED
| FAILED.

Definition terminal_of (cfg : config) (o : outcome) : terminal :=
  match exit o with
  | TargetBreak => TARGET_REACHED
  | ConditionFalse =>
      if Float.leb (target_score cfg) (overall (final o))
      then TARGET_REACHED
      else MAX_ITERATIONS_EXHAUSTED
  | ExceptBreak _ | Uncaught _ => FAILED
  end.

(** How the loop is left by a pass that does not reach the end of the
    [try] block. *)
Definition exit_of (e : pass_end) : loop_exit :=
  match e with
  | Next => ConditionFalse
  | BreakTarget => TargetBreak
  | Thrown e => if is_Exception e then ExceptBreak e else Uncaught e
  end.

(** The scores and the total the extractor gives a reply. *)
Definition scores_of (rubric : dict float) (reply : string) : dict float :=
  match extract_scores rubric reply with
  | Ok (scores, _) => scores
  | Raise _ => []
  end.

Definition total_of (rubric : dict float) (reply : string) : float :=
  match extract_scores rubric reply with
  | Ok (_, total) => total
  | Raise _ => Float.zero
  end.

(** The record of pass [n] when request [n] is answered by [reply]. *)
Definition record_of (rubric : dict float) (w : world) (reply : nat -> string) (n : nat)
  : iteration_result :=
  {| r_iteration := n;
     r_script := reply n;
     r_scores := scores_of rubric (reply n);
     r_overall_score := total_of rubric (reply n);
     r_timestamp := clock w n |}.

(** The history and the files after [n] passes answered by [reply]. *)
Definition records (rubric : dict float) (w : world) (reply : nat -> string) (n : nat)
  : list iteration_result :=
  map (record_of rubric w reply) (seq 1 n).

Definition iteration_files (rubric : dict float) (w : world) (reply : nat -> string)
           (n : nat) : list (path * document) :=
  map (fun i => (iteration_json i, IterationDoc (record_of rubric w reply i))) (seq 1 n).

(** The variables of [main] after [n] passes that did not reach the
    target, with [p] the prompt of the next request. *)
Definition state_after (rubric : dict float) (w : world) (reply : nat -> string)
           (n : nat) (p : string) : state :=
  {| iteration := S n;
     overall := match n with
                | O => Float.zero
                | S _ => total_of rubric (reply n)
                end;
     prompt := p;
     all_iterations := records rubric w reply n;
     files := iteration_files rubric w reply n;
     requests := n |}.

(** The first [n] passes go through: request [i] is answered by
    [reply i], its file is written and its total is below the target. *)
Definition smooth (rubric : dict float) (cfg : config) (w : world)
           (reply : nat -> string) (n : nat) : Prop :=
  forall i, 1 <= i <= n ->
    (forall p, chat w i p = Ok (reply i))
    /\ write_error w (iteration_json i) = None
    /\ Float.ltb (total_of rubric (reply i)) (target_score cfg) = true.

(** A world that answers request [n] with [reply n] and in which every
    write succeeds. *)
Definition scripted (reply : nat -> string) (clk : nat -> string) : world :=
  {| chat := fun n _ => Ok (reply n);
     write_error := fun _ => None;
     clock := clk |}.

(** Replies taken from a list; the empty text after its end. *)
Definition nth_reply (replies : list string) (n : nat) : string :=
  nth (n - 1) replies "".

Definition plain_texts : prompts :=
  {| initial_prompt := "Create a full MTFC actuarial project script";
     revise_prompt := fun _ _ _ => "Revise the previous script";
     refine_prompt := fun _ _ => "The script is close to the target" |}.

(** The rubric of the example scenarios. *)
Definition AB : dict float :=
  [ ("A", Float.of_decimal 5 1); ("B", Float.of_decimal 5 1) ].

(** *** Examples *)

Definition block_AB (total : string) : string :=
  score_block [("A", "80"); ("B", "70")] total.

Definition entries_RUBRIC : list (string * string) :=
  [ ("Project Definition", "85");
    ("Data Identification & Assessment", "90");
    ("Mathematical Modeling", "88");
    ("Risk Analysis", "92");
    ("Recommendations", "87");
    ("Communication & Clarity", "95") ].

Definition block_RUBRIC : string := score_block entries_RUBRIC "88.5".

Definition two_scores : string := "Project Definition: 90" ++ LF ++ "Risk Analysis - 80".

(** A world whose requests are answered from a list and whose request
    after the end of the list raises [e]; every write succeeds. *)
Definition answering (replies : list string) (e : exn) : world :=
  {| chat := fun n _ => match nth_error replies (n - 1) with
                        | Some r => Ok r
                        | None => Raise e
                        end;
     write_error := fun _ => None;
     clock := fun _ => "2025-01-01 00:00:00" |}.

(** The same, with the file of iteration [k] failing with [e']. *)
Definition failing_write (replies : list string) (e : exn) (k : nat) (e' : exn) : world :=
  {| chat := chat (answering replies e);
     write_error := fun p => match p with
                             | iteration_json i => if Nat.eqb i k then Some e' else None
                             | summary_json => None
                             end;
     clock := clock (answering replies e) |}.

Definition totals_40_70_96 : list string :=
  ["WEIGHTED TOTAL: 40"; "WEIGHTED TOTAL: 70"; "WEIGHTED TOTAL: 96"].

Definition totals_40_70 : list string :=
  ["WEIGHTED TOTAL: 40"; "WEIGHTED TOTAL: 70"].

Definition config_of (target : N) (cap : nat) : config :=
  {| target_score := Float.of_N target; max_iterations := cap |}.

(** What the scenarios observe of an outcome: the terminal state, the
    number of requests and the length of the history. *)
Definition observed (cfg : config) (o : option outcome) : option (terminal * nat * nat) :=
  match o with
  | Some o =>
      Some (terminal_of cfg o, requests (final o), List.length (all_iterations (final o)))
  | None => None
  end.

(** A float that is a zero or NaN. *)
Definition null (x : float) : Prop :=
  match x with
  | S754_zero _ | S754_nan => True
  | _ => False
  end.

(** *** The scan for the total and the scores filled in *)

(** The value of the last pattern of [ps] that matches in [response],
    [total] when none does. *)
Fixpoint last_matched (ps : list regex) (response : string) (total : float) : float :=
  match ps with
  | [] => total
  | p :: ps' =>
      match search p response with
      | Some m =>
          match float_of_group m with
          | Ok x => last_matched ps' response x
          | Raise _ => last_matched ps' response total
          end
      | None => last_matched ps' response total
      end
  end.

(** The entries [fill_missing] adds to [scores]. *)
Definition zeros (ks : list string) (scores : dict float) : dict float :=
  map (fun k => (k, Float.zero)) (filter (fun k => negb (Dict.mem k scores)) ks).

(** *** The scores section *)

(** The words the section pattern accepts as a header. *)
Definition section_headers : list string :=
  ["SCORES"; "SCORE"; "RUBRIC SCORES"; "RUBRIC SCORE"; "EVALUATION"].

(** [s] is not empty and does not start with white space. *)
Definition starts_plain (s : string) : Prop :=
  match s with
  | String a _ => Char.is_space a = false
  | EmptyString => False
  end.

(** *** Score lines *)

(** The name a score line gives its category: the name of the rubric,
    or the name with [" & "] written as [" and "] or as a space. *)
Inductive naming : Type := Full | WithAnd | WithoutAmpersand.

(** What a score line puts between the name and the value. *)
Inductive separator : Type := Colon | Dash | Equals.

Definition label (n : naming) (key : string) : string :=
  match n with
  | Full => key
  | WithAnd => Str.replace " & " " and " key
  | WithoutAmpersand => Str.replace " & " " " key
  end.

Definition separator_text (s : separator) : string :=
  match s with
  | Colon => ": "
  | Dash => " - "
  | Equals => " = "
  end.

Record score_entry : Type := {
  e_key : string;
  e_naming : naming;
  e_separator : separator;
  e_value : string
}.

(** The beginning of the line of an entry: the name and the separator. *)
Definition entry_head (n : naming) (s : separator) (key : string) : string :=
  label n key ++ separator_text s.

Definition entry_line (e : score_entry) : string :=
  entry_head (e_naming e) (e_separator e) (e_key e) ++ e_value e ++ LF.

Fixpoint entry_lines (es : list score_entry) : string :=
  match es with
  | [] => ""
  | e :: es' => entry_line e ++ entry_lines es'
  end.

(** Equal up to the case of the letters. *)
Fixpoint same_ci (a b : string) : bool :=
  match a, b with
  | EmptyString, EmptyString => true
  | String x a', String y b' => Char.eq_ci x y && same_ci a' b'
  | _, _ => false
  end.

Definition rest_of (s : string) : string :=
  match s with
  | String _ s' => s'
  | EmptyString => ""
  end.

Definition namings : list naming := [Full; WithAnd; WithoutAmpersand].
Definition separators : list separator := [Colon; Dash; Equals].

(** The beginnings a line of category [key] can have. *)
Definition entry_heads (key : string) : list string :=
  flat_map (fun n => map (fun s => entry_head n s key) separators) namings.

(** A variation of a name occurs in a line of its own category at the
    front only, and there only when it is the name the line uses. *)
Definition own_line_ok (var head_text name : string) : bool :=
  if same_ci var name then absent var (rest_of head_text) else absent var head_text.

(** The names of [ks] can be told apart in score lines of every form:
    no two names are equal, every variation of a name starts with a
    plain character, no variation of a name occurs in the beginning of
    a line of another category, and in a line of its own category it
    occurs at the front only. *)
Definition flexible (ks : list string) : bool :=
  nodup_keys ks
  && forallb (fun k => forallb plain_head (key_variations k)) ks
  && forallb (fun k =>
                forallb (fun k' =>
                           String.eqb k k'
                           || forallb (fun var => forallb (absent var) (entry_heads k'))
                                      (key_variations k)) ks) ks
  && forallb (fun k =>
                forallb (fun n =>
                           forallb (fun s =>
                                      forallb (fun var =>
                                                 own_line_ok var (entry_head n s k) (label n k))
                                              (key_variations k))
                                   separators)
                        namings) ks.

(** No variation of a name of [ks] occurs in [t]. *)
Definition neutral (ks : list string) (t : string) : bool :=
  forallb (fun k => forallb (fun var => absent var t) (key_variations k)) ks.

(** The value the lines give category [key], 0 when no line names it. *)
Definition listed_value (entries : list score_entry) (key : string) : float :=
  match find (fun e => String.eqb (e_key e) key) entries with
  | Some e => value_of (e_value e)
  | None => Float.zero
  end.

(** The literal [l] can be read at no position of [text], its end
    included. *)
Definition nowhere (l text : string) : Prop :=
  forall q s, text = q ++ s -> lit_prefix l s = None.

(** *** Histories *)

(** The iteration file of a record. *)
Definition file_of (r : iteration_result) : path * document :=
  (iteration_json (r_iteration r), IterationDoc r).

(** The feedback prompt [main] builds from the record of a pass: the
    revision request when some score is below 90, the refinement request
    otherwise. *)
Definition feedback (texts : prompts) (cfg : config) (r : iteration_result) : string :=
  match low_scores (r_scores r) with
  | _ :: _ => revise_prompt texts (r_scores r) (r_overall_score r) (low_scores (r_scores r))
  | [] => refine_prompt texts (target_score cfg) (r_overall_score r)
  end.

(** The prompt of the request that follows the history [h]. *)
Definition prompt_after (texts : prompts) (cfg : config) (h : list iteration_result) : string :=
  last (map (feedback texts cfg) h) (initial_prompt texts).

(** The overall score of the last record of [h], 0 for the empty history. *)
Definition last_overall (h : list iteration_result) : float :=
  last (map r_overall_score h) Float.zero.

(** Record [i + 1] of [h] is what pass [i + 1] produces from the records
    before it. *)
Definition linked (rubric : dict float) (texts : prompts) (cfg : config) (w : world)
           (h : list iteration_result) : Prop :=
  forall i r, nth_error h i = Some r ->
    r_iteration r = S i
    /\ chat w (S i) (prompt_after texts cfg (firstn i h)) = Ok (r_script r)
    /\ extract_scores rubric (r_script r) = Ok (r_scores r, r_overall_score r)
    /\ r_timestamp r = clock w (S i).

(** The record does not reach the target. *)
Definition below (cfg : config) (r : iteration_result) : Prop :=
  Float.leb (target_score cfg) (r_overall_score r) = false.

(** No record before the last reaches the target. *)
Definition only_last_reaches (cfg : config) (h : list iteration_result) : Prop :=
  forall i r, nth_error h i = Some r -> S i < List.length h -> below cfg r.

(** The invariant of the loop of [main], at the test of its condition. *)
Definition loop_invariant (rubric : dict float) (texts : prompts) (cfg : config) (w : world)
           (st : state) : Prop :=
  iteration st = S (requests st)
  /\ requests st <= max_iterations cfg
  /\ List.length (all_iterations st) = requests st
  /\ files st = map file_of (all_iterations st)
  /\ prompt st = prompt_after texts cfg (all_iterations st)
  /\ overall st = last_overall (all_iterations st)
  /\ linked rubric texts cfg w (all_iterations st)
  /\ Forall (below cfg) (all_iterations st).

(** What holds when the loop is left. *)
Definition loop_left (rubric : dict float) (texts : prompts) (cfg : config) (w : world)
           (st : state) (x : loop_exit) : Prop :=
  linked rubric texts cfg w (all_iterations st)
  /\ only_last_reaches cfg (all_iterations st)
  /\ overall st = last_overall (all_iterations st)
  /\ requests st <= max_iterations cfg
  /\ match x with
     | ConditionFalse =>
         loop_invariant rubric texts cfg w st
         /\ Float.ltb (overall st) (target_score cfg)
            && (iteration st <=? max_iterations cfg)%nat = false
     | TargetBreak =>
         iteration st = requests st /\ 1 <= requests st
         /\ List.length (all_iterations st) = requests st
         /\ files st = map file_of (all_iterations st)
         /\ Float.leb (target_score cfg) (overall st) = true
     | ExceptBreak e | Uncaught e =>
         iteration st = requests st /\ 1 <= requests st
         /\ ((S (List.length (all_iterations st)) = requests st
              /\ files st = map file_of (all_iterations st)
              /\ Forall (below cfg) (all_iterations st)
              /\ chat w (requests st) (prompt_after texts cfg (all_iterations st)) = Raise e)
             \/ (List.length (all_iterations st) = requests st
                 /\ (exists h r, all_iterations st = (h ++ [r])%list
                                 /\ files st = map file_of h)
                 /\ write_error w (iteration_json (requests st)) = Some e))
     end.

(** *** More examples *)

(** The second text of [test_score_extraction]: no scores header, the
    three separators and a name written with [and]. *)
Definition alternative_entries : list score_entry :=
  [ {| e_key := "Project Definition"; e_naming := Full; e_separator := Dash;
       e_value := "78.5" |};
    {| e_key := "Data Identification & Assessment"; e_naming := WithAnd;
       e_separator := Colon; e_value := "82.0" |};
    {| e_key := "Mathematical Modeling"; e_naming := Full; e_separator := Equals;
       e_value := "85" |};
    {| e_key := "Risk Analysis"; e_naming := Full; e_separator := Colon; e_value := "80" |};
    {| e_key := "Recommendations"; e_naming := Full; e_separator := Colon;
       e_value := "83" |};
    {| e_key := "Communication & Clarity"; e_naming := Full; e_separator := Colon;
       e_value := "90" |} ].

Definition alternative_format : string :=
  "Evaluation Results:" ++ LF
  ++ "Project Definition - 78.5" ++ LF
  ++ "Data Identification and Assessment: 82.0" ++ LF
  ++ "Mathematical Modeling = 85" ++ LF
  ++ "Risk Analysis: 80" ++ LF
  ++ "Recommendations: 83" ++ LF
  ++ "Communication & Clarity: 90" ++ LF
  ++ "OVERALL SCORE: 82.8".

(** A list with the value before the name. *)
Definition number_first : string :=
  "85: Project Definition" ++ LF ++ "90: Risk Analysis".

(** A reply that mentions a category before the scores header and after
    the total. *)
Definition scores_in_report : string :=
  "Risk Analysis: 10" ++ LF
  ++ "SCORES:" ++ LF
  ++ "Risk Analysis: 85" ++ LF
  ++ "WEIGHTED TOTAL: 85" ++ LF
  ++ "Risk Analysis: 20".

Definition three_passes : world := scripted (nth_reply totals_40_70_96) (fun _ => "").

(** The third text of [test_score_extraction]: three of the six
    categories and a total. *)
Definition partial_scores : string :=
  "SCORES:" ++ LF
  ++ "Project Definition: 90" ++ LF
  ++ "Mathematical Modeling: 85" ++ LF
  ++ "Risk Analysis: 88" ++ LF
  ++ "WEIGHTED TOTAL: 87.5".

(** A reply as the system prompt asks for it: a report and the score
    block at its end. *)
Definition report_then_block : string :=
  "Risk Analysis: 3 scenarios, total loss 250." ++ LF ++ block_RUBRIC.

(** *** The weighted total

    Modelled from the spec: the sum of score_i x weight_i over the
    categories, the scores and the weights taken side by side in the
    order of the rubric, the products added from the left in binary64. *)
Fixpoint sum_of_products (scores weights : list float) (acc : float) : float :=
  match scores, weights with
  | score :: scores', weight :: weights' =>
      sum_of_products scores' weights' (Float.add acc (Float.mul score weight))
  | _, _ => acc
  end.

Definition weighted_total (scores weights : list float) : float :=
  sum_of_products scores weights Float.zero.

(** The lines of the score block for [RUBRIC], without header and
    without total. *)
Definition lines_RUBRIC : string := score_lines entries_RUBRIC.

(** A scores section whose first line carries the word [total] after
    the value. *)
Definition stop_word_in_line : string :=
  "SCORES:" ++ LF ++ "A: 80 (total points)" ++ LF ++ "B: 70".


(** * Properties *)

(** ** Floats: signs and comparisons *)

Module FloatFacts.
Import Float.

Lemma shr_1_nonneg mrs : (0 <= shr_m mrs)%Z -> (0 <= shr_m (shr_1 mrs))%Z.
Proof.
  destruct mrs as [m r s]; simpl.
  destruct m as [|p|p]; simpl; try lia; destruct p; simpl; lia.
Qed.

Lemma iter_shr_1_nonneg p : forall mrs,
  (0 <= shr_m mrs)%Z -> (0 <= shr_m (iter_pos shr_1 p mrs))%Z.
Proof.
  induction p as [p IH|p IH|]; intros mrs H; simpl.
  - apply IH, IH, shr_1_nonneg, H.
  - apply IH, IH, H.
  - apply shr_1_nonneg, H.
Qed.

Lemma shr_fexp_nonneg pr em m e l :
  (0 <= m)%Z -> (0 <= shr_m (fst (shr_fexp pr em m e l)))%Z.
Proof.
  intros H. unfold shr_fexp, shr.
  assert (H0 : (0 <= shr_m (shr_record_of_loc m l))%Z).
  { destruct l as [|[]]; simpl; exact H. }
  destruct (fexp pr em (Zdigits2 m + e) - e)%Z; simpl; auto.
  apply iter_shr_1_nonneg, H0.
Qed.

Lemma round_nearest_even_nonneg m l : (0 <= m)%Z -> (0 <= round_nearest_even m l)%Z.
Proof.
  intros H. destruct l as [|[]]; simpl; try lia.
  destruct (Z.even m); lia.
Qed.

Lemma binary_round_aux_nonneg pr em m e l :
  (0 <= m)%Z -> nonneg (binary_round_aux pr em false m e l) = true.
Proof.
  intros H. unfold binary_round_aux.
  pose proof (shr_fexp_nonneg pr em m e l H) as H1.
  destruct (shr_fexp pr em m e l) as [mrs' e']. simpl in H1.
  pose proof (shr_fexp_nonneg pr em _ e' loc_Exact
                (round_nearest_even_nonneg _ (loc_of_shr_record mrs') H1)) as H2.
  destruct (shr_fexp pr em _ e' loc_Exact) as [mrs'' e'']. simpl in H2.
  destruct (shr_m mrs''); simpl; try reflexivity.
  - destruct (e'' <=? em - pr)%Z; reflexivity.
  - lia.
Qed.

Lemma binary_round_nonneg pr em m e : nonneg (binary_round pr em false m e) = true.
Proof.
  unfold binary_round. destruct (shl_align _ _ _) as [mz ez].
  apply binary_round_aux_nonneg. lia.
Qed.

Lemma of_decimal_nonneg n k : nonneg (of_decimal n k) = true.
Proof.
  destruct n as [|p]; [reflexivity|].
  unfold of_decimal, SFdiv, SFdiv_core_binary.
  set (m' := match _ with Zpos _ => _ | Z0 => _ | Zneg _ => _ end).
  assert (Hm : (0 <= m')%Z).
  { subst m'. destruct (_ - _ - _)%Z; try lia. apply Z.shiftl_nonneg. lia. }
  pose proof (Z_div_mod m' (Zpos (pow10 k)) eq_refl) as Hd.
  destruct (Z.div_eucl m' (Zpos (pow10 k))) as [q r].
  apply binary_round_aux_nonneg. nia.
Qed.

Lemma add_nonneg x y : nonneg x = true -> nonneg y = true -> nonneg (add x y) = true.
Proof.
  destruct x as [[]|[]| |[] mx ex], y as [[]|[]| |[] my ey]; simpl; try discriminate; auto.
  intros _ _. unfold binary_normalize.
  destruct (shl_align mx ex (Z.min ex ey)) as [a ?], (shl_align my ey (Z.min ex ey)) as [b ?].
  simpl. apply binary_round_nonneg.
Qed.

Lemma mul_nonneg x mw ew :
  nonneg x = true -> is_inf x = false ->
  nonneg (mul x (S754_finite false mw ew)) = true.
Proof.
  destruct x as [[]|[]| |[] mx ex]; simpl; try discriminate; auto.
  intros _ _. apply binary_round_aux_nonneg. lia.
Qed.

Lemma ltb_zero_false x : nonneg x = true -> ltb zero x = false -> x = zero.
Proof.
  intros Hn Hl.
  destruct x as [[]|[]| |[] mx ex]; try discriminate Hn; try discriminate Hl.
  reflexivity.
Qed.

Lemma compare_cont_flip p q :
  PosDef.Pos.compare_cont Eq q p = CompOpp (PosDef.Pos.compare_cont Eq p q).
Proof. symmetry. exact (Pos.compare_cont_antisym p q Eq). Qed.

Lemma compare_antisym x y : SFcompare y x = option_map CompOpp (SFcompare x y).
Proof.
  destruct x as [[]|[]| |[] mx ex], y as [[]|[]| |[] my ey]; simpl; try reflexivity.
  - rewrite (Z.compare_antisym ey ex).
    destruct (ey ?= ex)%Z; simpl; try reflexivity.
    rewrite (compare_cont_flip mx my). reflexivity.
  - rewrite (Z.compare_antisym ey ex).
    destruct (ey ?= ex)%Z; simpl; try reflexivity.
    rewrite (compare_cont_flip mx my). reflexivity.
Qed.

Lemma compare_not_nan x y :
  is_nan x = false -> is_nan y = false -> SFcompare x y <> None.
Proof.
  destruct x as [[]|[]| |[] mx ex], y as [[]|[]| |[] my ey]; simpl; discriminate.
Qed.

(** [x < y] and [x >= y] are complementary away from NaN. *)
Lemma ltb_negb_leb x y :
  is_nan x = false -> is_nan y = false -> ltb x y = negb (leb y x).
Proof.
  intros Hx Hy. unfold ltb, leb, SFltb, SFleb. rewrite (compare_antisym x y).
  pose proof (compare_not_nan x y Hx Hy).
  destruct (SFcompare x y) as [[]|]; simpl; congruence.
Qed.

Lemma ltb_true_leb_false x y : ltb x y = true -> leb y x = false.
Proof.
  unfold ltb, leb, SFltb, SFleb. rewrite (compare_antisym x y).
  destruct (SFcompare x y) as [[]|]; simpl; congruence.
Qed.

Lemma nonneg_not_nan x : nonneg x = true -> is_nan x = false.
Proof. destruct x as [[]|[]| |[] ? ?]; simpl; congruence. Qed.

Lemma ltb_true_not_nan_r x y : ltb x y = true -> is_nan y = false.
Proof.
  intros H. destruct y; try reflexivity.
  destruct x; discriminate H.
Qed.

Lemma leb_hundred_not_inf x : nonneg x = true -> leb x hundred = true -> is_inf x = false.
Proof.
  intros Hn Hl. destruct x as [s|s| |s m e]; try reflexivity.
  destruct s; [discriminate Hn | discriminate Hl].
Qed.

Lemma weight_shape w :
  ltb zero w = true -> leb w one = true -> exists m e, w = S754_finite false m e.
Proof.
  intros Hl Hu. destruct w as [s|s| |s m e]; try discriminate Hl.
  - destruct s; [discriminate Hl | discriminate Hu].
  - destruct s; [discriminate Hl | eauto].
Qed.

End FloatFacts.

(** ** Strings *)

Open Scope string_scope.

Module StrFacts.

Lemma app_assoc (a b c : string) : (a ++ b) ++ c = a ++ b ++ c.
Proof. induction a as [|x a IH]; simpl; [reflexivity | now rewrite IH]. Qed.

Lemma app_nil_r (a : string) : a ++ "" = a.
Proof. induction a as [|x a IH]; simpl; [reflexivity | now rewrite IH]. Qed.

Lemma length_app (a b : string) :
  String.length (a ++ b) = String.length a + String.length b.
Proof. induction a as [|x a IH]; simpl; [reflexivity | now rewrite IH]. Qed.

Lemma take_app (a b : string) : Str.take (String.length a) (a ++ b) = a.
Proof. induction a as [|x a IH]; simpl; [now destruct b | now rewrite IH]. Qed.

Lemma consumed_app (a b : string) : consumed (a ++ b) b = a.
Proof.
  unfold consumed. rewrite length_app.
  replace (String.length a + String.length b - String.length b)
    with (String.length a) by lia.
  apply take_app.
Qed.

End StrFacts.

(** ** The matcher *)

Module ReFacts.

Section Results.
Context {R : Type}.

(** A result of the matcher is a result of its continuation. *)
Lemma star_greedy_from_k p (k : string -> option R) s x :
  star_greedy p k s = Some x -> exists s', k s' = Some x.
Proof.
  induction s as [|a s IH]; simpl; [eauto|].
  destruct (p a); [|eauto].
  destruct (star_greedy p k s) eqn:E; [|eauto].
  intros [= <-]. apply IH. reflexivity.
Qed.

Lemma star_lazy_from_k p (k : string -> option R) s x :
  star_lazy p k s = Some x -> exists s', k s' = Some x.
Proof.
  induction s as [|a s IH]; simpl.
  - destruct (k "") eqn:E; [intros [= <-]; eauto | discriminate].
  - destruct (k (String a s)) eqn:E; [intros [= <-]; eauto|].
    destruct (p a); [apply IH | discriminate].
Qed.

Lemma exec_from_k r : forall s g (k : string -> option string -> option R) x,
  exec r s g k = Some x -> exists s' g', k s' g' = Some x.
Proof.
  induction r as [|c|l|r1 IH1 r2 IH2|r1 IH1 r2 IH2|c|c|r IH|]; intros s g k x; simpl.
  - eauto.
  - destruct s as [|a s]; [discriminate|]. destruct (cmatch c a); [eauto | discriminate].
  - destruct (lit_prefix l s); [eauto | discriminate].
  - intros H. apply IH1 in H as (s1 & g1 & H). apply IH2 in H. exact H.
  - destruct (exec r1 s g k) eqn:E.
    + intros [= <-]. apply IH1 in E. exact E.
    + apply IH2.
  - intros H. apply star_greedy_from_k in H as [s' H]. eauto.
  - intros H. apply star_lazy_from_k in H as [s' H]. eauto.
  - intros H. apply IH in H as (s1 & g1 & H). eauto.
  - destruct (at_end s); [eauto | discriminate].
Qed.

(** Once set, the group stays set. *)
Lemma exec_keeps_group r : forall s g (k : string -> option string -> option R) x,
  g <> None -> exec r s g k = Some x ->
  exists s' g', g' <> None /\ k s' g' = Some x.
Proof.
  induction r as [|c|l|r1 IH1 r2 IH2|r1 IH1 r2 IH2|c|c|r IH|]; intros s g k x Hg; simpl.
  - eauto.
  - destruct s as [|a s]; [discriminate|]. destruct (cmatch c a); [eauto | discriminate].
  - destruct (lit_prefix l s); [eauto | discriminate].
  - intros H. apply IH1 in H as (s1 & g1 & Hg1 & H); [|exact Hg].
    apply IH2 in H; assumption.
  - destruct (exec r1 s g k) eqn:E.
    + intros [= <-]. apply IH1 in E; assumption.
    + apply IH2. exact Hg.
  - intros H. apply star_greedy_from_k in H as [s' H]. eauto.
  - intros H. apply star_lazy_from_k in H as [s' H]. eauto.
  - intros H. apply exec_from_k in H as (s1 & g1 & H).
    exists s1, (Some (consumed s s1)). split; [discriminate | exact H].
  - destruct (at_end s); [eauto | discriminate].
Qed.

Lemma exec_sets_group r : forall s g (k : string -> option string -> option R) x,
  sets_group r = true -> exec r s g k = Some x ->
  exists s' g', g' <> None /\ k s' g' = Some x.
Proof.
  induction r as [|c|l|r1 IH1 r2 IH2|r1 IH1 r2 IH2|c|c|r IH|];
    intros s g k x Hr; simpl in *; try discriminate.
  - intros H. destruct (sets_group r1) eqn:E1.
    + apply IH1 in H as (s1 & g1 & Hg1 & H); [|reflexivity].
      apply exec_keeps_group in H; assumption.
    + apply exec_from_k in H as (s1 & g1 & H). apply IH2 in H; assumption.
  - apply andb_true_iff in Hr as [H1 H2].
    destruct (exec r1 s g k) eqn:E.
    + intros [= <-]. apply IH1 in E; assumption.
    + apply IH2. exact H2.
  - intros H. apply exec_from_k in H as (s1 & g1 & H).
    exists s1, (Some (consumed s s1)). split; [discriminate | exact H].
Qed.

End Results.

Lemma match_here_group r s m :
  sets_group r = true -> match_here r s = Some m -> exists text, group1 m = Some text.
Proof.
  intros Hr H. apply exec_sets_group in H as (s' & g' & Hg & H); [|exact Hr].
  injection H as <-. simpl. destruct g'; [eauto | contradiction].
Qed.

Lemma search_group r s m :
  sets_group r = true -> search r s = Some m -> exists text, group1 m = Some text.
Proof.
  intros Hr. induction s as [|a s IH]; simpl.
  - destruct (match_here r "") eqn:E; [|discriminate].
    intros [= <-]. eapply match_here_group; eassumption.
  - destruct (match_here r (String a s)) eqn:E; [|exact IH].
    intros [= <-]. eapply match_here_group; eassumption.
Qed.

End ReFacts.

(** ** [extract_scores] never raises *)

Module Total.
Import ReFacts.

Lemma py_float_raises text e : PyFloat.py_float text = Raise e -> e = ValueError.
Proof.
  unfold PyFloat.py_float.
  destruct (PyFloat.read_digits text 0 0) as [[n i] rest].
  destruct i; [congruence|].
  destruct rest as [|dot frac]; [discriminate|].
  destruct (Ascii.eqb dot "."); [|congruence].
  destruct (PyFloat.read_digits frac n 0) as [[m k] rest'].
  destruct k; [congruence|]. destruct rest'; congruence.
Qed.

Lemma float_of_group_handled r s m e :
  sets_group r = true -> search r s = Some m ->
  float_of_group m = Raise e -> handled e = true.
Proof.
  intros Hr Hs. destruct (search_group r s m Hr Hs) as [text Ht].
  unfold float_of_group. rewrite Ht. intros H.
  apply py_float_raises in H. subst e. reflexivity.
Qed.

Lemma patterns_set_group key_var : forallb sets_group (patterns key_var) = true.
Proof. reflexivity. Qed.

Lemma total_patterns_set_group : forallb sets_group total_patterns = true.
Proof. reflexivity. Qed.

Lemma for_patterns_ok key ps text : forall scores,
  forallb sets_group ps = true ->
  exists scores', for_patterns key ps text scores = Ok scores'.
Proof.
  induction ps as [|p ps IH]; intros scores Hps; simpl; [eauto|].
  simpl in Hps. apply andb_true_iff in Hps as [Hp Hps].
  destruct (search p text) as [m|] eqn:Es; [|auto].
  destruct (float_of_group m) as [val|e] eqn:Ef.
  - destruct (in_range val); eauto.
  - rewrite (float_of_group_handled p text m e Hp Es Ef). auto.
Qed.

Lemma for_variations_ok key vars text : forall scores,
  exists scores', for_variations key vars text scores = Ok scores'.
Proof.
  induction vars as [|v vars IH]; intros scores; cbn [for_variations]; [eauto|].
  destruct (for_patterns_ok key (patterns v) text scores (patterns_set_group v))
    as [scores' ->]. cbn [bind].
  destruct (Dict.mem key scores'); eauto.
Qed.

Lemma for_keys_ok ks text : forall scores,
  exists scores', for_keys ks text scores = Ok scores'.
Proof.
  induction ks as [|k ks IH]; intros scores; cbn [for_keys]; [eauto|].
  destruct (for_variations_ok k (key_variations k) text scores) as [scores' ->].
  cbn [bind]. apply IH.
Qed.

Lemma score_text_of_ok response : exists text, score_text_of response = Ok text.
Proof.
  unfold score_text_of.
  destruct (search scores_section response) as [m|] eqn:E; [|eauto].
  destruct (search_group scores_section response m eq_refl E) as [text ->]. eauto.
Qed.

Lemma category_scores_ok rubric response :
  exists scores, category_scores rubric response = Ok scores.
Proof.
  unfold category_scores.
  destruct (score_text_of_ok response) as [text ->]. simpl. apply for_keys_ok.
Qed.

Lemma for_total_patterns_ok ps response : forall total,
  forallb sets_group ps = true ->
  exists total', for_total_patterns ps response total = Ok total'.
Proof.
  induction ps as [|p ps IH]; intros total Hps; simpl; [eauto|].
  simpl in Hps. apply andb_true_iff in Hps as [Hp Hps].
  destruct (search p response) as [m|] eqn:Es; [|auto].
  destruct (float_of_group m) as [val|e] eqn:Ef.
  - destruct (in_range val); eauto.
  - rewrite (float_of_group_handled p response m e Hp Es Ef). auto.
Qed.

Lemma scanned_total_ok response : exists total, scanned_total response = Ok total.
Proof. apply for_total_patterns_ok, total_patterns_set_group. Qed.

Lemma item_of_key (rubric : dict float) k :
  In k (Dict.keys rubric) -> exists w, Dict.item k rubric = Ok w /\ In (k, w) rubric.
Proof.
  unfold Dict.item. induction rubric as [|[k' w'] rubric IH]; simpl; [contradiction|].
  intros H. destruct (String.eqb k k') eqn:E.
  - apply String.eqb_eq in E. subst k'. eauto.
  - destruct H as [H|H]; [subst k'; rewrite String.eqb_refl in E; discriminate|].
    destruct (IH H) as (w & Hw & Hin). exists w. split; [exact Hw | right; exact Hin].
Qed.

Lemma weighted_sum_ok rubric scores ks : forall acc,
  incl ks (Dict.keys rubric) ->
  exists total, weighted_sum rubric ks scores acc = Ok total.
Proof.
  induction ks as [|k ks IH]; intros acc Hks; simpl; [eauto|].
  destruct (item_of_key rubric k) as (w & -> & _); [apply Hks; left; reflexivity|].
  simpl. apply IH. intros x Hx. apply Hks. right. exact Hx.
Qed.

Lemma calculated_total_ok rubric scores :
  exists total, calculated_total rubric scores = Ok total.
Proof. apply weighted_sum_ok, incl_refl. Qed.

Theorem extract_scores_ok rubric response :
  exists scores total, extract_scores rubric response = Ok (scores, total).
Proof.
  unfold extract_scores.
  destruct (category_scores_ok rubric response) as [scores ->].
  destruct (scanned_total_ok response) as [total ->]. simpl.
  destruct (negb (Float.truthy total) || _); simpl; [|eauto].
  destruct (calculated_total_ok rubric scores) as [c ->]. simpl. eauto.
Qed.

End Total.

(** ** Dictionaries *)

Module DictFacts.

Section Facts.
Context {V : Type}.
Implicit Types (d : dict V) (k : string) (v : V).

Lemma mem_false_not_in k d : Dict.mem k d = false <-> ~ In k (Dict.keys d).
Proof.
  unfold Dict.mem. induction d as [|[k' v'] d IH]; simpl; [tauto|].
  destruct (String.eqb k k') eqn:E.
  - apply String.eqb_eq in E. subst. split; [discriminate | intros H; exfalso; auto].
  - apply String.eqb_neq in E. rewrite IH. split; [intros H [H'|H']; auto | tauto].
Qed.

Lemma set_fresh k v d : Dict.mem k d = false -> Dict.set k v d = (d ++ [(k, v)])%list.
Proof.
  unfold Dict.mem. induction d as [|[k' v'] d IH]; simpl; [reflexivity|].
  destruct (String.eqb k k'); [discriminate|].
  intros H. rewrite IH; [reflexivity | exact H].
Qed.

Lemma get_app k d d' :
  Dict.get k (d ++ d')%list =
  match Dict.get k d with Some v => Some v | None => Dict.get k d' end.
Proof.
  induction d as [|[k' v'] d IH]; simpl; [reflexivity|].
  destruct (String.eqb k k'); [reflexivity | exact IH].
Qed.

Lemma mem_app k d d' : Dict.mem k (d ++ d')%list = Dict.mem k d || Dict.mem k d'.
Proof. unfold Dict.mem. rewrite get_app. destruct (Dict.get k d); reflexivity. Qed.

Lemma keys_app d d' : Dict.keys (d ++ d')%list = (Dict.keys d ++ Dict.keys d')%list.
Proof. apply map_app. Qed.

Lemma get_not_in k d : ~ In k (Dict.keys d) -> Dict.get k d = None.
Proof.
  intros H. apply mem_false_not_in in H. unfold Dict.mem in H.
  destruct (Dict.get k d); [discriminate | reflexivity].
Qed.

End Facts.

End DictFacts.

(** ** The category loop finds the first accepted combination *)

Module Categories.
Import ReFacts Total DictFacts.

Lemma first_accepted_app ps qs text :
  first_accepted (ps ++ qs)%list text =
  match first_accepted ps text with
  | Some val => Some val
  | None => first_accepted qs text
  end.
Proof.
  induction ps as [|p ps IH]; simpl; [reflexivity|].
  destruct (accepted p text); [reflexivity | exact IH].
Qed.

Lemma for_patterns_spec key ps text scores :
  forallb sets_group ps = true ->
  for_patterns key ps text scores =
  Ok (match first_accepted ps text with
      | Some val => Dict.set key val scores
      | None => scores
      end).
Proof.
  induction ps as [|p ps IH]; intros Hps; simpl; [reflexivity|].
  simpl in Hps. apply andb_true_iff in Hps as [Hp Hps].
  unfold accepted.
  destruct (search p text) as [m|] eqn:Es; [|auto].
  destruct (float_of_group m) as [val|e] eqn:Ef.
  - destruct (in_range val); auto.
  - rewrite (float_of_group_handled p text m e Hp Es Ef). auto.
Qed.

Lemma mem_set_same key (val : float) scores : Dict.mem key (Dict.set key val scores) = true.
Proof.
  unfold Dict.mem. induction scores as [|[k' v'] d IH]; simpl.
  - now rewrite String.eqb_refl.
  - destruct (String.eqb key k') eqn:E; simpl.
    + now rewrite String.eqb_refl.
    + rewrite E. exact IH.
Qed.

Lemma for_variations_spec key vars text scores :
  Dict.mem key scores = false ->
  for_variations key vars text scores =
  Ok (match first_accepted (flat_map patterns vars) text with
      | Some val => Dict.set key val scores
      | None => scores
      end).
Proof.
  intros Hfresh. induction vars as [|v vars IH]; [reflexivity|].
  cbn [for_variations flat_map].
  rewrite (for_patterns_spec key (patterns v) text scores (patterns_set_group v)).
  cbn [bind]. rewrite first_accepted_app.
  destruct (first_accepted (patterns v) text) as [val|].
  - now rewrite mem_set_same.
  - rewrite Hfresh. exact IH.
Qed.

Lemma for_keys_spec ks text : forall scores,
  NoDup ks -> (forall k, In k ks -> Dict.mem k scores = false) ->
  for_keys ks text scores = Ok (scores ++ found_scores ks text)%list.
Proof.
  induction ks as [|k ks IH]; intros scores Hnd Hfresh.
  - simpl. now rewrite List.app_nil_r.
  - cbn [for_keys found_scores flat_map].
    rewrite for_variations_spec by (apply Hfresh; left; reflexivity).
    cbn [bind]. fold (combinations k). inversion Hnd as [|? ? Hk Hnd']; subst.
    destruct (first_accepted (combinations k) text) as [val|].
    + rewrite set_fresh by (apply Hfresh; left; reflexivity).
      rewrite IH; [now rewrite <- List.app_assoc | exact Hnd' |].
      intros k' Hk'. rewrite mem_app, Hfresh by (right; exact Hk'). simpl.
      unfold Dict.mem. simpl.
      destruct (String.eqb k' k) eqn:E; [|reflexivity].
      apply String.eqb_eq in E. subst. contradiction.
    + apply IH; [exact Hnd'|]. intros k' Hk'. apply Hfresh. right. exact Hk'.
Qed.

Lemma keys_found_incl ks text k : In k (Dict.keys (found_scores ks text)) -> In k ks.
Proof.
  induction ks as [|k0 ks IH]; [intros []|].
  unfold found_scores. cbn [flat_map]. fold (found_scores ks text).
  rewrite keys_app, in_app_iff.
  intros [H|H]; [|right; apply IH, H].
  destruct (first_accepted (combinations k0) text).
  - destruct H as [H|[]]. left. exact H.
  - destruct H.
Qed.

Lemma get_found ks text k :
  In k ks -> NoDup ks ->
  Dict.get k (found_scores ks text) = first_accepted (combinations k) text.
Proof.
  induction ks as [|k0 ks IH]; intros Hin Hnd; [contradiction|].
  inversion Hnd as [|? ? Hk0 Hnd']; subst.
  unfold found_scores. cbn [flat_map]. fold (found_scores ks text).
  rewrite get_app. destruct Hin as [->|Hin].
  - destruct (first_accepted (combinations k) text) as [val|] eqn:E; simpl.
    + now rewrite String.eqb_refl.
    + apply get_not_in. intros H. apply keys_found_incl in H. contradiction.
  - assert (Hne : String.eqb k k0 = false).
    { apply String.eqb_neq. intros ->. contradiction. }
    destruct (first_accepted (combinations k0) text); simpl; [rewrite Hne|]; auto.
Qed.

Lemma category_scores_spec rubric response :
  NoDup (Dict.keys rubric) ->
  exists text,
    score_text_of response = Ok text
    /\ category_scores rubric response = Ok (found_scores (Dict.keys rubric) text).
Proof.
  intros Hnd. unfold category_scores.
  destruct (score_text_of_ok response) as [text Ht]. exists text.
  split; [exact Ht|]. rewrite Ht. cbn [bind].
  rewrite for_keys_spec; [reflexivity | exact Hnd | reflexivity].
Qed.

(** [fill_missing] adds a zero for the keys that are missing and
    changes nothing else. *)
Lemma get_fill_missing ks : forall (scores : dict float) k,
  Dict.get k (fill_missing ks scores) =
  match Dict.get k scores with
  | Some val => Some val
  | None => if existsb (String.eqb k) ks then Some Float.zero else None
  end.
Proof.
  induction ks as [|k0 ks IH]; intros scores k; cbn [fill_missing existsb].
  - destruct (Dict.get k scores); reflexivity.
  - rewrite IH. destruct (Dict.mem k0 scores) eqn:Em.
    + destruct (Dict.get k scores) eqn:Eg; [reflexivity|].
      destruct (String.eqb k k0) eqn:E; [|reflexivity].
      apply String.eqb_eq in E. subst. unfold Dict.mem in Em. now rewrite Eg in Em.
    + rewrite set_fresh by exact Em. rewrite get_app. simpl.
      destruct (Dict.get k scores); [reflexivity|].
      destruct (String.eqb k k0); reflexivity.
Qed.

Lemma fill_missing_complete ks : forall (scores : dict float),
  (forall k, In k ks -> Dict.mem k scores = true) -> fill_missing ks scores = scores.
Proof.
  induction ks as [|k0 ks IH]; intros scores H; cbn [fill_missing]; [reflexivity|].
  rewrite (H k0) by (left; reflexivity). apply IH. intros k Hk. apply H. right. exact Hk.
Qed.

Lemma get_default_fill_missing ks (scores : dict float) k :
  Dict.get_default k Float.zero (fill_missing ks scores) =
  Dict.get_default k Float.zero scores.
Proof.
  unfold Dict.get_default. rewrite get_fill_missing.
  destruct (Dict.get k scores); [reflexivity|].
  destruct (existsb (String.eqb k) ks); reflexivity.
Qed.

End Categories.

(** ** Characters and decimal texts *)

Module CharFacts.

Ltac by_cases a := destruct a as [[] [] [] [] [] [] [] []]; try discriminate; reflexivity.

Lemma eq_ci_refl a : Char.eq_ci a a = true.
Proof. apply Ascii.eqb_refl. Qed.

Lemma digit_not_space a : Char.is_digit a = true -> Char.is_space a = false.
Proof. by_cases a. Qed.

Lemma digit_lower a : Char.is_digit a = true -> Char.lower a = a.
Proof. by_cases a. Qed.

Lemma digit_numeric a : Char.is_digit a = true -> is_numeric a = true.
Proof. unfold is_numeric. now intros ->. Qed.

Lemma numeric_lower a : is_numeric a = true -> Char.lower a = a.
Proof. by_cases a. Qed.

Lemma not_numeric_not_digit a : is_numeric a = false -> Char.is_digit a = false.
Proof. unfold is_numeric. now destruct (Char.is_digit a). Qed.

Lemma not_numeric_not_point a : is_numeric a = false -> Char.eq_ci "." a = false.
Proof. by_cases a. Qed.

Lemma point_not_digit : Char.is_digit "." = false.
Proof. reflexivity. Qed.

Lemma lower_space a : Char.is_space (Char.lower a) = false -> Char.eq_ci a Char.LF = false.
Proof. by_cases a. Qed.

(** A character that matches a numeric one under IGNORECASE has a
    numeric lower case. *)
Lemma eq_ci_numeric a b :
  is_numeric b = true -> Char.eq_ci a b = true -> is_numeric (Char.lower a) = true.
Proof.
  intros Hb H. unfold Char.eq_ci in H. apply Ascii.eqb_eq in H.
  rewrite H, (numeric_lower b Hb). exact Hb.
Qed.

End CharFacts.

Module Numbers.
Import StrFacts CharFacts.

Lemma read_digits_spec s : forall acc c n c' rest,
  PyFloat.read_digits s acc c = (n, c', rest) ->
  exists ds, s = ds ++ rest /\ all_chars Char.is_digit ds = true
             /\ c' = c + String.length ds /\ no_digit_ahead rest.
Proof.
  induction s as [|a s IH]; intros acc c n c' rest; simpl.
  - intros [= <- <- <-]. exists "". simpl. auto.
  - destruct (Char.is_digit a) eqn:Ea.
    + intros H. apply IH in H as (ds & -> & Hds & -> & Hrest).
      exists (String a ds). simpl. rewrite Ea, Hds. repeat split; auto; lia.
    + intros [= <- <- <-]. exists "". simpl. rewrite Ea. auto.
Qed.

Lemma py_float_decimal v x : PyFloat.py_float v = Ok x -> decimal v.
Proof.
  unfold PyFloat.py_float.
  destruct (PyFloat.read_digits v 0 0) as [[n i] rest] eqn:E1.
  apply read_digits_spec in E1 as (ip & -> & Hip & -> & _).
  destruct ip as [|a ip]; [discriminate|]. cbn [String.length Nat.add].
  destruct rest as [|dot frac].
  - intros _. left. rewrite app_nil_r. split; [exact Hip | discriminate].
  - destruct (Ascii.eqb dot ".") eqn:Ed; [|discriminate].
    apply Ascii.eqb_eq in Ed. subst dot.
    destruct (PyFloat.read_digits frac n 0) as [[m k] rest'] eqn:E2.
    apply read_digits_spec in E2 as (fp & -> & Hfp & -> & _).
    destruct fp as [|b fp]; [discriminate|]. cbn [String.length Nat.add].
    destruct rest'; [|discriminate]. intros _.
    right. exists (String a ip), (String b fp). rewrite app_nil_r.
    repeat split; auto; discriminate.
Qed.

Lemma all_chars_app p a b : all_chars p (a ++ b) = all_chars p a && all_chars p b.
Proof. induction a as [|x a IH]; simpl; [reflexivity | now rewrite IH, andb_assoc]. Qed.

Lemma digits_numeric s : all_chars Char.is_digit s = true -> all_chars is_numeric s = true.
Proof.
  induction s as [|a s IH]; simpl; [reflexivity|].
  intros H. apply andb_true_iff in H as [Ha Hs].
  now rewrite (digit_numeric a Ha), IH.
Qed.

Lemma decimal_numeric v : decimal v -> all_chars is_numeric v = true.
Proof.
  intros [[H _]|(ip & fp & -> & [Hip _] & [Hfp _])].
  - apply digits_numeric, H.
  - rewrite !all_chars_app, (digits_numeric ip Hip), (digits_numeric fp Hfp). reflexivity.
Qed.

Lemma digits_head s : digits s -> exists d s', s = String d s' /\ Char.is_digit d = true
                                               /\ all_chars Char.is_digit s' = true.
Proof.
  intros [H Hne]. destruct s as [|d s']; [contradiction|].
  simpl in H. apply andb_true_iff in H as [Hd Hs]. eauto.
Qed.

Lemma decimal_head v : decimal v -> exists d v', v = String d v' /\ Char.is_digit d = true.
Proof.
  intros [H|(ip & fp & -> & Hip & _)].
  - destruct (digits_head v H) as (d & s' & -> & Hd & _). eauto.
  - destruct (digits_head ip Hip) as (d & s' & -> & Hd & _). simpl. eauto.
Qed.

Lemma ends_number_no_digit rest : ends_number rest -> no_digit_ahead rest.
Proof. destruct rest as [|a r]; simpl; [auto | apply not_numeric_not_digit]. Qed.

Section Greedy.
Context {R : Type}.

Lemma star_stops p (k : string -> option R) rest :
  match rest with EmptyString => True | String a _ => p a = false end ->
  star_greedy p k rest = k rest.
Proof. destruct rest as [|a r]; simpl; [reflexivity | now intros ->]. Qed.

(** A greedy run of digits takes all of them when the continuation
    accepts what follows. *)
Lemma star_digits ds rest (k : string -> option R) x :
  all_chars Char.is_digit ds = true -> no_digit_ahead rest ->
  k rest = Some x ->
  star_greedy (cmatch Digit) k (ds ++ rest) = Some x.
Proof.
  intros Hds Hrest Hk. induction ds as [|d ds IH]; simpl.
  - rewrite star_stops; [exact Hk | exact Hrest].
  - simpl in Hds. apply andb_true_iff in Hds as [Hd Hds].
    rewrite Hd, (IH Hds). reflexivity.
Qed.

Lemma exec_number v rest g (k : string -> option string -> option R) x :
  decimal v -> ends_number rest -> k rest g = Some x ->
  exec number (v ++ rest) g k = Some x.
Proof.
  intros Hv Hrest Hk.
  assert (Hnd := ends_number_no_digit rest Hrest).
  destruct Hv as [Hv|(ip & fp & -> & Hip & Hfp)].
  - destruct (digits_head v Hv) as (d & ds & -> & Hd & Hds).
    cbn [number Plus Opt exec append]. simpl cmatch. rewrite Hd.
    apply star_digits; [exact Hds | exact Hnd |].
    destruct rest as [|a r]; [exact Hk|].
    simpl in Hrest. rewrite (not_numeric_not_point a Hrest). exact Hk.
  - destruct (digits_head ip Hip) as (d & ds & -> & Hd & Hds).
    destruct (digits_head fp Hfp) as (e & es & -> & He & Hes).
    rewrite app_assoc.
    cbn [number Plus Opt exec append]. simpl cmatch. rewrite Hd.
    apply star_digits; [exact Hds | reflexivity |].
    cbn [append]. change (Char.eq_ci "." ".") with true. cbn iota. rewrite He.
    rewrite (star_digits es rest _ x Hes Hnd Hk). reflexivity.
Qed.

Lemma exec_group_number v rest g (k : string -> option string -> option R) x :
  decimal v -> ends_number rest -> k rest (Some v) = Some x ->
  exec (Group number) (v ++ rest) g k = Some x.
Proof.
  intros Hv Hrest Hk. cbn [exec].
  apply exec_number; [exact Hv | exact Hrest |].
  rewrite consumed_app. exact Hk.
Qed.

End Greedy.

End Numbers.

(** ** Searching a text built from known pieces *)

Module Search.
Import StrFacts CharFacts Numbers.

Lemma lit_prefix_self l s : lit_prefix l (l ++ s) = Some s.
Proof. induction l as [|a l IH]; simpl; [reflexivity | now rewrite eq_ci_refl]. Qed.

Lemma mismatch_sound l : forall q s, mismatch l q = true -> lit_prefix l (q ++ s) = None.
Proof.
  induction l as [|a l IH]; intros [|b q] s; simpl; try discriminate.
  destruct (Char.eq_ci a b); [apply IH | reflexivity].
Qed.

(** *** Positions that cannot start a match *)

Lemma throughout_impl (P Q : string -> Prop) pre s :
  (forall t, P t -> Q t) -> throughout P pre s -> throughout Q pre s.
Proof. intros H. induction pre as [|a pre IH]; simpl; [auto | intros [? ?]; auto]. Qed.

Lemma throughout_and (P Q : string -> Prop) pre s :
  throughout P pre s -> throughout Q pre s -> throughout (fun t => P t /\ Q t) pre s.
Proof. induction pre as [|a pre IH]; simpl; [auto | intros [? ?] [? ?]; auto]. Qed.

Lemma throughout_app (P : string -> Prop) a b s :
  throughout P a (b ++ s) -> throughout P b s -> throughout P (a ++ b) s.
Proof.
  induction a as [|x a IH]; simpl; [auto|].
  intros [H1 H2] Hb. rewrite app_assoc. auto.
Qed.

Lemma absent_throughout l pre s : absent l pre = true -> throughout (lit_fails l) pre s.
Proof.
  induction pre as [|a pre IH]; simpl; [auto|].
  intros H. apply andb_true_iff in H as [H1 H2]. split; [|auto].
  exact (mismatch_sound l (String a pre) s H1).
Qed.

Lemma plain_head_lit_fails l a t :
  plain_head l = true -> is_numeric a = true -> lit_fails l (String a t).
Proof.
  unfold lit_fails. destruct l as [|x l]; [discriminate|]. simpl.
  intros H Ha. destruct (Char.eq_ci x a) eqn:E; [|reflexivity].
  rewrite (eq_ci_numeric x a Ha E) in H. discriminate.
Qed.

Lemma numeric_throughout l v s :
  plain_head l = true -> all_chars is_numeric v = true -> throughout (lit_fails l) v s.
Proof.
  intros Hl. induction v as [|a v IH]; simpl; [auto|].
  intros H. apply andb_true_iff in H as [Ha Hv]. split; [|auto].
  apply plain_head_lit_fails; assumption.
Qed.

Lemma plain_head_LF l : plain_head l = true -> absent l LF = true.
Proof.
  destruct l as [|x l]; [discriminate|]. simpl. intros H.
  apply andb_true_iff in H as [H _]. apply andb_true_iff in H as [_ H].
  apply negb_true_iff in H. now rewrite (lower_space x H).
Qed.

Lemma search_skip r pre s :
  throughout (fun t => match_here r t = None) pre s -> search r (pre ++ s) = search r s.
Proof.
  induction pre as [|a pre IH]; simpl; [reflexivity|].
  intros [H1 H2]. destruct s; simpl in *; rewrite H1; auto.
Qed.

Lemma search_here r s m : match_here r s = Some m -> search r s = Some m.
Proof. intros H. destruct s; simpl; now rewrite H. Qed.

Lemma lit_fails_match l r t : lit_fails l t -> match_here (Seq (Lit l) r) t = None.
Proof. unfold lit_fails, match_here. simpl. now intros ->. Qed.

(** *** One step of a sequence *)

Section Steps.
Context {R : Type}.
Implicit Types (k : string -> option string -> option R).

Lemma step_lit l r s g k : exec (Seq (Lit l) r) (l ++ s) g k = exec r s g k.
Proof. cbn [exec]. now rewrite lit_prefix_self. Qed.

Lemma step_lit_fails l r t g k : lit_fails l t -> exec (Seq (Lit l) r) t g k = None.
Proof. unfold lit_fails. cbn [exec]. now intros ->. Qed.

Lemma step_chr c r a s g k :
  cmatch c a = true -> exec (Seq (Chr c) r) (String a s) g k = exec r s g k.
Proof. cbn [exec]. now intros ->. Qed.

Lemma step_star_stop c r s g k :
  match s with EmptyString => True | String a _ => cmatch c a = false end ->
  exec (Seq (Star c) r) s g k = exec r s g k.
Proof. intros H. cbn [exec]. now rewrite star_stops. Qed.

Lemma step_star_take c r a s g k x :
  cmatch c a = true ->
  exec (Seq (Star c) r) s g k = Some x ->
  exec (Seq (Star c) r) (String a s) g k = Some x.
Proof. cbn [exec star_greedy]. now intros -> ->. Qed.

Lemma step_opt_take r r' s g k x :
  exec (Seq r r') s g k = Some x -> exec (Seq (Opt r) r') s g k = Some x.
Proof. unfold Opt. cbn [exec]. now intros ->. Qed.

Lemma step_opt_skip r r' s g k :
  exec (Seq r r') s g k = None -> exec (Seq (Opt r) r') s g k = exec r' s g k.
Proof. unfold Opt. cbn [exec]. now intros ->. Qed.

Lemma step_alt_left r1 r2 r s g k x :
  exec (Seq r1 r) s g k = Some x -> exec (Seq (Alt r1 r2) r) s g k = Some x.
Proof. cbn [exec]. now intros ->. Qed.

Lemma step_alt_right r1 r2 r s g k :
  exec (Seq r1 r) s g k = None ->
  exec (Seq (Alt r1 r2) r) s g k = exec (Seq r2 r) s g k.
Proof. cbn [exec]. now intros ->. Qed.

Lemma step_group_number r v rest g k x :
  decimal v -> ends_number rest ->
  exec r rest (Some v) k = Some x ->
  exec (Seq (Group number) r) (v ++ rest) g k = Some x.
Proof.
  intros Hv Hrest H. change (exec (Seq (Group number) r) (v ++ rest) g k)
    with (exec (Group number) (v ++ rest) g (fun s' g' => exec r s' g' k)).
  now apply exec_group_number.
Qed.

End Steps.

(** *** The pattern [<header>\s*:?\s*(number)] *)

Lemma match_total_pattern l v rest :
  decimal v -> ends_number rest ->
  match_here (total_pattern l) (l ++ ": " ++ v ++ rest) = Some {| group1 := Some v |}.
Proof.
  intros Hv Hrest. destruct (decimal_head v Hv) as (d & v' & Ev & Hd).
  unfold match_here, total_pattern. cbn [cat].
  rewrite step_lit. cbn [append].
  rewrite step_star_stop by reflexivity.
  apply step_opt_take. unfold colon. rewrite step_chr by reflexivity.
  apply step_star_take; [reflexivity|].
  rewrite step_star_stop by (rewrite Ev; exact (digit_not_space d Hd)).
  apply step_group_number; [exact Hv | exact Hrest | reflexivity].
Qed.

(** The pattern finds the value at its first occurrence of the header. *)
Lemma search_total_pattern l pre v rest :
  throughout (lit_fails l) pre (l ++ ": " ++ v ++ rest) ->
  decimal v -> ends_number rest ->
  search (total_pattern l) (pre ++ l ++ ": " ++ v ++ rest) = Some {| group1 := Some v |}.
Proof.
  intros Hpre Hv Hrest. rewrite search_skip.
  - apply search_here, match_total_pattern; assumption.
  - revert Hpre. apply throughout_impl. intros t Ht.
    unfold total_pattern. cbn [cat]. now apply lit_fails_match.
Qed.

End Search.

(** ** The score block *)

Module Block.
Import StrFacts CharFacts Numbers Search ReFacts Total DictFacts Categories.

Lemma nodup_keys_NoDup ks : nodup_keys ks = true -> NoDup ks.
Proof.
  induction ks as [|k ks IH]; simpl; [constructor|].
  intros H. apply andb_true_iff in H as [H1 H2]. constructor; [|auto].
  intros Hin. apply negb_true_iff in H1.
  assert (existsb (String.eqb k) ks = true); [|congruence].
  apply existsb_exists. exists k. split; [exact Hin | apply String.eqb_refl].
Qed.

Section Separated.
Variable ks : list string.
Hypothesis Hsep : separated ks = true.

Lemma separated_NoDup : NoDup ks.
Proof.
  unfold separated in Hsep. repeat (apply andb_true_iff in Hsep as [Hsep ?]).
  now apply nodup_keys_NoDup.
Qed.

Lemma separated_plain k : In k ks -> plain_head k = true.
Proof.
  unfold separated in Hsep. repeat (apply andb_true_iff in Hsep as [Hsep ?]).
  intros Hk. eapply forallb_forall in Hk; eauto.
Qed.

Lemma separated_absent k k' :
  In k ks -> In k' ks -> k <> k' -> absent k (k' ++ ": ") = true.
Proof.
  unfold separated in Hsep. repeat (apply andb_true_iff in Hsep as [Hsep ?]).
  intros Hk Hk' Hne.
  match goal with H : forallb (fun k => forallb (fun k' => _ || _) _) _ = true |- _ =>
    rename H into Hpairs end.
  eapply forallb_forall in Hpairs; [|exact Hk].
  eapply forallb_forall in Hpairs; [|exact Hk'].
  apply orb_true_iff in Hpairs as [Heq|Habs]; [|exact Habs].
  apply String.eqb_eq in Heq. contradiction.
Qed.

Lemma separated_stop k stop :
  In k ks -> In stop stop_words -> absent stop (k ++ ": ") = true.
Proof.
  unfold separated in Hsep. repeat (apply andb_true_iff in Hsep as [Hsep ?]).
  intros Hk Hstop.
  match goal with H : forallb (fun k => forallb (fun stop => absent _ _) _) _ = true |- _ =>
    rename H into Hstops end.
  eapply forallb_forall in Hstops; [|exact Hk].
  eapply forallb_forall in Hstops; [|exact Hstop]. exact Hstops.
Qed.

End Separated.

Lemma score_lines_app a b : score_lines (a ++ b)%list = score_lines a ++ score_lines b.
Proof.
  induction a as [|e a IH]; simpl; [reflexivity|].
  now rewrite IH, app_assoc.
Qed.

Lemma line_throughout l entry s :
  plain_head l = true -> absent l (fst entry ++ ": ") = true -> decimal (snd entry) ->
  throughout (lit_fails l) (score_line entry) s.
Proof.
  intros Hl Habs Hv. unfold score_line.
  replace (fst entry ++ ": " ++ snd entry ++ LF)
    with ((fst entry ++ ": ") ++ snd entry ++ LF) by now rewrite app_assoc.
  apply throughout_app; [now apply absent_throughout|].
  apply throughout_app.
  - apply numeric_throughout; [exact Hl | now apply decimal_numeric].
  - apply absent_throughout, plain_head_LF, Hl.
Qed.

Lemma lines_throughout l entries s :
  plain_head l = true ->
  (forall e, In e entries -> absent l (fst e ++ ": ") = true /\ decimal (snd e)) ->
  throughout (lit_fails l) (score_lines entries) s.
Proof.
  intros Hl. induction entries as [|e entries IH]; intros H; simpl; [exact I|].
  apply throughout_app.
  - apply line_throughout; [exact Hl | apply H; now left | apply H; now left].
  - apply IH. intros e' He'. apply H. now right.
Qed.

(** The first pattern of a category finds the value of its line. *)
Lemma search_line before k v after tail :
  plain_head k = true ->
  (forall e, In e before -> absent k (fst e ++ ": ") = true /\ decimal (snd e)) ->
  decimal v ->
  search (total_pattern k) (score_lines (before ++ (k, v) :: after) ++ tail)
  = Some {| group1 := Some v |}.
Proof.
  intros Hk Hbefore Hv.
  rewrite score_lines_app. cbn [score_lines]. unfold score_line at 1. cbn [fst snd].
  rewrite !app_assoc.
  apply search_total_pattern; [|exact Hv | reflexivity].
  apply lines_throughout; assumption.
Qed.

(** *** The scores section *)

Section Lazy.
Context {R : Type}.

Lemma star_lazy_skip (k : string -> option R) pre s :
  throughout (fun t => k t = None) pre s ->
  star_lazy (cmatch Any) k (pre ++ s) = star_lazy (cmatch Any) k s.
Proof.
  induction pre as [|a pre IH]; simpl; [reflexivity|].
  intros [H1 H2]. rewrite H1. auto.
Qed.

Lemma star_lazy_here p (k : string -> option R) s x :
  k s = Some x -> star_lazy p k s = Some x.
Proof. intros H. destruct s; simpl; now rewrite H. Qed.

End Lazy.

Lemma stops_fail {R} t g (k : string -> option string -> option R) :
  lit_fails "WEIGHTED TOTAL" t -> lit_fails "OVERALL" t -> lit_fails "TOTAL" t ->
  at_end t = false ->
  exec (Seq stops Eps) t g k = None.
Proof.
  unfold lit_fails, stops. intros H1 H2 H3 H4. cbn [exec]. now rewrite H1, H2, H3, H4.
Qed.

Lemma throughout_not_end pre a s :
  throughout (fun t => at_end t = false) pre (String a s).
Proof.
  induction pre as [|x pre IH]; simpl; [exact I|]. split; [|exact IH].
  destruct pre; reflexivity.
Qed.

Lemma step_star_back {R} c r a s g (k : string -> option string -> option R) :
  cmatch c a = true ->
  exec (Seq (Star c) r) s g k = None ->
  exec (Seq (Star c) r) (String a s) g k = exec r (String a s) g k.
Proof. cbn [exec star_greedy]. now intros -> ->. Qed.

Lemma step_lit_at {R} l r t s g (k : string -> option string -> option R) :
  lit_prefix l t = Some s -> exec (Seq (Lit l) r) t g k = exec r s g k.
Proof. cbn [exec]. now intros ->. Qed.

Lemma step_assoc {R} r1 r2 r s g (k : string -> option string -> option R) :
  exec (Seq (Seq r1 r2) r) s g k = exec (Seq r1 (Seq r2 r)) s g k.
Proof. reflexivity. Qed.

Lemma step_group_lazy {R} c r s g (k : string -> option string -> option R) :
  exec (Seq (Group (LazyStar c)) r) s g k
  = star_lazy (cmatch c) (fun s' => exec r s' (Some (consumed s s')) k) s.
Proof. reflexivity. Qed.

Lemma plain_not_LF a : Char.is_space a = false -> cmatch (Char Char.LF) a = false.
Proof. simpl. by_cases a. Qed.

Lemma plain_head_head k :
  plain_head k = true -> exists a k', k = String a k' /\ Char.is_space a = false.
Proof.
  destruct k as [|a k']; [discriminate|]. simpl. intros H.
  apply andb_true_iff in H as [_ H]. apply negb_true_iff in H. eauto.
Qed.

Section Entries.
Variable entries : list (string * string).
Variable total : string.
Hypothesis Hsep : separated (map fst entries) = true.
Hypothesis Hreported : forall e, In e entries -> reported (snd e).

Lemma value_decimal e : In e entries -> decimal (snd e).
Proof.
  intros He. destruct (Hreported e He) as (x & Hx & _).
  exact (py_float_decimal _ _ Hx).
Qed.

Let body : string := score_lines entries.
Let tail : string := "WEIGHTED TOTAL: " ++ total.

Lemma stop_throughout stop s :
  In stop stop_words -> throughout (lit_fails stop) body s.
Proof.
  intros Hstop. apply lines_throughout.
  - destruct Hstop as [<-|[<-|[<-|[]]]]; reflexivity.
  - intros e He. split; [|now apply value_decimal].
    apply (separated_stop _ Hsep); [now apply in_map | exact Hstop].
Qed.

(** The first character after the header line is not white space. *)
Lemma body_head : exists a t, body ++ tail = String a t /\ Char.is_space a = false.
Proof.
  subst body tail. destruct entries as [|[k v] es].
  - simpl. eexists _, _. split; reflexivity.
  - destruct (plain_head_head k) as (a & k' & -> & Ha).
    { apply (separated_plain _ Hsep). now left. }
    simpl. eauto.
Qed.

Lemma stops_throughout :
  throughout (fun t => exec (Seq stops Eps) t (Some (consumed (body ++ tail) t))
                         (fun _ g => Some {| group1 := g |}) = None)
             body tail.
Proof.
  pose proof (stop_throughout "WEIGHTED TOTAL" tail (or_introl eq_refl)) as H1.
  pose proof (stop_throughout "OVERALL" tail (or_intror (or_introl eq_refl))) as H2.
  pose proof (stop_throughout "TOTAL" tail (or_intror (or_intror (or_introl eq_refl)))) as H3.
  pose proof (throughout_not_end body "W" ("EIGHTED TOTAL: " ++ total)) as H4.
  pose proof (throughout_and _ _ _ _ H1 (throughout_and _ _ _ _ H2
                (throughout_and _ _ _ _ H3 H4))) as H.
  revert H. apply throughout_impl. intros t (F1 & F2 & F3 & F4).
  now apply stops_fail.
Qed.

Lemma section_match :
  match_here scores_section (score_block entries total)
  = Some {| group1 := Some body |}.
Proof.
  unfold match_here, scores_section, score_block. cbn [cat].
  fold body tail.
  destruct body_head as (a & t & Ebody & Ha).
  apply step_alt_left. rewrite step_assoc.
  rewrite (step_lit_at "SCORE" _ _ ("S:" ++ LF ++ body ++ tail)) by reflexivity.
  apply step_opt_take.
  rewrite (step_lit_at "S" _ _ (":" ++ LF ++ body ++ tail)) by reflexivity.
  unfold LF. cbn [append].
  rewrite step_star_stop by reflexivity.
  apply step_opt_take. unfold colon. rewrite step_chr by reflexivity.
  rewrite step_star_back; [|reflexivity|].
  - rewrite step_chr by reflexivity.
    rewrite step_group_lazy, star_lazy_skip by apply stops_throughout.
    apply star_lazy_here. rewrite consumed_app.
    unfold stops. apply step_alt_left.
    now rewrite (step_lit_at "WEIGHTED TOTAL" _ _ (": " ++ total)) by reflexivity.
  - rewrite Ebody. rewrite step_star_stop by exact Ha.
    cbn [exec]. now rewrite (plain_not_LF a Ha).
Qed.

Lemma score_text_of_block : score_text_of (score_block entries total) = Ok body.
Proof.
  unfold score_text_of. now rewrite (search_here _ _ _ section_match).
Qed.

Lemma accepted_line before k v after :
  entries = (before ++ (k, v) :: after)%list ->
  accepted (total_pattern k) body = Some (value_of v).
Proof.
  intros E.
  assert (Hin : In (k, v) entries) by (rewrite E; apply in_elt).
  destruct (Hreported _ Hin) as (x & Hx & Hrange). cbn [snd] in Hx.
  assert (Hs : search (total_pattern k) body = Some {| group1 := Some v |}).
  { subst body. rewrite E, <- (app_nil_r (score_lines _)).
    apply search_line.
    - apply (separated_plain _ Hsep). now apply (in_map fst) in Hin.
    - intros e He.
      assert (He' : In e entries) by (rewrite E; apply in_or_app; now left).
      split; [|now apply value_decimal].
      apply (separated_absent _ Hsep).
      + now apply (in_map fst) in Hin.
      + now apply in_map.
      + intros Heq. pose proof (separated_NoDup _ Hsep) as Hnd.
        rewrite E, map_app in Hnd. cbn [map fst] in Hnd.
        apply NoDup_remove_2 in Hnd. apply Hnd, in_or_app. left.
        rewrite Heq. now apply in_map.
    - apply (value_decimal _ Hin). }
  unfold accepted, float_of_group, value_of. rewrite Hs. cbn [group1].
  now rewrite Hx, Hrange.
Qed.

Lemma first_accepted_line e :
  In e entries -> first_accepted (combinations (fst e)) body = Some (value_of (snd e)).
Proof.
  intros He. destruct e as [k v]. cbn [fst snd].
  destruct (in_split _ _ He) as (before & after & E).
  change (combinations k) with (total_pattern k :: tl (combinations k)).
  cbn [first_accepted]. now rewrite (accepted_line before k v after E).
Qed.

Lemma found_entries : forall es,
  incl es entries ->
  found_scores (map fst es) body = map (fun e => (fst e, value_of (snd e))) es.
Proof.
  induction es as [|e es IH]; intros Hincl; [reflexivity|].
  unfold found_scores. cbn [map flat_map]. fold (found_scores (map fst es) body).
  rewrite first_accepted_line by (apply Hincl; now left).
  rewrite IH by (intros x Hx; apply Hincl; now right). reflexivity.
Qed.

Variable x : float.
Hypothesis Htotal : PyFloat.py_float total = Ok x.
Hypothesis Hrange : in_range x = true.

Lemma scanned_total_block : scanned_total (score_block entries total) = Ok x.
Proof.
  assert (Hs : search (total_pattern "WEIGHTED TOTAL") (score_block entries total)
               = Some {| group1 := Some total |}).
  { unfold score_block. fold body.
    replace ("SCORES:" ++ LF ++ body ++ "WEIGHTED TOTAL: " ++ total)
      with (("SCORES:" ++ LF ++ body) ++ "WEIGHTED TOTAL" ++ ": " ++ total ++ "")
      by (rewrite !app_assoc, app_nil_r; reflexivity).
    apply search_total_pattern.
    - replace ("SCORES:" ++ LF ++ body) with (("SCORES:" ++ LF) ++ body)
        by now rewrite app_assoc.
      apply throughout_app; [now apply absent_throughout|].
      apply stop_throughout. now left.
    - exact (py_float_decimal _ _ Htotal).
    - exact I. }
  unfold scanned_total, total_patterns. cbn [map for_total_patterns].
  rewrite Hs. unfold float_of_group. cbn [group1]. now rewrite Htotal, Hrange.
Qed.

End Entries.
Lemma mem_in {V} k (d : dict V) : In k (Dict.keys d) -> Dict.mem k d = true.
Proof.
  intros H. destruct (Dict.mem k d) eqn:E; [reflexivity|].
  apply mem_false_not_in in E. contradiction.
Qed.

Lemma keys_valued (entries : list (string * string)) :
  Dict.keys (map (fun e => (fst e, value_of (snd e))) entries) = map fst entries.
Proof. unfold Dict.keys. rewrite map_map. reflexivity. Qed.

(** The extractor on a well-formed score block with a non-zero total. *)
Lemma extract_block rubric entries total x :
  separated (Dict.keys rubric) = true ->
  map fst entries = Dict.keys rubric ->
  (forall e, In e entries -> reported (snd e)) ->
  PyFloat.py_float total = Ok x -> in_range x = true -> Float.truthy x = true ->
  extract_scores rubric (score_block entries total)
  = Ok (map (fun e => (fst e, value_of (snd e))) entries, x).
Proof.
  intros Hsep Hkeys Hrep Htotal Hrange Htruthy. rewrite <- Hkeys in Hsep.
  unfold extract_scores, category_scores.
  rewrite (score_text_of_block entries total Hsep Hrep). cbn [bind].
  rewrite for_keys_spec;
    [| rewrite <- Hkeys; now apply separated_NoDup | reflexivity].
  rewrite <- Hkeys, (found_entries entries Hsep Hrep entries (incl_refl _)).
  cbn [List.app].
  rewrite (scanned_total_block entries total Hsep Hrep x Htotal Hrange). cbn [bind].
  rewrite Htruthy. cbn [negb orb].
  assert (Hlen : Nat.ltb (List.length (map (fun e => (fst e, value_of (snd e))) entries))
                         (List.length rubric) = false).
  { apply Nat.ltb_ge. rewrite length_map.
    rewrite <- (length_map fst entries), Hkeys. unfold Dict.keys. now rewrite length_map. }
  rewrite Hlen. cbn [bind].
  rewrite fill_missing_complete; [reflexivity|].
  intros k Hk. apply mem_in. now rewrite keys_valued.
Qed.

End Block.

(** ** The total *)

Module Totals.
Import FloatFacts ReFacts Total DictFacts Categories.

Lemma py_float_nonneg text x : PyFloat.py_float text = Ok x -> Float.nonneg x = true.
Proof.
  unfold PyFloat.py_float.
  destruct (PyFloat.read_digits text 0 0) as [[n i] rest].
  destruct i; [discriminate|].
  destruct rest as [|dot frac].
  - intros [= <-]. apply of_decimal_nonneg.
  - destruct (Ascii.eqb dot "."); [|discriminate].
    destruct (PyFloat.read_digits frac n 0) as [[m k] rest'].
    destruct k; [discriminate|]. destruct rest'; [|discriminate].
    intros [= <-]. apply of_decimal_nonneg.
Qed.

Lemma float_of_group_nonneg m x : float_of_group m = Ok x -> Float.nonneg x = true.
Proof.
  unfold float_of_group. destruct (group1 m); [apply py_float_nonneg | discriminate].
Qed.

(** *** The scanned total *)

Lemma for_total_patterns_nonneg ps response : forall total total',
  Float.nonneg total = true ->
  for_total_patterns ps response total = Ok total' ->
  Float.nonneg total' = true.
Proof.
  induction ps as [|p ps IH]; intros total total' Hn; simpl.
  - now intros [= <-].
  - destruct (search p response) as [m|]; [|now apply IH].
    destruct (float_of_group m) as [val|e] eqn:Ef.
    + pose proof (float_of_group_nonneg m val Ef) as Hval.
      destruct (in_range val); [now intros [= <-] | now apply IH].
    + destruct (handled e); [now apply IH | discriminate].
Qed.

Lemma scanned_total_nonneg response total :
  scanned_total response = Ok total -> Float.nonneg total = true.
Proof. now apply for_total_patterns_nonneg. Qed.

Lemma for_total_patterns_none ps response total :
  forallb (fun p => match search p response with None => true | Some _ => false end) ps
  = true ->
  for_total_patterns ps response total = Ok total.
Proof.
  induction ps as [|p ps IH]; simpl; [reflexivity|].
  intros H. apply andb_true_iff in H as [H1 H2].
  destruct (search p response); [discriminate | auto].
Qed.

Lemma total_not_found response :
  total_found response = false -> scanned_total response = Ok Float.zero.
Proof.
  intros H. apply for_total_patterns_none. unfold total_found in H.
  induction total_patterns as [|p ps IH]; simpl in *; [reflexivity|].
  apply orb_false_iff in H as [H1 H2].
  destruct (search p response); [discriminate | auto].
Qed.

(** *** The stored scores are floats in the range *)

Lemma set_good key val scores : good val -> all_good scores -> all_good (Dict.set key val scores).
Proof.
  intros Hval. induction scores as [|[k' v'] d IH]; simpl; intros H.
  - constructor; [exact Hval | constructor].
  - inversion H as [|? ? Hv' Hd]; subst.
    destruct (String.eqb key k'); constructor; try assumption.
    apply IH, Hd.
Qed.

Lemma get_good key scores val : all_good scores -> Dict.get key scores = Some val -> good val.
Proof.
  induction scores as [|[k' v'] d IH]; simpl; [discriminate|].
  intros H. inversion H as [|? ? Hv' Hd]; subst.
  destruct (String.eqb key k'); [now intros [= <-] | auto].
Qed.

Lemma for_patterns_good key ps text : forall scores scores',
  all_good scores -> for_patterns key ps text scores = Ok scores' -> all_good scores'.
Proof.
  induction ps as [|p ps IH]; intros scores scores' Hg; simpl.
  - now intros [= <-].
  - destruct (search p text) as [m|]; [|now apply IH].
    destruct (float_of_group m) as [val|e] eqn:Ef.
    + destruct (in_range val) eqn:Er; [|now apply IH].
      intros [= <-]. apply set_good; [|exact Hg].
      split; [exact (float_of_group_nonneg m val Ef) | exact Er].
    + destruct (handled e); [now apply IH | discriminate].
Qed.

Lemma for_variations_good key vars text : forall scores scores',
  all_good scores -> for_variations key vars text scores = Ok scores' -> all_good scores'.
Proof.
  induction vars as [|v vars IH]; intros scores scores' Hg; cbn [for_variations].
  - now intros [= <-].
  - destruct (for_patterns key (patterns v) text scores) as [d|e] eqn:E; [|discriminate].
    cbn [bind]. pose proof (for_patterns_good _ _ _ _ _ Hg E) as Hd.
    destruct (Dict.mem key d); [now intros [= <-] | now apply IH].
Qed.

Lemma for_keys_good ks text : forall scores scores',
  all_good scores -> for_keys ks text scores = Ok scores' -> all_good scores'.
Proof.
  induction ks as [|k ks IH]; intros scores scores' Hg; cbn [for_keys].
  - now intros [= <-].
  - destruct (for_variations k (key_variations k) text scores) as [d|e] eqn:E; [|discriminate].
    cbn [bind]. apply IH. exact (for_variations_good _ _ _ _ _ Hg E).
Qed.

Lemma category_scores_good rubric response scores :
  category_scores rubric response = Ok scores -> all_good scores.
Proof.
  unfold category_scores. destruct (score_text_of response); [|discriminate].
  cbn [bind]. apply for_keys_good. constructor.
Qed.

(** *** The recomputed total *)

Lemma good_zero : good Float.zero.
Proof. split; reflexivity. Qed.

Lemma get_default_good key scores :
  all_good scores -> good (Dict.get_default key Float.zero scores).
Proof.
  intros Hg. unfold Dict.get_default.
  destruct (Dict.get key scores) eqn:E; [exact (get_good _ _ _ Hg E) | exact good_zero].
Qed.

Lemma weighted_sum_nonneg rubric scores ks : forall acc total,
  weights_ok rubric = true -> all_good scores -> Float.nonneg acc = true ->
  weighted_sum rubric ks scores acc = Ok total -> Float.nonneg total = true.
Proof.
  induction ks as [|k ks IH]; intros acc total Hw Hg Hacc; cbn [weighted_sum].
  - now intros [= <-].
  - unfold Dict.item. destruct (Dict.get k rubric) as [w|] eqn:Ew; [|discriminate].
    cbn [bind]. apply IH; [exact Hw | exact Hg |].
    apply add_nonneg; [exact Hacc|].
    assert (Hin : In (k, w) rubric).
    { clear -Ew. induction rubric as [|[k' w'] r IH]; simpl in *; [discriminate|].
      destruct (String.eqb k k') eqn:E; [|auto].
      apply String.eqb_eq in E. injection Ew as ->. subst. now left. }
    unfold weights_ok in Hw. eapply forallb_forall in Hw; [|exact Hin].
    cbn [snd] in Hw. apply andb_true_iff in Hw as [Hw1 Hw2].
    destruct (weight_shape w Hw1 Hw2) as (mw & ew & ->).
    destruct (get_default_good k scores Hg) as [Hn Hr].
    apply mul_nonneg; [exact Hn|].
    apply leb_hundred_not_inf; [exact Hn|].
    unfold in_range in Hr. now apply andb_true_iff in Hr as [_ Hr].
Qed.

Lemma calculated_total_nonneg rubric scores total :
  weights_ok rubric = true -> all_good scores ->
  calculated_total rubric scores = Ok total -> Float.nonneg total = true.
Proof. intros Hw Hg. now apply weighted_sum_nonneg. Qed.

Lemma weighted_sum_fill rubric ks' ks scores : forall acc,
  weighted_sum rubric ks (fill_missing ks' scores) acc = weighted_sum rubric ks scores acc.
Proof.
  induction ks as [|k ks IH]; intros acc; cbn [weighted_sum]; [reflexivity|].
  destruct (Dict.item k rubric); cbn [bind]; [|reflexivity].
  now rewrite get_default_fill_missing, IH.
Qed.

(** *** What [extract_scores] returns *)

Lemma extract_scores_inv rubric response scores total :
  extract_scores rubric response = Ok (scores, total) ->
  exists found scanned,
    category_scores rubric response = Ok found
    /\ scanned_total response = Ok scanned
    /\ scores = fill_missing (Dict.keys rubric) found
    /\ ((total = scanned)
        \/ ((Float.truthy scanned = false
             \/ List.length found < List.length rubric)
            /\ calculated_total rubric found = Ok total
            /\ Float.ltb Float.zero total = true)).
Proof.
  unfold extract_scores.
  destruct (category_scores rubric response) as [found|] eqn:Ec; [|discriminate].
  destruct (scanned_total response) as [scanned|] eqn:Es; [|discriminate].
  cbn [bind]. intros H. exists found, scanned.
  destruct (negb (Float.truthy scanned) || Nat.ltb _ _) eqn:Econd.
  - destruct (calculated_total rubric found) as [c|] eqn:Ecalc; [|discriminate].
    cbn [bind] in H. destruct (Float.ltb Float.zero c) eqn:Epos.
    + injection H as <- <-. repeat split; auto. right. repeat split; auto.
      apply orb_true_iff in Econd as [Hc|Hc].
      * left. now apply negb_true_iff in Hc.
      * right. now apply Nat.ltb_lt in Hc.
    + injection H as <- <-. repeat split; auto.
  - cbn [bind] in H. injection H as <- <-. repeat split; auto.
Qed.

Lemma extract_total_not_nan rubric response scores total :
  extract_scores rubric response = Ok (scores, total) -> Float.is_nan total = false.
Proof.
  intros H. apply extract_scores_inv in H
    as (found & scanned & _ & Hs & _ & [->|(_ & _ & Hpos)]).
  - apply nonneg_not_nan. exact (scanned_total_nonneg _ _ Hs).
  - exact (ltb_true_not_nan_r _ _ Hpos).
Qed.

Lemma total_of_not_nan rubric reply : Float.is_nan (total_of rubric reply) = false.
Proof.
  unfold total_of. destruct (extract_scores rubric reply) as [[scores total]|] eqn:E.
  - exact (extract_total_not_nan _ _ _ _ E).
  - reflexivity.
Qed.

End Totals.

(** ** The loop *)

Module Loop.
Import FloatFacts Total Totals.

Section Run.
Variable rubric : dict float.
Variable texts : prompts.
Variable cfg : config.
Variable w : world.
Variable reply : nat -> string.

Hypothesis target_positive : Float.ltb Float.zero (target_score cfg) = true.

Lemma extract_reply n :
  extract_scores rubric (reply n)
  = Ok (scores_of rubric (reply n), total_of rubric (reply n)).
Proof.
  unfold scores_of, total_of.
  destruct (extract_scores_ok rubric (reply n)) as (scores & total & ->). reflexivity.
Qed.

Lemma smooth_le n m : m <= n -> smooth rubric cfg w reply n -> smooth rubric cfg w reply m.
Proof. intros Hle H i Hi. apply H. lia. Qed.

Lemma overall_below n p :
  smooth rubric cfg w reply n ->
  Float.ltb (overall (state_after rubric w reply n p)) (target_score cfg) = true.
Proof.
  intros Hs. destruct n as [|n]; [exact target_positive|].
  cbn [state_after overall]. apply (Hs (S n)). lia.
Qed.

(** One more pass that goes through. *)
Lemma pass_smooth n p :
  smooth rubric cfg w reply (S n) ->
  exists p',
    pass rubric texts cfg w (state_after rubric w reply n p)
    = (state_after rubric w reply (S n) p', Next).
Proof.
  intros Hs. destruct (Hs (S n)) as (Hchat & Hwrite & Hbelow); [lia|].
  unfold pass. cbn [state_after requests prompt iteration files all_iterations].
  rewrite Hchat, extract_reply. unfold write. rewrite Hwrite.
  rewrite (ltb_true_leb_false _ _ Hbelow).
  eexists. unfold state_after, records, iteration_files.
  rewrite !seq_S, !map_app. cbn [map Nat.add]. reflexivity.
Qed.

Lemma run_smooth n :
  smooth rubric cfg w reply n -> n <= max_iterations cfg ->
  exists p, forall fuel,
    while_loop rubric texts cfg w (n + fuel) (initial_state texts)
    = while_loop rubric texts cfg w fuel (state_after rubric w reply n p).
Proof.
  induction n as [|n IH]; intros Hs Hle.
  - exists (initial_prompt texts). intros fuel. reflexivity.
  - destruct IH as [p IH]; [apply (smooth_le (S n)); [lia | exact Hs] | lia|].
    destruct (pass_smooth n p Hs) as [p' Hpass].
    exists p'. intros fuel.
    replace (S n + fuel) with (n + S fuel) by lia. rewrite IH.
    cbn [while_loop].
    rewrite (overall_below n p) by (apply (smooth_le (S n)); [lia | exact Hs]).
    cbn [state_after iteration] in *.
    replace (S n <=? max_iterations cfg)%nat with true by (symmetry; apply Nat.leb_le; lia).
    cbn [andb]. rewrite Hpass. reflexivity.
Qed.

(** After [n] passes that go through, pass [n + 1] ends the run when
    it does not reach the end of the block. *)
Lemma main_stops n :
  smooth rubric cfg w reply n -> S n <= max_iterations cfg ->
  exists p, forall st' e,
    pass rubric texts cfg w (state_after rubric w reply n p) = (st', e) ->
    e <> Next ->
    main rubric texts cfg w = Some (after_loop cfg w st' (exit_of e)).
Proof.
  intros Hs Hle. destruct (run_smooth n Hs) as [p Hrun]; [lia|].
  exists p. intros st' e Hpass Hne. unfold main.
  replace (max_iterations cfg) with (n + S (max_iterations cfg - S n)) at 1 by lia.
  rewrite Hrun. cbn [while_loop]. rewrite (overall_below n p Hs).
  cbn [state_after iteration].
  replace (S n <=? max_iterations cfg)%nat with true by (symmetry; apply Nat.leb_le; lia).
  cbn [andb]. fold (state_after rubric w reply n p). rewrite Hpass.
  destruct e as [| |e]; [contradiction | reflexivity | reflexivity].
Qed.

(** After [max_iterations] passes that go through, the condition of
    the loop is false. *)
Lemma main_exhausted :
  smooth rubric cfg w reply (max_iterations cfg) ->
  exists p,
    main rubric texts cfg w
    = Some (after_loop cfg w (state_after rubric w reply (max_iterations cfg) p)
                       ConditionFalse).
Proof.
  intros Hs. destruct (run_smooth _ Hs (le_n _)) as [p Hrun].
  exists p. unfold main.
  replace (max_iterations cfg) with (max_iterations cfg + 0) at 1 by lia.
  rewrite Hrun. cbn [while_loop]. cbn [state_after iteration].
  replace (S (max_iterations cfg) <=? max_iterations cfg)%nat with false
    by (symmetry; apply Nat.leb_gt; lia).
  now rewrite andb_false_r.
Qed.

(** *** The three ways pass [n + 1] can end the run *)

Lemma pass_reaches n p :
  (forall q, chat w (S n) q = Ok (reply (S n))) ->
  write_error w (iteration_json (S n)) = None ->
  Float.leb (target_score cfg) (total_of rubric (reply (S n))) = true ->
  pass rubric texts cfg w (state_after rubric w reply n p)
  = ({| iteration := S n;
        overall := total_of rubric (reply (S n));
        prompt := p;
        all_iterations := records rubric w reply (S n);
        files := iteration_files rubric w reply (S n);
        requests := S n |}, BreakTarget).
Proof.
  intros Hchat Hwrite Hreach.
  unfold pass. cbn [state_after requests prompt iteration files all_iterations].
  rewrite Hchat, extract_reply. unfold write. rewrite Hwrite, Hreach.
  unfold records, iteration_files.
  rewrite !seq_S, !map_app. cbn [map Nat.add]. reflexivity.
Qed.

Lemma pass_chat_raises n p e :
  (forall q, chat w (S n) q = Raise e) ->
  pass rubric texts cfg w (state_after rubric w reply n p)
  = ({| iteration := S n;
        overall := overall (state_after rubric w reply n p);
        prompt := p;
        all_iterations := records rubric w reply n;
        files := iteration_files rubric w reply n;
        requests := S n |}, Thrown e).
Proof.
  intros Hchat. unfold pass.
  cbn [state_after requests prompt iteration files all_iterations].
  now rewrite Hchat.
Qed.

Lemma pass_write_raises n p e :
  (forall q, chat w (S n) q = Ok (reply (S n))) ->
  write_error w (iteration_json (S n)) = Some e ->
  pass rubric texts cfg w (state_after rubric w reply n p)
  = ({| iteration := S n;
        overall := total_of rubric (reply (S n));
        prompt := p;
        all_iterations := records rubric w reply (S n);
        files := iteration_files rubric w reply n;
        requests := S n |}, Thrown e).
Proof.
  intros Hchat Hwrite. unfold pass.
  cbn [state_after requests prompt iteration files all_iterations].
  rewrite Hchat, extract_reply. unfold write. rewrite Hwrite.
  unfold records. rewrite !seq_S, !map_app. cbn [map Nat.add]. reflexivity.
Qed.

End Run.

(** *** The loop returns in every world *)

Section Returns.
Variable rubric : dict float.
Variable texts : prompts.
Variable cfg : config.
Variable w : world.

Lemma pass_requests st st' e :
  pass rubric texts cfg w st = (st', e) -> requests st' = S (requests st).
Proof.
  unfold pass. destruct (chat w (S (requests st)) (prompt st)) as [response|x].
  - destruct (extract_scores rubric response) as [[scores total]|x].
    + destruct (write w _ _ _) as [fs|x].
      * destruct (Float.leb (target_score cfg) total); now intros [= <- <-].
      * now intros [= <- <-].
    + now intros [= <- <-].
  - now intros [= <- <-].
Qed.

Lemma pass_next st st' :
  pass rubric texts cfg w st = (st', Next) -> iteration st' = S (iteration st).
Proof.
  unfold pass. destruct (chat w (S (requests st)) (prompt st)) as [response|x].
  - destruct (extract_scores rubric response) as [[scores total]|x].
    + destruct (write w _ _ _) as [fs|x].
      * destruct (Float.leb (target_score cfg) total); [discriminate | now intros [= <-]].
      * discriminate.
    + discriminate.
  - discriminate.
Qed.

(** With the request counter one behind the iteration counter and
    enough fuel for the iterations that remain, the loop returns and has
    sent at most [max_iterations] requests. *)
Lemma while_loop_returns fuel : forall st,
  iteration st = S (requests st) ->
  S (max_iterations cfg) <= fuel + iteration st ->
  iteration st <= S (max_iterations cfg) ->
  exists st' x,
    while_loop rubric texts cfg w fuel st = Some (st', x)
    /\ requests st' <= max_iterations cfg.
Proof.
  induction fuel as [|fuel IH]; intros st Hreq Hfuel Hcap; cbn [while_loop].
  - replace (iteration st <=? max_iterations cfg)%nat with false
      by (symmetry; apply Nat.leb_gt; lia).
    rewrite andb_false_r. exists st, ConditionFalse. split; [reflexivity | lia].
  - destruct (Float.ltb (overall st) (target_score cfg)
              && (iteration st <=? max_iterations cfg)%nat) eqn:Econd.
    + apply andb_true_iff in Econd as [_ Hle]. apply Nat.leb_le in Hle.
      destruct (pass rubric texts cfg w st) as [st' e] eqn:Epass.
      pose proof (pass_requests _ _ _ Epass) as Hreq'.
      destruct e as [| |e].
      * pose proof (pass_next _ _ Epass) as Hit.
        apply IH; [congruence | lia | lia].
      * exists st', TargetBreak. split; [reflexivity | lia].
      * eexists st', _. split; [reflexivity | lia].
    + exists st, ConditionFalse. split; [reflexivity | lia].
Qed.

Lemma main_returns :
  exists o,
    main rubric texts cfg w = Some o /\ requests (final o) <= max_iterations cfg.
Proof.
  unfold main.
  destruct (while_loop_returns (max_iterations cfg) (initial_state texts))
    as (st & x & -> & Hle); [reflexivity | cbn; lia | cbn; lia|].
  eexists. split; [reflexivity|].
  unfold after_loop. destruct x; try destruct (write w _ _ _); exact Hle.
Qed.

End Returns.

(** *** Files *)

Lemma written_summary_iterations rubric w reply n tail :
  written_summary (iteration_files rubric w reply n ++ tail)%list = written_summary tail.
Proof.
  unfold iteration_files. induction (seq 1 n) as [|i l IH]; [reflexivity|].
  cbn [map List.app written_summary]. exact IH.
Qed.

Lemma written_iterations_files rubric w reply n :
  written_iterations (iteration_files rubric w reply n) = seq 1 n.
Proof.
  unfold iteration_files. induction (seq 1 n) as [|i l IH]; [reflexivity|].
  cbn [map written_iterations]. now rewrite IH.
Qed.

Lemma written_iterations_app fs fs' :
  written_iterations (fs ++ fs')%list
  = (written_iterations fs ++ written_iterations fs')%list.
Proof.
  induction fs as [|[[i|] d] fs IH]; cbn [List.app written_iterations]; [reflexivity| |exact IH].
  now rewrite IH.
Qed.

End Loop.

(** * The properties of the specification *)

Module Claims.
Import FloatFacts ReFacts Total DictFacts Categories Numbers Search Block Totals Loop.

(** ** Helpers *)

Lemma found_all_length ks text :
  (forall k, In k ks -> first_accepted (combinations k) text <> None) ->
  List.length (found_scores ks text) = List.length ks.
Proof.
  induction ks as [|k ks IH]; intros H; [reflexivity|].
  unfold found_scores. cbn [flat_map]. fold (found_scores ks text).
  rewrite length_app, IH by (intros k' Hk'; apply H; now right).
  destruct (first_accepted (combinations k) text) eqn:E; [reflexivity|].
  exfalso. apply (H k); [now left | exact E].
Qed.

Lemma found_none ks text scores :
  (forall k, In k ks -> first_accepted (combinations k) text = None) ->
  for_keys ks text scores = Ok scores.
Proof.
  revert scores. induction ks as [|k ks IH]; intros scores H; [reflexivity|].
  cbn [for_keys].
  assert (Hv : forall vars sc,
            first_accepted (flat_map patterns vars) text = None ->
            for_variations k vars text sc = Ok sc).
  { induction vars as [|v vars IHv]; intros sc Hn; [reflexivity|].
    cbn [for_variations flat_map] in *. rewrite first_accepted_app in Hn.
    rewrite (for_patterns_spec k (patterns v) text sc (patterns_set_group v)).
    destruct (first_accepted (patterns v) text); [discriminate|].
    cbn [bind]. rewrite (IHv sc Hn). now destruct (Dict.mem k sc). }
  rewrite Hv by (apply H; now left). cbn [bind].
  apply IH. intros k' Hk'. apply H. now right.
Qed.

Lemma first_accepted_none ps text :
  forallb (fun p => match search p text with None => true | Some _ => false end) ps = true ->
  first_accepted ps text = None.
Proof.
  induction ps as [|p ps IH]; simpl; [reflexivity|].
  intros H. apply andb_true_iff in H as [H1 H2]. unfold accepted.
  destruct (search p text); [discriminate | auto].
Qed.

(** With nothing stored, the recomputed total is not positive. *)
Lemma weighted_sum_null rubric ks : forall acc total,
  null acc -> weighted_sum rubric ks [] acc = Ok total -> null total.
Proof.
  induction ks as [|k ks IH]; intros acc total Hacc; cbn [weighted_sum].
  - now intros [= <-].
  - destruct (Dict.item k rubric) as [w|]; [|discriminate]. cbn [bind].
    apply IH. unfold Dict.get_default. cbn [Dict.get].
    destruct acc as [[]|[]| |[] ? ?]; try contradiction;
      destruct w as [[]|[]| |[] ? ?]; exact I.
Qed.

Lemma null_not_positive x : null x -> Float.ltb Float.zero x = false.
Proof. destruct x as [[]|[]| |[] ? ?]; try contradiction; reflexivity. Qed.

Lemma extract_unrecognised rubric response :
  unrecognised rubric response = true ->
  extract_scores rubric response
  = Ok (fill_missing (Dict.keys rubric) [], Float.zero).
Proof.
  intros H. unfold unrecognised in H. apply andb_true_iff in H as [Hkeys Htotal].
  unfold extract_scores, category_scores.
  destruct (score_text_of_ok response) as [text Et]. rewrite Et in *. cbn [bind].
  rewrite found_none.
  - unfold scanned_total. rewrite (for_total_patterns_none _ _ _ Htotal). cbn [bind].
    change (negb (Float.truthy Float.zero)) with true. cbn [orb].
    destruct (calculated_total_ok rubric []) as [c Ec]. rewrite Ec. cbn [bind].
    rewrite (null_not_positive c); [reflexivity|].
    exact (weighted_sum_null rubric _ Float.zero c I Ec).
  - intros k Hk. apply first_accepted_none.
    eapply forallb_forall in Hkeys; [exact Hkeys | exact Hk].
Qed.

(** ** The extractor *)

Ltac reported_values :=
  let e := fresh "e" in let H := fresh "H" in
  intros e H; cbn [In] in H;
  repeat (destruct H as [<-|H]; [eexists; split; reflexivity|]); destruct H.

(** C1, as amended.  For a rubric whose category names are separated,
    the extractor returns on a score block (header, one line
    [<category>: <value>] per category in the order of the rubric with
    a value that passes the range test, and a line
    [WEIGHTED TOTAL: <t>] with [t] in the range and not zero) exactly
    the values given and the total given.  For the rubric [{A: 0.5,
    B: 0.5}] and the text of the example it returns
    [({A: 80, B: 70}, 75.0)]. *)
Theorem score_block_extracted :
  (forall rubric entries total x,
      separated (Dict.keys rubric) = true ->
      map fst entries = Dict.keys rubric ->
      (forall e, In e entries -> reported (snd e)) ->
      PyFloat.py_float total = Ok x -> in_range x = true -> Float.truthy x = true ->
      extract_scores rubric (score_block entries total)
      = Ok (map (fun e => (fst e, value_of (snd e))) entries, x))
  /\ extract_scores AB ("SCORES:" ++ LF ++ "A: 80" ++ LF ++ "B: 70" ++ LF
                        ++ "WEIGHTED TOTAL: 75")
     = Ok ([("A", Float.of_N 80); ("B", Float.of_N 70)], Float.of_N 75).
Proof.
  split; [exact extract_block|].
  change (extract_scores AB (block_AB "75") = Ok ([("A", value_of "80"); ("B", value_of "70")], value_of "75")).
  apply extract_block; try reflexivity. reported_values.
Qed.

(** The block the system prompt asks for, filled in for [RUBRIC]. *)
Lemma score_block_extracted_witness :
  separated (Dict.keys RUBRIC) = true
  /\ extract_scores RUBRIC block_RUBRIC
     = Ok ([ ("Project Definition", Float.of_N 85);
             ("Data Identification & Assessment", Float.of_N 90);
             ("Mathematical Modeling", Float.of_N 88);
             ("Risk Analysis", Float.of_N 92);
             ("Recommendations", Float.of_N 87);
             ("Communication & Clarity", Float.of_N 95) ],
           Float.of_decimal 885 1).
Proof.
  split; [reflexivity|].
  refine (proj1 score_block_extracted RUBRIC entries_RUBRIC "88.5" (Float.of_decimal 885 1)
                eq_refl eq_refl _ eq_refl eq_refl eq_refl).
  unfold entries_RUBRIC. reported_values.
Defined.

(** C1, counterexample.  The block of the example with the total [0]:
    every value and the total pass the range test, and the extractor
    returns 75, not the total given. *)
Lemma zero_total_replaced :
  (forall e, In e [("A", "80"); ("B", "70")] -> reported (snd e))
  /\ reported "0"
  /\ extract_scores AB (block_AB "0")
     = Ok ([("A", Float.of_N 80); ("B", Float.of_N 70)], Float.of_N 75)
  /\ Float.eqb (Float.of_N 75) (value_of "0") = false.
Proof.
  split; [reported_values|].
  split; [eexists; split; reflexivity|].
  split; reflexivity.
Qed.

(** C3, as amended.  The total is recomputed only when the scanned
    total is zero (no total was found, or the one found is 0) or fewer
    categories than the rubric has were stored, and the recomputed
    value replaces the scanned one only when it is positive; a scanned
    total that is not zero is returned unchanged whenever every
    category of the rubric had a value stored. *)
Theorem recomputation_rule rubric response :
  exists found scanned scores total,
    category_scores rubric response = Ok found
    /\ scanned_total response = Ok scanned
    /\ extract_scores rubric response = Ok (scores, total)
    /\ (total <> scanned ->
          (Float.truthy scanned = false \/ List.length found < List.length rubric)
          /\ calculated_total rubric found = Ok total
          /\ Float.ltb Float.zero total = true)
    /\ (Float.truthy scanned = true -> List.length found = List.length rubric ->
          total = scanned)
    /\ (NoDup (Dict.keys rubric) ->
          (forall key, In key (Dict.keys rubric) -> Dict.mem key found = true) ->
          List.length found = List.length rubric).
Proof.
  destruct (extract_scores_ok rubric response) as (scores & total & E).
  destruct (extract_scores_inv _ _ _ _ E) as (found & scanned & Ec & Es & _ & Hcases).
  exists found, scanned, scores, total.
  split; [exact Ec|]. split; [exact Es|]. split; [exact E|].
  split; [|split].
  - intros Hne. destruct Hcases as [->|Hre]; [contradiction | exact Hre].
  - intros Ht Hlen. destruct Hcases as [Hsame|([Hz|Hlt] & _)];
      [exact Hsame | congruence | lia].
  - intros Hnd Hall.
    destruct (category_scores_spec rubric response Hnd) as (text & _ & Ec').
    rewrite Ec in Ec'. injection Ec' as ->.
    rewrite found_all_length; [unfold Dict.keys; now rewrite length_map|].
    intros k Hk Hnone. specialize (Hall k Hk). unfold Dict.mem in Hall.
    rewrite (get_found _ text k Hk Hnd), Hnone in Hall. discriminate.
Qed.

(** C3, counterexample.  In the block of the example with the total
    [0] the scan finds a total, both categories have a value stored,
    and the total returned is not the one found. *)
Lemma found_total_replaced :
  total_found (block_AB "0") = true
  /\ scanned_total (block_AB "0") = Ok (value_of "0")
  /\ category_scores AB (block_AB "0")
     = Ok [("A", Float.of_N 80); ("B", Float.of_N 70)]
  /\ extract_scores AB (block_AB "0")
     = Ok ([("A", Float.of_N 80); ("B", Float.of_N 70)], Float.of_N 75)
  /\ Float.of_N 75 <> value_of "0".
Proof. repeat split; try reflexivity. discriminate. Qed.

(** C4, at the failing input.  The total scan reads the whole
    response; on [WEIGHTED TOTAL: 150] the value 150 fails the range
    test and is returned as the total all the same. *)
Theorem out_of_range_total_returned :
  in_range (Float.of_N 150) = false
  /\ extract_scores RUBRIC "WEIGHTED TOTAL: 150"
     = Ok (map (fun key => (key, Float.zero)) (Dict.keys RUBRIC), Float.of_N 150).
Proof. split; reflexivity. Qed.

(** In a rubric without repeated names, [RUBRIC[k]] is the weight
    written beside [k]. *)
Lemma item_of_entry (rubric : dict float) k w :
  NoDup (Dict.keys rubric) -> In (k, w) rubric -> Dict.item k rubric = Ok w.
Proof.
  unfold Dict.item. induction rubric as [|[k' w'] rubric IH]; [intros _ []|].
  cbn [Dict.keys map fst Dict.get]. intros Hnd Hin.
  inversion Hnd as [|? ? Hk' Hnd']; subst.
  destruct Hin as [[= -> ->]|Hin]; [now rewrite String.eqb_refl|].
  destruct (String.eqb k k') eqn:E; [|now apply IH].
  apply String.eqb_eq in E. subst k'. exfalso. apply Hk'.
  change k with (fst (k, w)). now apply in_map.
Qed.

(** The sum of the source is the sum of the products of the scores and
    the weights taken side by side. *)
Lemma weighted_sum_products (rubric : dict float) scores :
  NoDup (Dict.keys rubric) ->
  forall items acc,
    incl items rubric ->
    weighted_sum rubric (map fst items) scores acc
    = Ok (sum_of_products (map (fun kw => Dict.get_default (fst kw) Float.zero scores) items)
                          (map snd items) acc).
Proof.
  intros Hnd. induction items as [|[k w] items IH]; intros acc Hincl; [reflexivity|].
  cbn [map fst snd weighted_sum sum_of_products].
  rewrite (item_of_entry rubric k w Hnd) by (apply Hincl; now left).
  cbn [bind]. apply IH. intros x Hx. apply Hincl. now right.
Qed.

Lemma calculated_total_products (rubric : dict float) scores :
  NoDup (Dict.keys rubric) ->
  calculated_total rubric scores
  = Ok (weighted_total (map (fun k => Dict.get_default k Float.zero scores) (Dict.keys rubric))
                       (map snd rubric)).
Proof.
  intros Hnd. unfold calculated_total, weighted_total, Dict.keys.
  rewrite (weighted_sum_products rubric scores Hnd rubric Float.zero (incl_refl _)).
  now rewrite map_map.
Qed.

(** Every category found and no total matched: the scores found are
    returned with their weighted total. *)
Lemma recomputed_when_complete (rubric : dict float) response text :
  NoDup (Dict.keys rubric) -> weights_ok rubric = true ->
  total_found response = false ->
  score_text_of response = Ok text ->
  (forall key, In key (Dict.keys rubric) ->
     Dict.mem key (found_scores (Dict.keys rubric) text) = true) ->
  extract_scores rubric response
  = Ok (found_scores (Dict.keys rubric) text,
        weighted_total
          (map (fun k => Dict.get_default k Float.zero (found_scores (Dict.keys rubric) text))
               (Dict.keys rubric))
          (map snd rubric)).
Proof.
  intros Hnd Hw Hnone Htext Hall.
  assert (Ec : category_scores rubric response = Ok (found_scores (Dict.keys rubric) text)).
  { unfold category_scores. rewrite Htext. cbn [bind].
    rewrite for_keys_spec; [reflexivity | exact Hnd | reflexivity]. }
  unfold extract_scores. rewrite Ec, (total_not_found response Hnone). cbn [bind].
  change (negb (Float.truthy Float.zero)) with true. cbn [orb].
  pose proof (calculated_total_products rubric (found_scores (Dict.keys rubric) text) Hnd)
    as Ecalc.
  pose proof (calculated_total_nonneg rubric _ _ Hw (category_scores_good _ _ _ Ec) Ecalc)
    as Hc.
  rewrite Ecalc. cbn [bind]. rewrite (fill_missing_complete _ _ Hall).
  destruct (Float.ltb Float.zero _) eqn:Epos; [reflexivity|].
  now rewrite (ltb_zero_false _ Hc Epos).
Qed.

Lemma found_every ks text (value : string -> float) :
  (forall key, In key ks -> first_accepted (combinations key) text = Some (value key)) ->
  found_scores ks text = map (fun key => (key, value key)) ks.
Proof.
  induction ks as [|k ks IH]; intros H; [reflexivity|].
  unfold found_scores. cbn [flat_map map]. fold (found_scores ks text).
  rewrite (H k) by now left. rewrite IH by (intros k' Hk'; apply H; now right).
  reflexivity.
Qed.




Lemma existsb_eqb_in k ks : In k ks -> existsb (String.eqb k) ks = true.
Proof.
  intros H. apply existsb_exists. exists k. split; [exact H | apply String.eqb_refl].
Qed.

(** C6.  The value returned for a category is the value of the first
    combination of a name variant and a pattern whose match passes the
    range test, and 0 when there is none.  A match passes when its
    value lies in [0, 100], the bounds 0 and 100 included; a match
    that fails the test counts as no match and the combinations after
    it are tried. *)
Theorem category_values :
  (forall rubric response,
      NoDup (Dict.keys rubric) ->
      exists text scores total,
        score_text_of response = Ok text
        /\ extract_scores rubric response = Ok (scores, total)
        /\ forall key, In key (Dict.keys rubric) ->
             Dict.get key scores
             = Some (match first_accepted (combinations key) text with
                     | Some val => val
                     | None => Float.zero
                     end))
  /\ (forall p text m g x,
        search p text = Some m -> group1 m = Some g -> PyFloat.py_float g = Ok x ->
        accepted p text = if in_range x then Some x else None)
  /\ (forall pre p post text,
        (forall q, In q pre -> accepted q text = None) ->
        first_accepted (pre ++ p :: post)%list text
        = match accepted p text with
          | Some val => Some val
          | None => first_accepted post text
          end)
  /\ in_range (value_of "0") = true
  /\ in_range (value_of "100") = true
  /\ in_range (value_of "101") = false
  /\ category_scores AB ("A: 100" ++ LF ++ "B: 0")
     = Ok [("A", Float.of_N 100); ("B", Float.zero)]
  /\ category_scores AB ("A: 101" ++ LF ++ "B: -5") = Ok []
  /\ extract_scores AB ("A: 101" ++ LF ++ "B: -5")
     = Ok ([("A", Float.zero); ("B", Float.zero)], Float.zero).
Proof.
  split; [|split; [|split; [|repeat split; reflexivity]]].
  - intros rubric response Hnd.
    destruct (category_scores_spec rubric response Hnd) as (text & Et & Ec).
    destruct (extract_scores_ok rubric response) as (scores & total & E).
    exists text, scores, total. split; [exact Et|]. split; [exact E|].
    destruct (extract_scores_inv _ _ _ _ E) as (found & _ & Ec' & _ & -> & _).
    rewrite Ec in Ec'. injection Ec' as <-.
    intros key Hkey. rewrite get_fill_missing, (get_found _ text key Hkey Hnd).
    rewrite (existsb_eqb_in _ _ Hkey).
    now destruct (first_accepted (combinations key) text).
  - intros p text m g x Hs Hg Hx. unfold accepted, float_of_group.
    now rewrite Hs, Hg, Hx.
  - intros pre p post text Hpre. induction pre as [|q pre IH]; [reflexivity|].
    cbn [List.app first_accepted]. rewrite (Hpre q) by now left.
    apply IH. intros q' Hq'. apply Hpre. now right.
Qed.

(** [RUBRIC] and its score block. *)
Lemma category_values_witness :
  NoDup (Dict.keys RUBRIC)
  /\ exists text scores total,
       score_text_of block_RUBRIC = Ok text
       /\ extract_scores RUBRIC block_RUBRIC = Ok (scores, total)
       /\ forall key, In key (Dict.keys RUBRIC) ->
            Dict.get key scores
            = Some (match first_accepted (combinations key) text with
                    | Some val => val
                    | None => Float.zero
                    end).
Proof.
  assert (Hnd : NoDup (Dict.keys RUBRIC)) by (apply nodup_keys_NoDup; reflexivity).
  split; [exact Hnd|].
  exact (proj1 category_values RUBRIC block_RUBRIC Hnd).
Defined.

(** C7.  The extractor returns a result for every rubric and every
    text, and when none of its patterns matches, every category of
    the rubric is 0 and the total is 0. *)
Theorem nothing_recognised :
  (forall rubric response,
      exists scores total, extract_scores rubric response = Ok (scores, total))
  /\ (forall rubric response,
        unrecognised rubric response = true ->
        exists scores,
          extract_scores rubric response = Ok (scores, Float.zero)
          /\ forall key, In key (Dict.keys rubric) -> Dict.get key scores = Some Float.zero).
Proof.
  split; [exact extract_scores_ok|].
  intros rubric response H. eexists. split; [exact (extract_unrecognised _ _ H)|].
  intros key Hkey. rewrite get_fill_missing. cbn [Dict.get].
  now rewrite (existsb_eqb_in _ _ Hkey).
Qed.

(** [RUBRIC] and a reply without scores. *)
Lemma nothing_recognised_witness :
  unrecognised RUBRIC "The report is attached." = true
  /\ exists scores,
       extract_scores RUBRIC "The report is attached." = Ok (scores, Float.zero)
       /\ forall key, In key (Dict.keys RUBRIC) -> Dict.get key scores = Some Float.zero.
Proof.
  split; [reflexivity|].
  exact (proj2 nothing_recognised RUBRIC "The report is attached." eq_refl).
Defined.

(** ** The loop *)

Lemma first_reaching (P : nat -> bool) n :
  (forall i, 1 <= i <= n -> P i = false)
  \/ (exists j, 1 <= j <= n /\ P j = true /\ forall i, 1 <= i < j -> P i = false).
Proof.
  induction n as [|n [IH|(j & Hj & HP & Hmin)]].
  - left. intros i Hi. lia.
  - destruct (P (S n)) eqn:E.
    + right. exists (S n). split; [lia|]. split; [exact E|].
      intros i Hi. apply IH. lia.
    + left. intros i Hi. destruct (Nat.eq_dec i (S n)) as [->|Hne]; [exact E|].
      apply IH. lia.
  - right. exists j. split; [lia|]. split; [exact HP | exact Hmin].
Qed.

Lemma scripted_smooth rubric cfg reply clk n :
  Float.ltb Float.zero (target_score cfg) = true ->
  (forall i, 1 <= i <= n ->
     Float.leb (target_score cfg) (total_of rubric (reply i)) = false) ->
  smooth rubric cfg (scripted reply clk) reply n.
Proof.
  intros Ht H i Hi. split; [reflexivity|]. split; [reflexivity|].
  rewrite ltb_negb_leb, (H i Hi); [reflexivity | apply total_of_not_nan |].
  exact (ltb_true_not_nan_r _ _ Ht).
Qed.

Arguments records : simpl never.
Arguments iteration_files : simpl never.

Lemma length_records rubric w reply n : List.length (records rubric w reply n) = n.
Proof. unfold records. now rewrite length_map, length_seq. Qed.

(** C2.  In every world [main] returns after at most [max_iterations]
    requests.  With replies fixed in advance and a positive target, it
    makes one pass per request; it ends in TARGET_REACHED
    when the total of some pass up to the cap reaches the target, and
    in MAX_ITERATIONS_EXHAUSTED after [max_iterations] passes when
    none does.  With target 96, cap 3 and totals 40, 70, 96 it stops
    after pass 3 with the target reached; with cap 2 and totals 40, 70
    it stops after pass 2 without. *)
Theorem loop_terminates :
  (forall rubric texts cfg w,
      exists o,
        main rubric texts cfg w = Some o /\ requests (final o) <= max_iterations cfg)
  /\ (forall rubric texts cfg reply clk,
      Float.ltb Float.zero (target_score cfg) = true ->
      exists o,
        main rubric texts cfg (scripted reply clk) = Some o
        /\ raised o = None
        /\ requests (final o) <= max_iterations cfg
        /\ List.length (all_iterations (final o)) = requests (final o)
        /\ ((exists j, 1 <= j <= max_iterations cfg
                      /\ Float.leb (target_score cfg) (total_of rubric (reply j)) = true) ->
            terminal_of cfg o = TARGET_REACHED
            /\ 1 <= requests (final o)
            /\ Float.leb (target_score cfg)
                         (total_of rubric (reply (requests (final o)))) = true)
        /\ ((forall j, 1 <= j <= max_iterations cfg ->
                      Float.leb (target_score cfg) (total_of rubric (reply j)) = false) ->
            terminal_of cfg o = MAX_ITERATIONS_EXHAUSTED
            /\ requests (final o) = max_iterations cfg))
  /\ map (total_of RUBRIC) totals_40_70_96 = [Float.of_N 40; Float.of_N 70; Float.of_N 96]
  /\ observed (config_of 96 3)
              (main RUBRIC plain_texts (config_of 96 3)
                    (scripted (nth_reply totals_40_70_96) (fun _ => "")))
     = Some (TARGET_REACHED, 3, 3)
  /\ observed (config_of 96 2)
              (main RUBRIC plain_texts (config_of 96 2)
                    (scripted (nth_reply totals_40_70) (fun _ => "")))
     = Some (MAX_ITERATIONS_EXHAUSTED, 2, 2).
Proof.
  split; [exact main_returns|].
  split; [|repeat split; reflexivity].
  intros rubric texts cfg reply clk Ht.
  set (w := scripted reply clk).
  destruct (first_reaching
              (fun j => Float.leb (target_score cfg) (total_of rubric (reply j)))
              (max_iterations cfg)) as [Hnone|(j & Hj & Hreach & Hmin)].
  - pose proof (scripted_smooth rubric cfg reply clk _ Ht Hnone) as Hs.
    destruct (main_exhausted rubric texts cfg w reply Ht Hs) as [p Hmain].
    eexists. split; [exact Hmain|]. cbn.
    split; [reflexivity|]. split; [lia|]. split; [apply length_records|].
    split.
    + intros (j & Hj & Hreach). rewrite (Hnone j Hj) in Hreach. discriminate.
    + intros _. split; [|reflexivity]. unfold terminal_of. cbn.
      destruct (max_iterations cfg) as [|m] eqn:Em.
      * now rewrite (ltb_true_leb_false _ _ Ht).
      * rewrite Hnone by lia. reflexivity.
  - destruct j as [|n]; [lia|].
    assert (Hs : smooth rubric cfg w reply n).
    { apply scripted_smooth; [exact Ht|]. intros i Hi. apply Hmin. lia. }
    destruct (main_stops rubric texts cfg w reply Ht n Hs) as [p Hmain]; [lia|].
    specialize (Hmain _ _ (pass_reaches rubric texts cfg w reply n p
                             (fun _ => eq_refl) eq_refl Hreach)).
    eexists. split; [apply Hmain; discriminate|]. cbn.
    split; [reflexivity|]. split; [lia|]. split; [apply length_records|].
    split.
    + intros _. split; [reflexivity|]. split; [lia | exact Hreach].
    + intros Hnone. rewrite (Hnone (S n)) in Hreach by lia. discriminate.
Qed.

(** The constants of the source and the replies of the first scenario. *)
Lemma loop_terminates_witness :
  Float.ltb Float.zero (target_score source_config) = true
  /\ exists o,
       main RUBRIC plain_texts source_config
            (scripted (nth_reply totals_40_70_96) (fun _ => "")) = Some o
       /\ raised o = None
       /\ requests (final o) <= max_iterations source_config.
Proof.
  split; [reflexivity|].
  destruct (proj1 (proj2 loop_terminates) RUBRIC plain_texts source_config
                  (nth_reply totals_40_70_96) (fun _ => "") eq_refl)
    as (o & Hmain & Hraised & Hle & _).
  exists o. split; [exact Hmain|]. split; [exact Hraised | exact Hle].
Defined.

(** C8, as amended.  When the request of pass [n + 1] fails, no record
    is appended for that pass and no further request is made.  When
    the failure is an [Exception], the loop is left and the history of
    the [n] passes before is written as the summary; a keyboard
    interrupt is not caught, [main] ends with it and no summary is
    written. *)
Theorem failed_request rubric texts cfg w reply n e :
  Float.ltb Float.zero (target_score cfg) = true ->
  smooth rubric cfg w reply n ->
  S n <= max_iterations cfg ->
  (forall q, chat w (S n) q = Raise e) ->
  exists o,
    main rubric texts cfg w = Some o
    /\ requests (final o) = S n
    /\ all_iterations (final o) = records rubric w reply n
    /\ (is_Exception e = true -> write_error w summary_json = None ->
          raised o = None
          /\ exists s, written_summary (files (final o)) = Some s
                       /\ iterations s = records rubric w reply n)
    /\ (is_Exception e = false ->
          raised o = Some e /\ written_summary (files (final o)) = None).
Proof.
  intros Ht Hs Hle Hchat.
  destruct (main_stops rubric texts cfg w reply Ht n Hs Hle) as [p Hmain].
  specialize (Hmain _ _ (pass_chat_raises rubric texts cfg w reply n p e Hchat)).
  eexists. split; [apply Hmain; discriminate|].
  unfold after_loop, exit_of, write.
  destruct (is_Exception e) eqn:He.
  - destruct (write_error w summary_json) eqn:Ew; cbn.
    + split; [reflexivity|]. split; [reflexivity|]. split; [discriminate|discriminate].
    + split; [reflexivity|]. split; [reflexivity|]. split; [|discriminate].
      intros _ _. split; [reflexivity|]. eexists.
      split; [rewrite written_summary_iterations; reflexivity | reflexivity].
  - cbn. split; [reflexivity|]. split; [reflexivity|]. split; [discriminate|].
    intros _. split; [reflexivity|].
    rewrite <- (List.app_nil_r (iteration_files rubric w reply n)).
    now rewrite written_summary_iterations.
Qed.

Ltac smooth_one :=
  let i := fresh "i" in let Hi := fresh "Hi" in
  intros i Hi; assert (i = 1) as -> by lia;
  split; [reflexivity|]; split; reflexivity.

(** One pass with total 40, then a request that fails with an API error. *)
Lemma failed_request_witness :
  smooth RUBRIC source_config (answering ["WEIGHTED TOTAL: 40"] APIError)
         (nth_reply ["WEIGHTED TOTAL: 40"]) 1
  /\ exists o,
       main RUBRIC plain_texts source_config (answering ["WEIGHTED TOTAL: 40"] APIError)
       = Some o
       /\ requests (final o) = 2
       /\ List.length (all_iterations (final o)) = 1
       /\ raised o = None
       /\ exists s, written_summary (files (final o)) = Some s
                    /\ List.length (iterations s) = 1.
Proof.
  assert (Hs : smooth RUBRIC source_config (answering ["WEIGHTED TOTAL: 40"] APIError)
                      (nth_reply ["WEIGHTED TOTAL: 40"]) 1) by smooth_one.
  split; [exact Hs|].
  destruct (failed_request RUBRIC plain_texts source_config
              (answering ["WEIGHTED TOTAL: 40"] APIError)
              (nth_reply ["WEIGHTED TOTAL: 40"]) 1 APIError eq_refl Hs)
    as (o & Hmain & Hreq & Hhist & Hcaught & _); [cbn; lia | reflexivity|].
  destruct (Hcaught eq_refl eq_refl) as (Hraised & s & Hsum & Hits).
  exists o. split; [exact Hmain|]. split; [exact Hreq|].
  split; [rewrite Hhist; reflexivity|]. split; [exact Hraised|].
  exists s. split; [exact Hsum | rewrite Hits; reflexivity].
Defined.

(** C8, counterexample.  The first request is aborted by a keyboard
    interrupt: [main] ends with the interrupt and writes no summary. *)
Lemma interrupt_leaves_no_summary :
  exists o,
    main RUBRIC plain_texts source_config (answering [] KeyboardInterrupt) = Some o
    /\ raised o = Some KeyboardInterrupt
    /\ requests (final o) = 1
    /\ all_iterations (final o) = []
    /\ written_summary (files (final o)) = None.
Proof. eexists. split; [reflexivity|]. repeat split. Qed.

(** C9, at the failing input.  Target 96, cap 3 and totals 40, 70, 96:
    the loop is left in pass 3 with the target reached and three
    records in the history, and the summary gives 2 as the number of
    iterations. *)
Theorem iteration_count_on_success :
  exists o s,
    main RUBRIC plain_texts (config_of 96 3)
         (scripted (nth_reply totals_40_70_96) (fun _ => "")) = Some o
    /\ terminal_of (config_of 96 3) o = TARGET_REACHED
    /\ requests (final o) = 3
    /\ written_summary (files (final o)) = Some s
    /\ List.length (iterations s) = 3
    /\ total_iterations s = 2.
Proof.
  eexists. eexists. split; [vm_compute; reflexivity|].
  repeat split; vm_compute; reflexivity.
Qed.

(** C10.  When the request and the extraction of pass [n + 1] succeed
    and writing its file raises an [Exception], the loop is left; the
    record of the pass was appended before the write, so the summary
    lists it although its own file was not written. *)
Theorem unwritten_record_in_summary rubric texts cfg w reply n e :
  Float.ltb Float.zero (target_score cfg) = true ->
  smooth rubric cfg w reply n ->
  S n <= max_iterations cfg ->
  (forall q, chat w (S n) q = Ok (reply (S n))) ->
  write_error w (iteration_json (S n)) = Some e ->
  is_Exception e = true ->
  write_error w summary_json = None ->
  exists o s,
    main rubric texts cfg w = Some o
    /\ exit o = ExceptBreak e
    /\ requests (final o) = S n
    /\ written_summary (files (final o)) = Some s
    /\ iterations s = records rubric w reply (S n)
    /\ In (record_of rubric w reply (S n)) (iterations s)
    /\ written_iterations (files (final o)) = seq 1 n
    /\ ~ In (S n) (written_iterations (files (final o))).
Proof.
  intros Ht Hs Hle Hchat Hwrite He Hsummary.
  destruct (main_stops rubric texts cfg w reply Ht n Hs Hle) as [p Hmain].
  specialize (Hmain _ _ (pass_write_raises rubric texts cfg w reply n p e Hchat Hwrite)).
  eexists. eexists. split; [apply Hmain; discriminate|].
  unfold after_loop, exit_of, write. rewrite He, Hsummary. cbn.
  split; [reflexivity|]. split; [reflexivity|].
  split; [rewrite written_summary_iterations; reflexivity|].
  cbn [iterations].
  split; [reflexivity|].
  split; [unfold records; rewrite seq_S, map_app; apply in_elt|].
  rewrite written_iterations_app, written_iterations_files. cbn [written_iterations].
  rewrite List.app_nil_r. split; [reflexivity|].
  rewrite in_seq. lia.
Qed.

(** One pass with total 40, then a pass with total 70 whose file cannot
    be written. *)
Lemma unwritten_record_in_summary_witness :
  smooth RUBRIC source_config (failing_write totals_40_70 APIError 2 OSError)
         (nth_reply totals_40_70) 1
  /\ write_error (failing_write totals_40_70 APIError 2 OSError) (iteration_json 2)
     = Some OSError
  /\ exists o s,
       main RUBRIC plain_texts source_config (failing_write totals_40_70 APIError 2 OSError)
       = Some o
       /\ exit o = ExceptBreak OSError
       /\ written_summary (files (final o)) = Some s
       /\ List.length (iterations s) = 2
       /\ written_iterations (files (final o)) = [1].
Proof.
  assert (Hs : smooth RUBRIC source_config (failing_write totals_40_70 APIError 2 OSError)
                      (nth_reply totals_40_70) 1) by smooth_one.
  split; [exact Hs|]. split; [reflexivity|].
  destruct (unwritten_record_in_summary RUBRIC plain_texts source_config
              (failing_write totals_40_70 APIError 2 OSError)
              (nth_reply totals_40_70) 1 OSError eq_refl Hs)
    as (o & s & Hmain & Hexit & _ & Hsum & Hits & _ & Hfiles & _);
    [cbn; lia | reflexivity | reflexivity | reflexivity | reflexivity|].
  exists o, s. split; [exact Hmain|]. split; [exact Hexit|]. split; [exact Hsum|].
  split; [rewrite Hits; reflexivity | exact Hfiles].
Defined.

End Claims.

(** * Further properties of the extractor and of the loop *)

(** ** The case of letters *)

Module LetterCase.
Import StrFacts CharFacts ReFacts.

Lemma lower_lower a : Char.lower (Char.lower a) = Char.lower a.
Proof. by_cases a. Qed.

Lemma eq_ci_lower_r a b : Char.eq_ci a (Char.lower b) = Char.eq_ci a b.
Proof. unfold Char.eq_ci. now rewrite lower_lower. Qed.

Lemma eq_ci_lower_l a b : Char.eq_ci (Char.lower a) b = Char.eq_ci a b.
Proof. unfold Char.eq_ci. now rewrite lower_lower. Qed.

Lemma is_space_lower a : Char.is_space (Char.lower a) = Char.is_space a.
Proof. by_cases a. Qed.

Lemma is_digit_lower a : Char.is_digit (Char.lower a) = Char.is_digit a.
Proof. by_cases a. Qed.

Lemma is_LF_lower a : Ascii.eqb (Char.lower a) Char.LF = Ascii.eqb a Char.LF.
Proof. by_cases a. Qed.

Lemma is_point_lower a : Ascii.eqb (Char.lower a) "." = Ascii.eqb a ".".
Proof. by_cases a. Qed.

Lemma cmatch_lower c a : cmatch c (Char.lower a) = cmatch c a.
Proof.
  destruct c; simpl; [apply is_space_lower | apply is_digit_lower | reflexivity
                     | apply eq_ci_lower_r].
Qed.

Lemma lit_prefix_lower l : forall s,
  lit_prefix l (Str.lower s) = option_map Str.lower (lit_prefix l s).
Proof.
  induction l as [|a l IH]; intros [|b s]; simpl; try reflexivity.
  rewrite eq_ci_lower_r. destruct (Char.eq_ci a b); [apply IH | reflexivity].
Qed.

Lemma lit_prefix_lower_l l : forall s, lit_prefix (Str.lower l) s = lit_prefix l s.
Proof.
  induction l as [|a l IH]; intros [|b s]; simpl; try reflexivity.
  rewrite eq_ci_lower_l. destruct (Char.eq_ci a b); [apply IH | reflexivity].
Qed.

Lemma length_lower s : String.length (Str.lower s) = String.length s.
Proof. induction s as [|a s IH]; simpl; [reflexivity | now rewrite IH]. Qed.

Lemma take_lower n : forall s, Str.take n (Str.lower s) = Str.lower (Str.take n s).
Proof. induction n as [|n IH]; intros [|a s]; simpl; try reflexivity. now rewrite IH. Qed.

Lemma consumed_lower s s' :
  consumed (Str.lower s) (Str.lower s') = Str.lower (consumed s s').
Proof. unfold consumed. now rewrite !length_lower, take_lower. Qed.

Lemma at_end_lower s : at_end (Str.lower s) = at_end s.
Proof. destruct s as [|a [|b s]]; simpl; [reflexivity | apply is_LF_lower | reflexivity]. Qed.

Section Fold.
Context {R : Type}.

Lemma star_greedy_lower c (k k' : string -> option R) :
  (forall s, k' (Str.lower s) = k s) ->
  forall s, star_greedy (cmatch c) k' (Str.lower s) = star_greedy (cmatch c) k s.
Proof.
  intros Hk. induction s as [|a s IH]; simpl; [apply (Hk "")|].
  pose proof (Hk (String a s)) as Ha. simpl in Ha.
  now rewrite cmatch_lower, IH, Ha.
Qed.

Lemma star_lazy_lower c (k k' : string -> option R) :
  (forall s, k' (Str.lower s) = k s) ->
  forall s, star_lazy (cmatch c) k' (Str.lower s) = star_lazy (cmatch c) k s.
Proof.
  intros Hk. induction s as [|a s IH]; simpl.
  - pose proof (Hk "") as H0. simpl in H0. now rewrite H0.
  - pose proof (Hk (String a s)) as Ha. simpl in Ha.
    now rewrite Ha, cmatch_lower, IH.
Qed.

(** Matching the lower-cased text takes the same path; the group holds
    the lower-cased capture. *)
Lemma exec_lower r : forall s g (k k' : string -> option string -> option R),
  (forall s' g', k' (Str.lower s') (option_map Str.lower g') = k s' g') ->
  exec r (Str.lower s) (option_map Str.lower g) k' = exec r s g k.
Proof.
  induction r as [|c|l|r1 IH1 r2 IH2|r1 IH1 r2 IH2|c|c|r IH|]; intros s g k k' Hk;
    cbn [exec].
  - apply Hk.
  - destruct s as [|a s]; simpl; [reflexivity|].
    rewrite cmatch_lower. destruct (cmatch c a); [apply Hk | reflexivity].
  - rewrite lit_prefix_lower. destruct (lit_prefix l s); simpl; [apply Hk | reflexivity].
  - apply IH1. intros s' g'. apply IH2, Hk.
  - rewrite (IH1 s g k k' Hk), (IH2 s g k k' Hk). reflexivity.
  - apply star_greedy_lower. intros s'. apply Hk.
  - apply star_lazy_lower. intros s'. apply Hk.
  - apply IH. intros s' g'. rewrite consumed_lower.
    exact (Hk s' (Some (consumed s s'))).
  - rewrite at_end_lower. destruct (at_end s); [apply Hk | reflexivity].
Qed.

End Fold.

Section Map.
Context {A B : Type}.
Variable f : A -> B.

Lemma star_greedy_map p (k : string -> option A) s :
  star_greedy p (fun s' => option_map f (k s')) s = option_map f (star_greedy p k s).
Proof.
  induction s as [|a s IH]; simpl; [reflexivity|].
  destruct (p a); [|reflexivity]. rewrite IH.
  destruct (star_greedy p k s); reflexivity.
Qed.

Lemma star_lazy_map p (k : string -> option A) s :
  star_lazy p (fun s' => option_map f (k s')) s = option_map f (star_lazy p k s).
Proof.
  induction s as [|a s IH]; simpl.
  - destruct (k ""); reflexivity.
  - destruct (k (String a s)); simpl; [reflexivity|].
    destruct (p a); [exact IH | reflexivity].
Qed.

Lemma exec_ext r : forall s g (k k' : string -> option string -> option A),
  (forall s' g', k s' g' = k' s' g') -> exec r s g k = exec r s g k'.
Proof.
  induction r as [|c|l|r1 IH1 r2 IH2|r1 IH1 r2 IH2|c|c|r IH|]; intros s g k k' Hk;
    cbn [exec].
  - apply Hk.
  - destruct s as [|a s]; [reflexivity|]. destruct (cmatch c a); [apply Hk | reflexivity].
  - destruct (lit_prefix l s); [apply Hk | reflexivity].
  - apply IH1. intros s' g'. apply IH2, Hk.
  - rewrite (IH1 s g k k' Hk), (IH2 s g k k' Hk). reflexivity.
  - induction s as [|a s IHs]; simpl; [apply Hk|].
    rewrite IHs, (Hk (String a s)). reflexivity.
  - induction s as [|a s IHs]; simpl.
    + now rewrite (Hk "").
    + now rewrite (Hk (String a s)), IHs.
  - apply IH. intros s' g'. apply Hk.
  - destruct (at_end s); [apply Hk | reflexivity].
Qed.

End Map.

Lemma exec_map {A B} (f : A -> B) r : forall s g (k : string -> option string -> option A),
  exec r s g (fun s' g' => option_map f (k s' g')) = option_map f (exec r s g k).
Proof.
  induction r as [|c|l|r1 IH1 r2 IH2|r1 IH1 r2 IH2|c|c|r IH|]; intros s g k; cbn [exec].
  - reflexivity.
  - destruct s as [|a s]; [reflexivity|]. destruct (cmatch c a); reflexivity.
  - destruct (lit_prefix l s); reflexivity.
  - rewrite <- IH1. apply exec_ext. intros s' g'. apply IH2.
  - rewrite IH1, IH2. destruct (exec r1 s g k); reflexivity.
  - apply (star_greedy_map f).
  - apply (star_lazy_map f).
  - apply (IH s g (fun s' _ => k s' (Some (consumed s s')))).
  - destruct (at_end s); reflexivity.
Qed.

Lemma match_here_lower r s :
  match_here r (Str.lower s)
  = option_map (fun m => {| group1 := option_map Str.lower (group1 m) |}) (match_here r s).
Proof.
  unfold match_here. rewrite <- exec_map.
  exact (exec_lower r s None _ _ (fun _ _ => eq_refl)).
Qed.

Lemma search_lower r s :
  search r (Str.lower s)
  = option_map (fun m => {| group1 := option_map Str.lower (group1 m) |}) (search r s).
Proof.
  induction s as [|a s IH].
  - pose proof (match_here_lower r "") as H0. cbn [Str.lower] in H0.
    cbn [Str.lower search]. destruct (match_here r ""); [exact H0 | reflexivity].
  - pose proof (match_here_lower r (String a s)) as Ha. cbn [Str.lower] in Ha.
    cbn [Str.lower search]. rewrite Ha.
    destruct (match_here r (String a s)); [reflexivity | exact IH].
Qed.

Lemma read_digits_lower s : forall acc c,
  PyFloat.read_digits (Str.lower s) acc c
  = let '(n, c', rest) := PyFloat.read_digits s acc c in (n, c', Str.lower rest).
Proof.
  induction s as [|a s IH]; intros acc c; simpl; [reflexivity|].
  rewrite is_digit_lower. destruct (Char.is_digit a) eqn:E; [|reflexivity].
  rewrite (digit_lower a E). apply IH.
Qed.

Lemma py_float_lower text : PyFloat.py_float (Str.lower text) = PyFloat.py_float text.
Proof.
  unfold PyFloat.py_float. rewrite read_digits_lower.
  destruct (PyFloat.read_digits text 0 0) as [[n i] rest].
  destruct i; [reflexivity|]. destruct rest as [|dot frac]; [reflexivity|].
  cbn [Str.lower]. rewrite is_point_lower. destruct (Ascii.eqb dot "."); [|reflexivity].
  rewrite read_digits_lower.
  destruct (PyFloat.read_digits frac n 0) as [[m k] rest'].
  destruct k; [reflexivity|]. destruct rest'; reflexivity.
Qed.

Lemma float_of_group_lower m :
  float_of_group {| group1 := option_map Str.lower (group1 m) |} = float_of_group m.
Proof.
  unfold float_of_group. cbn [group1]. destruct (group1 m); [apply py_float_lower | reflexivity].
Qed.

Lemma for_patterns_lower key ps text : forall scores,
  for_patterns key ps (Str.lower text) scores = for_patterns key ps text scores.
Proof.
  induction ps as [|p ps IH]; intros scores; cbn [for_patterns]; [reflexivity|].
  rewrite search_lower. destruct (search p text) as [m|]; cbn [option_map]; [|apply IH].
  rewrite float_of_group_lower.
  destruct (float_of_group m) as [val|e].
  - destruct (in_range val); [reflexivity | apply IH].
  - destruct (handled e); [apply IH | reflexivity].
Qed.

Lemma for_variations_lower key vars text : forall scores,
  for_variations key vars (Str.lower text) scores = for_variations key vars text scores.
Proof.
  induction vars as [|v vars IH]; intros scores; cbn [for_variations]; [reflexivity|].
  rewrite for_patterns_lower.
  destruct (for_patterns key (patterns v) text scores) as [d|e]; cbn [bind]; [|reflexivity].
  destruct (Dict.mem key d); [reflexivity | apply IH].
Qed.

Lemma for_keys_lower ks text : forall scores,
  for_keys ks (Str.lower text) scores = for_keys ks text scores.
Proof.
  induction ks as [|k ks IH]; intros scores; cbn [for_keys]; [reflexivity|].
  rewrite for_variations_lower.
  destruct (for_variations k (key_variations k) text scores); cbn [bind]; [apply IH | reflexivity].
Qed.

Lemma for_total_patterns_lower ps response : forall total,
  for_total_patterns ps (Str.lower response) total = for_total_patterns ps response total.
Proof.
  induction ps as [|p ps IH]; intros total; cbn [for_total_patterns]; [reflexivity|].
  rewrite search_lower. destruct (search p response) as [m|]; cbn [option_map]; [|apply IH].
  rewrite float_of_group_lower.
  destruct (float_of_group m) as [val|e].
  - destruct (in_range val); [reflexivity | apply IH].
  - destruct (handled e); [apply IH | reflexivity].
Qed.

Lemma category_scores_lower rubric response :
  category_scores rubric (Str.lower response) = category_scores rubric response.
Proof.
  unfold category_scores, score_text_of. rewrite search_lower.
  destruct (search scores_section response) as [m|]; cbn [option_map group1].
  - destruct (group1 m) as [text|]; cbn [option_map bind]; [apply for_keys_lower | reflexivity].
  - cbn [bind]. apply for_keys_lower.
Qed.

Lemma extract_scores_lower rubric response :
  extract_scores rubric (Str.lower response) = extract_scores rubric response.
Proof.
  unfold extract_scores, scanned_total.
  now rewrite category_scores_lower, for_total_patterns_lower.
Qed.

(** X1.  For text within the code points U+0000..U+00FF, the text of
    this development, the case of the letters of a reply plays no
    part: the extractor returns for the lower-cased reply what it
    returns for the reply, so two such replies with the same
    lower-casing give the same scores and the same total.  The
    statement does not extend to every [str]: U+0130 matches [i] under
    [re.IGNORECASE], and its lower-casing, [i] followed by U+0307, does
    not match in its place. *)
Theorem reply_case_ignored :
  (forall rubric response,
      extract_scores rubric (Str.lower response) = extract_scores rubric response)
  /\ (forall rubric response response',
        Str.lower response = Str.lower response' ->
        extract_scores rubric response = extract_scores rubric response').
Proof.
  split; [exact extract_scores_lower|].
  intros rubric r r' H.
  now rewrite <- (extract_scores_lower rubric r), H, extract_scores_lower.
Qed.

(** The score block of [RUBRIC] and the same block in lower case. *)
Lemma reply_case_ignored_witness :
  Str.lower block_RUBRIC = Str.lower (Str.lower block_RUBRIC)
  /\ extract_scores RUBRIC block_RUBRIC = extract_scores RUBRIC (Str.lower block_RUBRIC).
Proof.
  split; [reflexivity|].
  exact (proj2 reply_case_ignored RUBRIC block_RUBRIC (Str.lower block_RUBRIC) eq_refl).
Defined.

End LetterCase.

(** ** Variations, scores and totals *)

Module Replies.
Import FloatFacts StrFacts CharFacts ReFacts Total DictFacts Categories Totals LetterCase.

(** *** Variations *)

Lemma exec_seq_ext {R} r r1 r2 :
  (forall s g (k : string -> option string -> option R), exec r1 s g k = exec r2 s g k) ->
  forall s g (k : string -> option string -> option R),
    exec (Seq r r1) s g k = exec (Seq r r2) s g k.
Proof. intros H s g k. cbn [exec]. apply exec_ext. intros s' g'. apply H. Qed.

Lemma exec_lit_lower {R} l r s g (k : string -> option string -> option R) :
  exec (Seq (Lit (Str.lower l)) r) s g k = exec (Seq (Lit l) r) s g k.
Proof. cbn [exec]. now rewrite lit_prefix_lower_l. Qed.

Lemma search_ext r r' :
  (forall s, match_here r s = match_here r' s) -> forall s, search r s = search r' s.
Proof.
  intros H. induction s as [|a s IH]; cbn [search]; rewrite H; [reflexivity|].
  now rewrite IH.
Qed.

Lemma patterns_lower l text :
  map (fun p => search p text) (patterns (Str.lower l))
  = map (fun p => search p text) (patterns l).
Proof.
  unfold patterns. cbn [map cat].
  f_equal; [|f_equal; [|f_equal; [|f_equal]]];
    apply search_ext; intros s; unfold match_here;
    try apply exec_lit_lower.
  do 4 apply exec_seq_ext. intros s' g' k'. apply exec_lit_lower.
Qed.

Lemma for_patterns_ext key ps ps' text scores :
  map (fun p => search p text) ps = map (fun p => search p text) ps' ->
  for_patterns key ps text scores = for_patterns key ps' text scores.
Proof.
  revert ps'. induction ps as [|p ps IH]; intros [|p' ps']; cbn [map];
    try discriminate; [reflexivity|].
  intros [= Hp Hps]. cbn [for_patterns]. rewrite Hp, (IH ps' Hps). reflexivity.
Qed.

(** A second pass over the patterns that stored nothing stores nothing. *)
Lemma for_patterns_again key ps text scores d :
  forallb sets_group ps = true ->
  for_patterns key ps text scores = Ok d -> Dict.mem key d = false ->
  d = scores /\ for_patterns key ps text d = Ok d.
Proof.
  intros Hps H Hmem. rewrite (for_patterns_spec key ps text scores Hps) in H.
  destruct (first_accepted ps text) as [val|] eqn:E.
  - injection H as <-. now rewrite mem_set_same in Hmem.
  - injection H as <-. split; [reflexivity|].
    now rewrite (for_patterns_spec key ps text scores Hps), E.
Qed.

Lemma for_variations_twice key v vars text scores :
  for_variations key (v :: v :: vars) text scores = for_variations key (v :: vars) text scores.
Proof.
  cbn [for_variations].
  destruct (for_patterns key (patterns v) text scores) as [d|e] eqn:E; cbn [bind]; [|reflexivity].
  destruct (Dict.mem key d) eqn:Em; [reflexivity|].
  destruct (for_patterns_again key _ text scores d (patterns_set_group v) E Em) as [-> H].
  rewrite H. cbn [bind]. now rewrite Em.
Qed.

Lemma for_variations_skip_lower key vars text scores :
  for_variations key (key :: Str.lower key :: vars) text scores
  = for_variations key (key :: vars) text scores.
Proof.
  cbn [for_variations].
  destruct (for_patterns key (patterns key) text scores) as [d|e] eqn:E; cbn [bind]; [|reflexivity].
  destruct (Dict.mem key d) eqn:Em; [reflexivity|].
  destruct (for_patterns_again key _ text scores d (patterns_set_group key) E Em) as [-> H].
  rewrite (for_patterns_ext key _ _ text scores (patterns_lower key text)), H.
  cbn [bind]. now rewrite Em.
Qed.

Lemma for_variations_one key text scores :
  for_variations key [key] text scores = for_patterns key (patterns key) text scores.
Proof.
  cbn [for_variations].
  destruct (for_patterns key (patterns key) text scores) as [d|e]; cbn [bind]; [|reflexivity].
  now destruct (Dict.mem key d).
Qed.

(** X2.  The lower-case variation of a name is redundant: the patterns
    ignore case, so the loop over the four variations gives what the
    loop over the name and its two spellings of [" & "] gives; and for
    a name without [" & "] it gives what one pass over the four
    patterns of the name gives. *)
Theorem lower_variation_redundant :
  (forall key text scores,
      for_variations key (key_variations key) text scores
      = for_variations key [key; Str.replace " & " " and " key; Str.replace " & " " " key]
                       text scores)
  /\ (forall key text scores,
        Str.replace " & " " and " key = key -> Str.replace " & " " " key = key ->
        for_variations key (key_variations key) text scores
        = for_patterns key (patterns key) text scores).
Proof.
  split.
  - intros key text scores. apply for_variations_skip_lower.
  - intros key text scores H1 H2. unfold key_variations.
    rewrite for_variations_skip_lower, H1, H2, !for_variations_twice.
    apply for_variations_one.
Qed.

(** A name without [" & "]. *)
Lemma lower_variation_redundant_witness :
  Str.replace " & " " and " "Risk Analysis" = "Risk Analysis"
  /\ Str.replace " & " " " "Risk Analysis" = "Risk Analysis"
  /\ for_variations "Risk Analysis" (key_variations "Risk Analysis") "Risk Analysis - 80" []
     = for_patterns "Risk Analysis" (patterns "Risk Analysis") "Risk Analysis - 80" [].
Proof.
  split; [reflexivity|]. split; [reflexivity|].
  exact (proj2 lower_variation_redundant "Risk Analysis" "Risk Analysis - 80" []
               eq_refl eq_refl).
Defined.

(** *** The scores returned *)

Lemma keys_found ks text :
  Dict.keys (found_scores ks text)
  = filter (fun k => match first_accepted (combinations k) text with
                     | Some _ => true
                     | None => false
                     end) ks.
Proof.
  induction ks as [|k ks IH]; [reflexivity|].
  unfold found_scores. cbn [flat_map filter]. fold (found_scores ks text).
  rewrite keys_app, IH. now destruct (first_accepted (combinations k) text).
Qed.

Lemma mem_found ks text k :
  In k ks -> NoDup ks ->
  Dict.mem k (found_scores ks text)
  = match first_accepted (combinations k) text with Some _ => true | None => false end.
Proof. intros Hin Hnd. unfold Dict.mem. now rewrite get_found. Qed.

Lemma fill_missing_zeros ks : forall scores : dict float,
  NoDup ks -> fill_missing ks scores = (scores ++ zeros ks scores)%list.
Proof.
  unfold zeros. induction ks as [|k ks IH]; intros scores Hnd; cbn [fill_missing filter map].
  - now rewrite List.app_nil_r.
  - inversion Hnd as [|? ? Hk Hnd']; subst.
    destruct (Dict.mem k scores) eqn:Em; cbn [negb]; [now apply IH|].
    rewrite IH by exact Hnd'. rewrite set_fresh by exact Em.
    rewrite <- List.app_assoc. cbn [List.app map]. do 3 f_equal.
    apply filter_ext_in. intros k' Hk'. rewrite mem_app. unfold Dict.mem at 2. cbn.
    destruct (String.eqb k' k) eqn:E; [|now rewrite orb_false_r].
    apply String.eqb_eq in E. subst. contradiction.
Qed.

Lemma length_filter_split {A} (f : A -> bool) l :
  List.length (filter f l) + List.length (filter (fun x => negb (f x)) l) = List.length l.
Proof.
  induction l as [|a l IH]; [reflexivity|]. cbn [filter].
  destruct (f a); cbn [negb List.length]; lia.
Qed.

(** X3.  The scores returned have one entry for each category of the
    rubric and no other: first the categories that had a value stored,
    in the order of the rubric, then the others with 0, in the order of
    the rubric; and every value passes the range test. *)
Theorem scores_cover_rubric rubric response :
  NoDup (Dict.keys rubric) ->
  exists found scores total,
    category_scores rubric response = Ok found
    /\ extract_scores rubric response = Ok (scores, total)
    /\ Dict.keys found = filter (fun k => Dict.mem k found) (Dict.keys rubric)
    /\ scores = (found ++ zeros (Dict.keys rubric) found)%list
    /\ List.length scores = List.length rubric
    /\ (forall k, In k (Dict.keys rubric) <-> In k (Dict.keys scores))
    /\ Forall (fun kv => in_range (snd kv) = true) scores.
Proof.
  intros Hnd.
  destruct (category_scores_spec rubric response Hnd) as (text & _ & Ec).
  destruct (extract_scores_ok rubric response) as (scores & total & E).
  destruct (extract_scores_inv _ _ _ _ E) as (found & _ & Ec' & _ & Hscores & _).
  exists found, scores, total. split; [exact Ec'|]. split; [exact E|].
  rewrite Ec in Ec'. injection Ec' as Hfound.
  assert (Hkeys : Dict.keys found = filter (fun k => Dict.mem k found) (Dict.keys rubric)).
  { rewrite <- Hfound, keys_found. apply filter_ext_in. intros k Hk.
    now rewrite mem_found. }
  rewrite (fill_missing_zeros _ _ Hnd) in Hscores.
  split; [exact Hkeys|]. split; [exact Hscores|].
  assert (Hk2 : Dict.keys scores
                = (filter (fun k => Dict.mem k found) (Dict.keys rubric)
                   ++ filter (fun k => negb (Dict.mem k found)) (Dict.keys rubric))%list).
  { rewrite Hscores, keys_app, Hkeys. f_equal.
    unfold zeros, Dict.keys. rewrite map_map. cbn [fst]. now rewrite map_id. }
  split; [|split].
  - rewrite <- (length_map fst scores). fold (Dict.keys scores). rewrite Hk2, List.length_app.
    rewrite length_filter_split. unfold Dict.keys. apply length_map.
  - intros k. rewrite Hk2, in_app_iff, !filter_In.
    destruct (Dict.mem k found); cbn; intuition congruence.
  - rewrite Hscores. apply Forall_app. split.
    + pose proof (category_scores_good rubric response found) as Hg.
      rewrite Ec, Hfound in Hg. specialize (Hg eq_refl).
      revert Hg. apply Forall_impl. intros kv [_ H]. exact H.
    + unfold zeros. apply Forall_forall. intros kv Hkv.
      apply in_map_iff in Hkv as (k & <- & _). reflexivity.
Qed.

(** [RUBRIC] and a reply with two of its six categories. *)
Lemma scores_cover_rubric_witness :
  NoDup (Dict.keys RUBRIC)
  /\ exists found scores total,
       category_scores RUBRIC two_scores = Ok found
       /\ extract_scores RUBRIC two_scores = Ok (scores, total)
       /\ Dict.keys found = ["Project Definition"; "Risk Analysis"]
       /\ Dict.keys scores
          = ["Project Definition"; "Risk Analysis"; "Data Identification & Assessment";
             "Mathematical Modeling"; "Recommendations"; "Communication & Clarity"].
Proof.
  assert (Hnd : NoDup (Dict.keys RUBRIC)) by (apply Block.nodup_keys_NoDup; reflexivity).
  split; [exact Hnd|].
  destruct (scores_cover_rubric RUBRIC two_scores Hnd)
    as (found & scores & total & Ec & E & _ & Hscores & _).
  exists found, scores, total. split; [exact Ec|]. split; [exact E|].
  assert (Hf : found = [("Project Definition", Float.of_N 90); ("Risk Analysis", Float.of_N 80)]).
  { assert (H : category_scores RUBRIC two_scores
                = Ok [("Project Definition", Float.of_N 90); ("Risk Analysis", Float.of_N 80)])
      by reflexivity.
    congruence. }
  rewrite Hscores, Hf. split; reflexivity.
Defined.

(** *** The total returned *)

(** X4.  The total returned is never NaN, and for a rubric with
    weights in (0, 1] it is never negative. *)
Theorem total_not_negative rubric response :
  exists scores total,
    extract_scores rubric response = Ok (scores, total)
    /\ Float.is_nan total = false
    /\ (weights_ok rubric = true -> Float.nonneg total = true).
Proof.
  destruct (extract_scores_ok rubric response) as (scores & total & E).
  exists scores, total. split; [exact E|].
  split; [exact (extract_total_not_nan _ _ _ _ E)|].
  intros Hw.
  destruct (extract_scores_inv _ _ _ _ E) as (found & scanned & Ec & Es & _ & [->|(_ & Hc & _)]).
  - exact (scanned_total_nonneg _ _ Es).
  - exact (calculated_total_nonneg rubric found total Hw (category_scores_good _ _ _ Ec) Hc).
Qed.

(** [RUBRIC] and a reply with two scores. *)
Lemma total_not_negative_witness :
  weights_ok RUBRIC = true
  /\ exists scores total,
       extract_scores RUBRIC two_scores = Ok (scores, total)
       /\ Float.nonneg total = true.
Proof.
  split; [reflexivity|].
  destruct (total_not_negative RUBRIC two_scores) as (scores & total & E & _ & H).
  exists scores, total. split; [exact E | exact (H eq_refl)].
Defined.

(** *** The scan for the total *)

Lemma for_total_patterns_spec ps response : forall total,
  forallb sets_group ps = true ->
  for_total_patterns ps response total
  = Ok (match first_accepted ps response with
        | Some val => val
        | None => last_matched ps response total
        end).
Proof.
  induction ps as [|p ps IH]; intros total Hps; cbn [for_total_patterns first_accepted
                                                      last_matched]; [reflexivity|].
  cbn [forallb] in Hps. apply andb_true_iff in Hps as [Hp Hps].
  unfold accepted.
  destruct (search p response) as [m|] eqn:Es; [|now apply IH].
  destruct (float_of_group m) as [val|e] eqn:Ef.
  - destruct (in_range val); [reflexivity | now apply IH].
  - rewrite (float_of_group_handled p response m e Hp Es Ef). now apply IH.
Qed.

(** X5.  The scan for the total returns the value of the first header,
    in the order of the list, whose first occurrence has a value in the
    range; when there is none it returns the value of the last header
    in the list that matched, and 0 when no header matched. *)
Theorem total_scan_law response :
  scanned_total response
  = Ok (match first_accepted total_patterns response with
        | Some val => val
        | None => last_matched total_patterns response Float.zero
        end).
Proof. apply for_total_patterns_spec, total_patterns_set_group. Qed.

End Replies.

(** ** The scores section *)

Module Sections.
Import StrFacts CharFacts ReFacts Numbers Search Block Total.

Lemma stops_here stop rest g :
  In stop stop_words ->
  exec (Seq stops Eps) (stop ++ rest) g (fun _ g' => Some {| group1 := g' |})
  = Some {| group1 := g |}.
Proof.
  intros [<-|[<-|[<-|[]]]]; reflexivity.
Qed.

Lemma stops_absent body tail :
  forallb (fun w => absent w body) stop_words = true ->
  tail <> "" ->
  throughout (fun t => forall g, exec (Seq stops Eps) t g
                                   (fun _ g' => Some {| group1 := g' |}) = None)
             body tail.
Proof.
  intros H Htail. cbn [forallb stop_words] in H.
  apply andb_true_iff in H as [H1 H]. apply andb_true_iff in H as [H2 H].
  apply andb_true_iff in H as [H3 _].
  destruct tail as [|a tail]; [contradiction|].
  pose proof (throughout_and _ _ _ _ (absent_throughout _ _ (String a tail) H1)
                (throughout_and _ _ _ _ (absent_throughout _ _ (String a tail) H2)
                   (throughout_and _ _ _ _ (absent_throughout _ _ (String a tail) H3)
                      (throughout_not_end body a tail)))) as Hall.
  revert Hall. apply throughout_impl. intros t (F1 & F2 & F3 & F4) g.
  now apply stops_fail.
Qed.

(** After the header word: the colon, the end of the line and the
    section. *)
Lemma after_header {R} r s g (k : string -> option string -> option R) x :
  starts_plain s ->
  exec r s g k = Some x ->
  exec (Seq (Star Space) (Seq (Opt colon) (Seq (Star Space) (Seq (Chr (Char Char.LF)) r))))
       (":" ++ LF ++ s) g k = Some x.
Proof.
  intros Hs H. destruct s as [|a s]; [contradiction|]. cbn in Hs.
  unfold LF. cbn [append].
  rewrite step_star_stop by reflexivity.
  apply step_opt_take. unfold colon. rewrite step_chr by reflexivity.
  rewrite step_star_back; [|reflexivity|].
  - rewrite step_chr by reflexivity. exact H.
  - rewrite step_star_stop by exact Hs.
    cbn [exec]. now rewrite (plain_not_LF a Hs).
Qed.

(** The header line, matched from its first character. *)
Lemma header_line {R} header s g (k : string -> option string -> option R) x :
  In header section_headers -> starts_plain s ->
  exec (Seq (Group (LazyStar Any)) (Seq stops Eps)) s g k = Some x ->
  exec scores_section (header ++ ":" ++ LF ++ s) g k = Some x.
Proof.
  intros Hh Hs H. pose proof (after_header _ s g k x Hs H) as Hafter.
  unfold scores_section. cbn [cat].
  destruct Hh as [<-|[<-|[<-|[<-|[<-|[]]]]]].
  - apply step_alt_left. rewrite step_assoc.
    rewrite (step_lit_at "SCORE" _ _ ("S" ++ ":" ++ LF ++ s)) by reflexivity.
    apply step_opt_take.
    rewrite (step_lit_at "S" _ _ (":" ++ LF ++ s)) by reflexivity. exact Hafter.
  - apply step_alt_left. rewrite step_assoc.
    rewrite (step_lit_at "SCORE" _ _ (":" ++ LF ++ s)) by reflexivity.
    rewrite step_opt_skip by (apply step_lit_fails; reflexivity). exact Hafter.
  - rewrite step_alt_right by (rewrite step_assoc; apply step_lit_fails; reflexivity).
    apply step_alt_left. rewrite step_assoc.
    rewrite (step_lit_at "RUBRIC SCORE" _ _ ("S" ++ ":" ++ LF ++ s)) by reflexivity.
    apply step_opt_take.
    rewrite (step_lit_at "S" _ _ (":" ++ LF ++ s)) by reflexivity. exact Hafter.
  - rewrite step_alt_right by (rewrite step_assoc; apply step_lit_fails; reflexivity).
    apply step_alt_left. rewrite step_assoc.
    rewrite (step_lit_at "RUBRIC SCORE" _ _ (":" ++ LF ++ s)) by reflexivity.
    rewrite step_opt_skip by (apply step_lit_fails; reflexivity). exact Hafter.
  - rewrite step_alt_right by (rewrite step_assoc; apply step_lit_fails; reflexivity).
    rewrite step_alt_right by (rewrite step_assoc; apply step_lit_fails; reflexivity).
    rewrite (step_lit_at "EVALUATION" _ _ (":" ++ LF ++ s)) by reflexivity. exact Hafter.
Qed.

Lemma section_match_at header body stop rest :
  In header section_headers -> In stop stop_words ->
  forallb (fun w => absent w body) stop_words = true ->
  starts_plain (body ++ stop) ->
  match_here scores_section (header ++ ":" ++ LF ++ body ++ stop ++ rest)
  = Some {| group1 := Some body |}.
Proof.
  intros Hh Hstop Habs Hplain. unfold match_here.
  apply header_line; [exact Hh | |].
  - destruct body as [|a body]; [|exact Hplain].
    destruct Hstop as [<-|[<-|[<-|[]]]]; reflexivity.
  - rewrite step_group_lazy, star_lazy_skip.
    + apply star_lazy_here. rewrite consumed_app. now apply stops_here.
    + assert (Hne : stop ++ rest <> "").
      { destruct Hstop as [<-|[<-|[<-|[]]]]; discriminate. }
      pose proof (stops_absent body (stop ++ rest) Habs Hne) as H.
      revert H. apply throughout_impl. intros t Ht. apply Ht.
Qed.

(** X6.  When the first scores header of a reply is followed by a colon
    and the end of the line, the categories are searched in the text
    between that line and the next WEIGHTED TOTAL, OVERALL or TOTAL, and
    nowhere else: what stands before the header and what follows the
    stop word play no part in the scores of the categories. *)
Theorem section_is_searched rubric pre header body stop rest :
  In header section_headers -> In stop stop_words ->
  throughout (fun t => match_here scores_section t = None) pre
             (header ++ ":" ++ LF ++ body ++ stop ++ rest) ->
  forallb (fun w => absent w body) stop_words = true ->
  starts_plain (body ++ stop) ->
  score_text_of (pre ++ header ++ ":" ++ LF ++ body ++ stop ++ rest) = Ok body
  /\ category_scores rubric (pre ++ header ++ ":" ++ LF ++ body ++ stop ++ rest)
     = for_keys (Dict.keys rubric) body [].
Proof.
  intros Hh Hstop Hpre Habs Hplain.
  assert (Ht : score_text_of (pre ++ header ++ ":" ++ LF ++ body ++ stop ++ rest) = Ok body).
  { unfold score_text_of. rewrite search_skip by exact Hpre.
    now rewrite (search_here _ _ _ (section_match_at header body stop rest
                                      Hh Hstop Habs Hplain)). }
  split; [exact Ht|]. unfold category_scores. now rewrite Ht.
Qed.

(** A reply that gives a category a value before the header, in the
    section and after the total. *)
Lemma section_is_searched_witness :
  throughout (fun t => match_here scores_section t = None) ("Risk Analysis: 10" ++ LF)
             ("SCORES" ++ ":" ++ LF ++ ("Risk Analysis: 85" ++ LF) ++ "WEIGHTED TOTAL"
              ++ ": 85" ++ LF ++ "Risk Analysis: 20")
  /\ score_text_of scores_in_report = Ok ("Risk Analysis: 85" ++ LF)
  /\ category_scores RUBRIC scores_in_report = Ok [("Risk Analysis", Float.of_N 85)].
Proof.
  assert (H : throughout (fun t => match_here scores_section t = None)
                         ("Risk Analysis: 10" ++ LF)
                         ("SCORES" ++ ":" ++ LF ++ ("Risk Analysis: 85" ++ LF)
                          ++ "WEIGHTED TOTAL" ++ ": 85" ++ LF ++ "Risk Analysis: 20"))
    by (cbn [throughout append LF]; repeat split).
  split; [exact H|].
  destruct (section_is_searched RUBRIC ("Risk Analysis: 10" ++ LF) "SCORES"
              ("Risk Analysis: 85" ++ LF) "WEIGHTED TOTAL"
              (": 85" ++ LF ++ "Risk Analysis: 20"))
    as [Ht Hc]; [cbn; tauto | cbn; tauto | exact H | reflexivity | reflexivity|].
  split; [exact Ht | exact Hc].
Defined.

End Sections.

(** ** The score block at the end of a report *)

Module Report.
Import StrFacts CharFacts ReFacts Numbers Search Block Total DictFacts Categories Totals.

(** X15.  A report in front of the score block does not disturb the
    extraction: when no scores header matches inside the report and
    the report does not contain WEIGHTED TOTAL, the extractor returns
    for the report followed by the block the values and the total of
    the block (total in the range and not zero), whatever else the
    report says about the categories. *)
Theorem block_after_report rubric report entries total x :
  separated (Dict.keys rubric) = true ->
  map fst entries = Dict.keys rubric ->
  (forall e, In e entries -> reported (snd e)) ->
  PyFloat.py_float total = Ok x -> in_range x = true -> Float.truthy x = true ->
  throughout (fun t => match_here scores_section t = None) report
             (score_block entries total) ->
  absent "WEIGHTED TOTAL" report = true ->
  extract_scores rubric (report ++ score_block entries total)
  = Ok (map (fun e => (fst e, value_of (snd e))) entries, x).
Proof.
  intros Hsep Hkeys Hrep Htotal Hrange Htruthy Hsec Hwt. rewrite <- Hkeys in Hsep.
  assert (Htext : score_text_of (report ++ score_block entries total)
                  = Ok (score_lines entries)).
  { unfold score_text_of. rewrite search_skip by exact Hsec.
    now rewrite (search_here _ _ _ (section_match entries total Hsep Hrep)). }
  assert (Hscan : scanned_total (report ++ score_block entries total) = Ok x).
  { assert (Hs : search (total_pattern "WEIGHTED TOTAL")
                        (report ++ score_block entries total)
                 = Some {| group1 := Some total |}).
    { unfold score_block.
      replace (report ++ "SCORES:" ++ LF ++ score_lines entries ++ "WEIGHTED TOTAL: " ++ total)
        with ((report ++ ("SCORES:" ++ LF) ++ score_lines entries)
              ++ "WEIGHTED TOTAL" ++ ": " ++ total ++ "")
        by (rewrite !app_assoc, app_nil_r; reflexivity).
      apply search_total_pattern.
      - apply throughout_app; [now apply absent_throughout|].
        apply throughout_app; [now apply absent_throughout|].
        apply (stop_throughout entries Hsep Hrep). now left.
      - exact (py_float_decimal _ _ Htotal).
      - exact I. }
    unfold scanned_total, total_patterns. cbn [map for_total_patterns].
    rewrite Hs. unfold float_of_group. cbn [group1]. now rewrite Htotal, Hrange. }
  unfold extract_scores, category_scores. rewrite Htext. cbn [bind].
  rewrite for_keys_spec;
    [| rewrite <- Hkeys; now apply separated_NoDup | reflexivity].
  rewrite <- Hkeys, (found_entries entries Hsep Hrep entries (incl_refl _)).
  cbn [List.app]. rewrite Hscan. cbn [bind]. rewrite Htruthy. cbn [negb orb].
  assert (Hlen : Nat.ltb (List.length (map (fun e => (fst e, value_of (snd e))) entries))
                         (List.length rubric) = false).
  { apply Nat.ltb_ge. rewrite length_map.
    rewrite <- (length_map fst entries), Hkeys. unfold Dict.keys. now rewrite length_map. }
  rewrite Hlen. cbn [bind].
  rewrite fill_missing_complete; [reflexivity|].
  intros k Hk. apply mem_in. now rewrite keys_valued.
Qed.

(** A report that mentions a category and the word [total], then the
    score block of [RUBRIC]. *)
Lemma block_after_report_witness :
  throughout (fun t => match_here scores_section t = None)
             ("Risk Analysis: 3 scenarios, total loss 250." ++ LF) block_RUBRIC
  /\ extract_scores RUBRIC report_then_block
     = Ok ([ ("Project Definition", Float.of_N 85);
             ("Data Identification & Assessment", Float.of_N 90);
             ("Mathematical Modeling", Float.of_N 88);
             ("Risk Analysis", Float.of_N 92);
             ("Recommendations", Float.of_N 87);
             ("Communication & Clarity", Float.of_N 95) ],
           Float.of_decimal 885 1).
Proof.
  assert (H : throughout (fun t => match_here scores_section t = None)
                         ("Risk Analysis: 3 scenarios, total loss 250." ++ LF) block_RUBRIC).
  { unfold LF. cbn [throughout append]. repeat split. }
  split; [exact H|].
  refine (block_after_report RUBRIC ("Risk Analysis: 3 scenarios, total loss 250." ++ LF)
            entries_RUBRIC "88.5" (Float.of_decimal 885 1)
            eq_refl eq_refl _ eq_refl eq_refl eq_refl H eq_refl).
  intros e He. cbn [In entries_RUBRIC] in He.
  repeat (destruct He as [<-|He]; [eexists; split; reflexivity|]). destruct He.
Defined.

End Report.

(** ** Score lines *)

Module Lines.
Import StrFacts CharFacts ReFacts Numbers Search Block Total DictFacts Categories Totals.

(** *** Where the continuation is called *)

Section Suffix.
Context {R : Type}.

Lemma lit_prefix_suffix l : forall s s', lit_prefix l s = Some s' -> exists q, s = q ++ s'.
Proof.
  induction l as [|a l IH]; intros s s'; simpl.
  - intros [= <-]. now exists "".
  - destruct s as [|b s]; [discriminate|]. destruct (Char.eq_ci a b); [|discriminate].
    intros H. apply IH in H as [q ->]. now exists (String b q).
Qed.

Lemma star_greedy_suffix p (k : string -> option R) s x :
  star_greedy p k s = Some x -> exists q s', s = q ++ s' /\ k s' = Some x.
Proof.
  induction s as [|a s IH]; simpl.
  - intros H. now exists "", "".
  - destruct (p a); [|intros H; now exists "", (String a s)].
    destruct (star_greedy p k s) eqn:E.
    + intros [= <-]. destruct (IH eq_refl) as (q & s' & -> & H).
      now exists (String a q), s'.
    + intros H. now exists "", (String a s).
Qed.

Lemma star_lazy_suffix p (k : string -> option R) s x :
  star_lazy p k s = Some x -> exists q s', s = q ++ s' /\ k s' = Some x.
Proof.
  induction s as [|a s IH]; simpl.
  - destruct (k "") eqn:E; [|discriminate]. intros [= <-]. now exists "", "".
  - destruct (k (String a s)) eqn:E.
    + intros [= <-]. now exists "", (String a s).
    + destruct (p a); [|discriminate]. intros H.
      destruct (IH H) as (q & s' & -> & H'). now exists (String a q), s'.
Qed.

(** A result of the matcher is a result of its continuation on the rest
    of the text. *)
Lemma exec_suffix r : forall s g (k : string -> option string -> option R) x,
  exec r s g k = Some x -> exists q s' g', s = q ++ s' /\ k s' g' = Some x.
Proof.
  induction r as [|c|l|r1 IH1 r2 IH2|r1 IH1 r2 IH2|c|c|r IH|]; intros s g k x; cbn [exec].
  - intros H. now exists "", s, g.
  - destruct s as [|a s]; [discriminate|]. destruct (cmatch c a); [|discriminate].
    intros H. now exists (String a ""), s, g.
  - destruct (lit_prefix l s) as [s'|] eqn:E; [|discriminate].
    intros H. apply lit_prefix_suffix in E as [q ->]. now exists q, s', g.
  - intros H. apply IH1 in H as (q1 & s1 & g1 & -> & H).
    apply IH2 in H as (q2 & s2 & g2 & -> & H).
    exists (q1 ++ q2), s2, g2. split; [now rewrite app_assoc | exact H].
  - destruct (exec r1 s g k) eqn:E.
    + intros [= <-]. now apply IH1 in E.
    + apply IH2.
  - intros H. apply star_greedy_suffix in H as (q & s' & -> & H). now exists q, s', g.
  - intros H. apply star_lazy_suffix in H as (q & s' & -> & H). now exists q, s', g.
  - intros H. apply IH in H as (q & s' & g' & -> & H). eauto.
  - destruct (at_end s); [|discriminate]. intros H. now exists "", s, g.
Qed.

Lemma seq_none r r' s g (k : string -> option string -> option R) :
  (forall q s' g', s = q ++ s' -> exec r' s' g' k = None) ->
  exec (Seq r r') s g k = None.
Proof.
  intros H. cbn [exec].
  destruct (exec r s g (fun s' g' => exec r' s' g' k)) as [x|] eqn:E; [|reflexivity].
  apply exec_suffix in E as (q & s' & g' & -> & E).
  now rewrite (H q s' g' eq_refl) in E.
Qed.

End Suffix.

(** *** A name that occurs nowhere *)

Lemma nowhere_suffix l q s : nowhere l (q ++ s) -> nowhere l s.
Proof. intros H q' s' ->. apply (H (q ++ q') s'). now rewrite app_assoc. Qed.

Lemma nowhere_intro l text :
  l <> "" -> throughout (lit_fails l) text "" -> nowhere l text.
Proof.
  intros Hl. induction text as [|a text IH]; intros H q s E.
  - destruct q; [|discriminate]. cbn in E. subst s. destruct l; [contradiction | reflexivity].
  - destruct H as [H1 H2]. destruct q as [|b q].
    + cbn in E. subst s. rewrite app_nil_r in H1. exact H1.
    + injection E as _ E. exact (IH H2 q s E).
Qed.

Lemma plain_head_nonempty l : plain_head l = true -> l <> "".
Proof. destruct l; [discriminate | discriminate]. Qed.

Lemma match_here_nowhere var t p :
  nowhere var t -> In p (patterns var) -> match_here p t = None.
Proof.
  intros H Hp. unfold patterns in Hp. cbn [cat] in Hp.
  assert (Hlit : forall r g (k : string -> option string -> option rmatch) q s,
            t = q ++ s -> exec (Seq (Lit var) r) s g k = None).
  { intros r g k q s E. apply step_lit_fails. exact (H q s E). }
  destruct Hp as [<-|[<-|[<-|[<-|[]]]]]; unfold match_here;
    try exact (Hlit _ _ _ "" t eq_refl).
  apply seq_none. intros q1 s1 g1 ->.
  apply seq_none. intros q2 s2 g2 ->.
  apply seq_none. intros q3 s3 g3 ->.
  apply seq_none. intros q4 s4 g4 ->.
  apply (Hlit _ _ _ (q1 ++ q2 ++ q3 ++ q4) s4). now rewrite !app_assoc.
Qed.

Lemma search_nowhere var p : forall text,
  nowhere var text -> In p (patterns var) -> search p text = None.
Proof.
  induction text as [|a text IH]; intros H Hp; cbn [search];
    rewrite (match_here_nowhere var _ p H Hp); [reflexivity|].
  apply IH; [|exact Hp]. exact (nowhere_suffix var (String a "") text H).
Qed.

Lemma first_accepted_nowhere var text :
  nowhere var text -> first_accepted (patterns var) text = None.
Proof.
  intros H.
  assert (Hall : forall ps, incl ps (patterns var) -> first_accepted ps text = None).
  { induction ps as [|p ps IH]; intros Hincl; [reflexivity|].
    cbn [first_accepted]. unfold accepted.
    rewrite (search_nowhere var p text H) by (apply Hincl; now left).
    apply IH. intros x Hx. apply Hincl. now right. }
  apply Hall, incl_refl.
Qed.

(** *** Lines that do not contain a name *)

Lemma entry_line_clear var e s :
  plain_head var = true ->
  absent var (entry_head (e_naming e) (e_separator e) (e_key e)) = true ->
  decimal (e_value e) ->
  throughout (lit_fails var) (entry_line e) s.
Proof.
  intros Hvar Habs Hv. unfold entry_line.
  apply throughout_app; [now apply absent_throughout|].
  apply throughout_app.
  - apply numeric_throughout; [exact Hvar | now apply decimal_numeric].
  - apply absent_throughout, plain_head_LF, Hvar.
Qed.

Lemma entry_lines_clear var es s :
  plain_head var = true ->
  (forall e, In e es ->
     absent var (entry_head (e_naming e) (e_separator e) (e_key e)) = true
     /\ decimal (e_value e)) ->
  throughout (lit_fails var) (entry_lines es) s.
Proof.
  intros Hvar. induction es as [|e es IH]; intros H; cbn [entry_lines]; [exact I|].
  apply throughout_app.
  - apply entry_line_clear; [exact Hvar | apply H; now left | apply H; now left].
  - apply IH. intros e' He'. apply H. now right.
Qed.

Lemma entry_lines_app a b : entry_lines (a ++ b)%list = entry_lines a ++ entry_lines b.
Proof.
  induction a as [|e a IH]; cbn [entry_lines List.app]; [reflexivity|].
  now rewrite IH, app_assoc.
Qed.

(** *** The line of the category *)

Lemma same_ci_prefix var : forall name s,
  same_ci var name = true -> lit_prefix var (name ++ s) = Some s.
Proof.
  induction var as [|a var IH]; intros [|b name] s; cbn; try discriminate; [reflexivity|].
  intros H. apply andb_true_iff in H as [-> H]. now apply IH.
Qed.

Lemma same_ci_refl a : same_ci a a = true.
Proof. induction a as [|x a IH]; cbn; [reflexivity|]. now rewrite eq_ci_refl. Qed.

Section Separators.
Variable v rest : string.
Hypothesis Hv : decimal v.
Hypothesis Hrest : ends_number rest.

Let k : string -> option string -> option rmatch := fun _ g => Some {| group1 := g |}.

Lemma value_start : exists d v', v = String d v' /\ Char.is_space d = false.
Proof.
  destruct (decimal_head v Hv) as (d & v' & -> & Hd).
  exists d, v'. split; [reflexivity | exact (digit_not_space d Hd)].
Qed.

Lemma colon_then_value g :
  exec (cat [Star Space; Opt colon; Star Space; Group number]) (": " ++ v ++ rest) g k
  = Some {| group1 := Some v |}.
Proof.
  destruct value_start as (d & v' & Ev & Hd). cbn [cat append].
  rewrite step_star_stop by reflexivity.
  apply step_opt_take. unfold colon. rewrite step_chr by reflexivity.
  apply step_star_take; [reflexivity|].
  rewrite step_star_stop by (rewrite Ev; exact Hd).
  apply step_group_number; [exact Hv | exact Hrest | reflexivity].
Qed.

Lemma sign_then_value c g :
  Char.is_space c = false ->
  exec (cat [Star Space; Chr (Char c); Star Space; Group number])
       (String " " (String c (String " " (v ++ rest)))) g k
  = Some {| group1 := Some v |}.
Proof.
  intros Hc. destruct value_start as (d & v' & Ev & Hd). cbn [cat].
  apply step_star_take; [reflexivity|].
  rewrite step_star_stop by exact Hc.
  rewrite step_chr by (cbn; apply eq_ci_refl).
  apply step_star_take; [reflexivity|].
  rewrite step_star_stop by (rewrite Ev; exact Hd).
  apply step_group_number; [exact Hv | exact Hrest | reflexivity].
Qed.

End Separators.

Section Failures.
Context {R : Type}.
Implicit Types (k : string -> option string -> option R).

Lemma step_chr_fails c r a t g k :
  cmatch c a = false -> exec (Seq (Chr c) r) (String a t) g k = None.
Proof. cbn [exec]. now intros ->. Qed.

Lemma step_number_fails r a t g k :
  Char.is_digit a = false -> exec (Seq (Group number) r) (String a t) g k = None.
Proof. intros H. cbn [exec number Plus cmatch]. now rewrite H. Qed.

(** The pattern with the optional colon does not read a sign. *)
Lemma colon_pattern_fails c t g k :
  Char.is_space c = false -> Char.is_digit c = false -> Char.eq_ci ":" c = false ->
  exec (cat [Star Space; Opt colon; Star Space; Group number])
       (String " " (String c t)) g k = None.
Proof.
  intros H1 H2 H3. cbn [cat].
  assert (Hnum : forall g', exec (Seq (Star Space) (Seq (Group number) Eps))
                                 (String c t) g' k = None).
  { intros g'. rewrite step_star_stop by exact H1. now apply step_number_fails. }
  rewrite step_star_back; [|reflexivity|].
  - unfold colon. rewrite step_opt_skip by (now apply step_chr_fails).
    rewrite step_star_back; [|reflexivity | apply Hnum].
    now apply step_number_fails.
  - rewrite step_star_stop by exact H1.
    unfold colon. rewrite step_opt_skip by (now apply step_chr_fails). apply Hnum.
Qed.

(** The pattern with a sign does not read another sign. *)
Lemma sign_pattern_fails c c' t g k :
  Char.is_space c' = false -> Char.eq_ci c c' = false -> Char.eq_ci c " " = false ->
  exec (cat [Star Space; Chr (Char c); Star Space; Group number])
       (String " " (String c' t)) g k = None.
Proof.
  intros H1 H2 H3. cbn [cat].
  rewrite step_star_back; [|reflexivity|].
  - now apply step_chr_fails.
  - rewrite step_star_stop by exact H1. now apply step_chr_fails.
Qed.

End Failures.

Lemma search_lit_nowhere var r : forall text,
  nowhere var text -> search (Seq (Lit var) r) text = None.
Proof.
  induction text as [|a text IH]; intros H; cbn [search];
    rewrite (lit_fails_match var r _ (H "" _ eq_refl)); [reflexivity|].
  apply IH. exact (nowhere_suffix var (String a "") text H).
Qed.

Lemma rest_of_app h x : h <> "" -> exists a, h ++ x = String a (rest_of h ++ x).
Proof. destruct h as [|a h]; [contradiction|]. intros _. now exists a. Qed.

(** A pattern that starts with the name matches at the line of the
    category or nowhere. *)
Lemma search_own_line var name sep r A rest :
  same_ci var name = true -> sep <> "" ->
  throughout (lit_fails var) A ((name ++ sep) ++ rest) ->
  nowhere var (rest_of (name ++ sep) ++ rest) ->
  search (Seq (Lit var) r) (A ++ (name ++ sep) ++ rest)
  = exec r (sep ++ rest) None (fun _ g => Some {| group1 := g |}).
Proof.
  intros Hsame Hsep HA Hrest.
  rewrite search_skip
    by (revert HA; apply throughout_impl; intros t Ht; now apply lit_fails_match).
  assert (Hne : name ++ sep <> "") by (destruct name; [exact Hsep | discriminate]).
  destruct (rest_of_app (name ++ sep) rest Hne) as [a E].
  assert (Hhere : match_here (Seq (Lit var) r) ((name ++ sep) ++ rest)
                  = exec r (sep ++ rest) None (fun _ g => Some {| group1 := g |})).
  { unfold match_here. rewrite app_assoc.
    exact (step_lit_at var r _ _ None _ (same_ci_prefix var name (sep ++ rest) Hsame)). }
  rewrite E in *. cbn [search]. rewrite Hhere.
  destruct (exec r (sep ++ rest) None _); [reflexivity|].
  now apply search_lit_nowhere.
Qed.

Lemma separator_nonempty s : separator_text s <> "".
Proof. destruct s; discriminate. Qed.

Lemma accepted_value p text v :
  reported v -> search p text = Some {| group1 := Some v |} ->
  accepted p text = Some (value_of v).
Proof.
  intros (x & Hx & Hrange) Hs. unfold accepted, float_of_group, value_of.
  rewrite Hs. cbn [group1]. now rewrite Hx, Hrange.
Qed.

Lemma accepted_none p text : search p text = None -> accepted p text = None.
Proof. unfold accepted. now intros ->. Qed.

(** The patterns of a variation that is the name of the line find the
    value of the line. *)
Lemma own_line_found var name sep v A B :
  same_ci var name = true -> reported v ->
  throughout (lit_fails var) A ((name ++ separator_text sep) ++ v ++ LF ++ B) ->
  nowhere var (rest_of (name ++ separator_text sep) ++ v ++ LF ++ B) ->
  first_accepted (patterns var) (A ++ (name ++ separator_text sep) ++ v ++ LF ++ B)
  = Some (value_of v).
Proof.
  intros Hsame Hrep HA Hrest.
  assert (Hv : decimal v).
  { destruct Hrep as (x & Hx & _). exact (py_float_decimal _ _ Hx). }
  assert (Hend : ends_number (LF ++ B)) by reflexivity.
  pose proof (fun r => search_own_line var name (separator_text sep) r A (v ++ LF ++ B)
                         Hsame (separator_nonempty sep) HA Hrest) as Hsearch.
  unfold patterns. cbn [cat first_accepted].
  destruct sep; cbn [separator_text] in *.
  - rewrite (accepted_value _ _ v Hrep); [reflexivity|].
    rewrite Hsearch. exact (colon_then_value v (LF ++ B) Hv Hend None).
  - rewrite accepted_none
      by (rewrite Hsearch; apply (colon_pattern_fails "-"); reflexivity).
    rewrite (accepted_value _ _ v Hrep); [reflexivity|].
    rewrite Hsearch. exact (sign_then_value v (LF ++ B) Hv Hend "-" None eq_refl).
  - rewrite accepted_none
      by (rewrite Hsearch; apply (colon_pattern_fails "="); reflexivity).
    rewrite accepted_none
      by (rewrite Hsearch; apply (sign_pattern_fails "-" "="); reflexivity).
    rewrite (accepted_value _ _ v Hrep); [reflexivity|].
    rewrite Hsearch. exact (sign_then_value v (LF ++ B) Hv Hend "=" None eq_refl).
Qed.

Lemma first_accepted_variations vars text val :
  (forall var, In var vars ->
     first_accepted (patterns var) text = None
     \/ first_accepted (patterns var) text = Some val) ->
  (exists var, In var vars /\ first_accepted (patterns var) text = Some val) ->
  first_accepted (flat_map patterns vars) text = Some val.
Proof.
  induction vars as [|var vars IH]; intros Hall (x & Hx & Hval); [destruct Hx|].
  cbn [flat_map]. rewrite first_accepted_app.
  destruct (Hall var (or_introl eq_refl)) as [Hnone|Hsome].
  - rewrite Hnone. apply IH.
    + intros y Hy. apply Hall. now right.
    + destruct Hx as [->|Hx]; [congruence|]. eauto.
  - now rewrite Hsome.
Qed.

Lemma first_accepted_no_variation vars text :
  (forall var, In var vars -> first_accepted (patterns var) text = None) ->
  first_accepted (flat_map patterns vars) text = None.
Proof.
  induction vars as [|var vars IH]; intros Hall; [reflexivity|].
  cbn [flat_map]. rewrite first_accepted_app, (Hall var) by now left.
  apply IH. intros y Hy. apply Hall. now right.
Qed.

(** *** What [flexible] and [neutral] give *)

Lemma label_variation n key : In (label n key) (key_variations key).
Proof. destruct n; cbn; auto. Qed.

Lemma entry_head_listed n s key : In (entry_head n s key) (entry_heads key).
Proof. destruct n, s; cbn; auto 10. Qed.

Section Flexible.
Variable ks : list string.
Hypothesis Hflex : flexible ks = true.

Lemma flexible_NoDup : NoDup ks.
Proof.
  unfold flexible in Hflex. repeat (apply andb_true_iff in Hflex as [Hflex ?]).
  now apply nodup_keys_NoDup.
Qed.

Lemma flexible_plain k var :
  In k ks -> In var (key_variations k) -> plain_head var = true.
Proof.
  unfold flexible in Hflex. repeat (apply andb_true_iff in Hflex as [Hflex ?]).
  intros Hk Hvar.
  match goal with H : forallb (fun k => forallb plain_head _) _ = true |- _ =>
    rename H into Hplain end.
  eapply forallb_forall in Hplain; [|exact Hk].
  eapply forallb_forall in Hplain; [exact Hplain | exact Hvar].
Qed.

Lemma flexible_other k k' var n s :
  In k ks -> In k' ks -> k <> k' -> In var (key_variations k) ->
  absent var (entry_head n s k') = true.
Proof.
  unfold flexible in Hflex. repeat (apply andb_true_iff in Hflex as [Hflex ?]).
  intros Hk Hk' Hne Hvar.
  match goal with H : forallb (fun k => forallb (fun k' => _ || _) _) _ = true |- _ =>
    rename H into Hpairs end.
  eapply forallb_forall in Hpairs; [|exact Hk].
  eapply forallb_forall in Hpairs; [|exact Hk'].
  apply orb_true_iff in Hpairs as [Heq|Habs].
  - apply String.eqb_eq in Heq. contradiction.
  - rewrite forallb_forall in Habs. specialize (Habs var Hvar).
    rewrite forallb_forall in Habs. exact (Habs _ (entry_head_listed n s k')).
Qed.

Lemma flexible_own k var n s :
  In k ks -> In var (key_variations k) ->
  own_line_ok var (entry_head n s k) (label n k) = true.
Proof.
  unfold flexible in Hflex. repeat (apply andb_true_iff in Hflex as [Hflex ?]).
  intros Hk Hvar.
  match goal with H : forallb (fun k => forallb (fun n => _) namings) _ = true |- _ =>
    rename H into Hown end.
  rewrite forallb_forall in Hown. specialize (Hown k Hk).
  rewrite forallb_forall in Hown.
  assert (Hn : In n namings) by (destruct n; cbn; auto).
  specialize (Hown n Hn).
  rewrite forallb_forall in Hown.
  assert (Hs : In s separators) by (destruct s; cbn; auto).
  specialize (Hown s Hs).
  rewrite forallb_forall in Hown. exact (Hown var Hvar).
Qed.

Lemma neutral_absent t k var :
  neutral ks t = true -> In k ks -> In var (key_variations k) -> absent var t = true.
Proof.
  unfold neutral. intros H Hk Hvar.
  eapply forallb_forall in H; [|exact Hk].
  eapply forallb_forall in H; [exact H | exact Hvar].
Qed.

End Flexible.

(** *** The value of a category in a text made of score lines *)

Section Text.
Variable ks : list string.
Variable pre tail : string.
Hypothesis Hflex : flexible ks = true.
Hypothesis Hpre : neutral ks pre = true.
Hypothesis Htail : neutral ks tail = true.

Lemma others_clear key var es s :
  In key ks -> In var (key_variations key) ->
  (forall e, In e es -> In (e_key e) ks /\ e_key e <> key /\ decimal (e_value e)) ->
  throughout (lit_fails var) (entry_lines es) s.
Proof.
  intros Hkey Hvar Hes. apply entry_lines_clear.
  - exact (flexible_plain ks Hflex key var Hkey Hvar).
  - intros e He. destruct (Hes e He) as (Hin & Hne & Hdec). split; [|exact Hdec].
    apply (flexible_other ks Hflex key (e_key e)); auto.
Qed.

(** A category that no line names has no accepted combination. *)
Lemma entry_missing key es :
  In key ks ->
  (forall e, In e es -> In (e_key e) ks /\ e_key e <> key /\ decimal (e_value e)) ->
  first_accepted (combinations key) (pre ++ entry_lines es ++ tail) = None.
Proof.
  intros Hkey Hes. apply first_accepted_no_variation. intros var Hvar.
  apply first_accepted_nowhere, nowhere_intro.
  - exact (plain_head_nonempty var (flexible_plain ks Hflex key var Hkey Hvar)).
  - apply throughout_app;
      [apply absent_throughout, (neutral_absent ks pre key var Hpre Hkey Hvar)|].
    apply throughout_app; [now apply (others_clear key)|].
    apply absent_throughout, (neutral_absent ks tail key var Htail Hkey Hvar).
Qed.

(** The category of a line has the value of the line. *)
Lemma entry_found before e after :
  In (e_key e) ks -> reported (e_value e) ->
  (forall e', In e' (before ++ after)%list ->
     In (e_key e') ks /\ e_key e' <> e_key e /\ decimal (e_value e')) ->
  first_accepted (combinations (e_key e))
                 (pre ++ entry_lines (before ++ e :: after) ++ tail)
  = Some (value_of (e_value e)).
Proof.
  intros Hkey Hrep Hothers.
  set (name := label (e_naming e) (e_key e)).
  set (A := pre ++ entry_lines before).
  set (B := entry_lines after ++ tail).
  assert (Hv : decimal (e_value e)).
  { destruct Hrep as (x & Hx & _). exact (py_float_decimal _ _ Hx). }
  assert (Etext : pre ++ entry_lines (before ++ e :: after) ++ tail
                  = A ++ (name ++ separator_text (e_separator e)) ++ e_value e ++ LF ++ B).
  { subst A B name. rewrite entry_lines_app. cbn [entry_lines].
    unfold entry_line, entry_head. now rewrite !app_assoc. }
  rewrite Etext.
  assert (HA : forall var s, In var (key_variations (e_key e)) ->
                             throughout (lit_fails var) A s).
  { intros var s Hvar. subst A. apply throughout_app.
    - apply absent_throughout, (neutral_absent ks pre _ var Hpre Hkey Hvar).
    - apply (others_clear (e_key e)); [exact Hkey | exact Hvar|].
      intros e' He'. apply Hothers, in_or_app. now left. }
  assert (HB : forall var, In var (key_variations (e_key e)) ->
                           throughout (lit_fails var) (LF ++ B) "").
  { intros var Hvar. subst B.
    pose proof (flexible_plain ks Hflex _ var Hkey Hvar) as Hplain.
    apply throughout_app; [apply absent_throughout, plain_head_LF, Hplain|].
    apply throughout_app.
    - apply (others_clear (e_key e)); [exact Hkey | exact Hvar|].
      intros e' He'. apply Hothers, in_or_app. now right.
    - apply absent_throughout, (neutral_absent ks tail _ var Htail Hkey Hvar). }
  unfold combinations. apply first_accepted_variations.
  - intros var Hvar.
    pose proof (flexible_plain ks Hflex _ var Hkey Hvar) as Hplain.
    pose proof (flexible_own ks Hflex (e_key e) var (e_naming e) (e_separator e)
                  Hkey Hvar) as Hown.
    unfold own_line_ok, entry_head in Hown. fold name in Hown.
    destruct (same_ci var name) eqn:Esame.
    + right. apply own_line_found; [exact Esame | exact Hrep | now apply HA|].
      apply nowhere_intro; [now apply plain_head_nonempty|].
      apply throughout_app; [now apply absent_throughout|].
      apply throughout_app; [|now apply HB].
      apply numeric_throughout; [exact Hplain | now apply decimal_numeric].
    + left. apply first_accepted_nowhere, nowhere_intro; [now apply plain_head_nonempty|].
      apply throughout_app; [now apply HA|].
      apply throughout_app; [now apply absent_throughout|].
      apply throughout_app; [|now apply HB].
      apply numeric_throughout; [exact Hplain | now apply decimal_numeric].
  - exists name. split; [apply label_variation|].
    pose proof (flexible_plain ks Hflex _ name Hkey (label_variation _ _)) as Hplain.
    pose proof (flexible_own ks Hflex (e_key e) name (e_naming e) (e_separator e)
                  Hkey (label_variation _ _)) as Hown.
    unfold own_line_ok, entry_head in Hown. fold name in Hown.
    rewrite same_ci_refl in Hown.
    apply own_line_found;
      [apply same_ci_refl | exact Hrep | apply HA, label_variation|].
    apply nowhere_intro; [now apply plain_head_nonempty|].
    apply throughout_app; [now apply absent_throughout|].
    apply throughout_app; [|apply HB, label_variation].
    apply numeric_throughout; [exact Hplain | now apply decimal_numeric].
Qed.

End Text.

Lemma find_entry entries key e :
  find (fun e => String.eqb (e_key e) key) entries = Some e ->
  exists before after,
    entries = (before ++ e :: after)%list /\ e_key e = key
    /\ forall e', In e' before -> e_key e' <> key.
Proof.
  induction entries as [|x entries IH]; cbn [find]; [discriminate|].
  destruct (String.eqb (e_key x) key) eqn:E.
  - intros [= <-]. apply String.eqb_eq in E. exists [], entries.
    split; [reflexivity|]. split; [exact E|]. intros e' [].
  - intros H. destruct (IH H) as (before & after & -> & Hk & Hb).
    exists (x :: before), after. split; [reflexivity|]. split; [exact Hk|].
    intros e' [<-|He']; [now apply String.eqb_neq | now apply Hb].
Qed.

(** The accepted value of every category in a text of score lines. *)
Lemma lines_values ks pre entries tail key :
  flexible ks = true -> neutral ks pre = true -> neutral ks tail = true ->
  NoDup (map e_key entries) ->
  (forall e, In e entries -> In (e_key e) ks /\ reported (e_value e)) ->
  In key ks ->
  match first_accepted (combinations key) (pre ++ entry_lines entries ++ tail) with
  | Some val => val
  | None => Float.zero
  end = listed_value entries key.
Proof.
  intros Hflex Hpre Htail Hnd Hall Hkey. unfold listed_value.
  assert (Hdec : forall e, In e entries -> decimal (e_value e)).
  { intros e He. destruct (Hall e He) as (_ & x & Hx & _). exact (py_float_decimal _ _ Hx). }
  destruct (find (fun e => String.eqb (e_key e) key) entries) as [e|] eqn:Efind.
  - destruct (find_entry _ _ _ Efind) as (before & after & -> & <- & Hbefore).
    rewrite (entry_found ks pre tail Hflex Hpre Htail before e after); [reflexivity | | |].
    + apply Hall, in_elt.
    + apply Hall, in_elt.
    + intros e' He'.
      assert (Hin : In e' (before ++ e :: after)%list).
      { apply in_app_or in He' as [H|H]; apply in_or_app; [now left | right; now right]. }
      split; [apply Hall, Hin|]. split; [|now apply Hdec].
      rewrite map_app in Hnd. cbn [map] in Hnd. apply NoDup_remove_2 in Hnd.
      intros Heq. apply Hnd. rewrite <- Heq, <- map_app. now apply in_map.
  - rewrite (entry_missing ks pre tail Hflex Hpre Htail key entries); [reflexivity | exact Hkey|].
    intros e He. split; [apply Hall, He|]. split; [|now apply Hdec].
    pose proof (find_none _ _ Efind e He) as H. cbn in H. now apply String.eqb_neq.
Qed.

Lemma existsb_key k ks : In k ks -> existsb (String.eqb k) ks = true.
Proof.
  intros H. apply existsb_exists. exists k. split; [exact H | apply String.eqb_refl].
Qed.

(** X7.  Score lines in the forms the patterns are written for.  When
    the text searched is made of lines [<name>: <value>],
    [<name> - <value>] or [<name> = <value>], in any order, each for a
    different category of the rubric and with the name as the rubric
    has it or with [" & "] written [" and "] or as a space, between
    texts in which no name occurs, every category with a line is
    returned with the value of its line and every other category
    with 0. *)
Theorem flexible_lines rubric response pre entries tail :
  flexible (Dict.keys rubric) = true ->
  score_text_of response = Ok (pre ++ entry_lines entries ++ tail) ->
  neutral (Dict.keys rubric) pre = true ->
  neutral (Dict.keys rubric) tail = true ->
  NoDup (map e_key entries) ->
  (forall e, In e entries -> In (e_key e) (Dict.keys rubric) /\ reported (e_value e)) ->
  exists scores total,
    extract_scores rubric response = Ok (scores, total)
    /\ forall key, In key (Dict.keys rubric) ->
         Dict.get key scores = Some (listed_value entries key).
Proof.
  intros Hflex Htext Hpre Htail Hnd Hall.
  pose proof (flexible_NoDup _ Hflex) as Hkeys.
  destruct (category_scores_spec rubric response Hkeys) as (text & Et & Ec).
  rewrite Htext in Et. injection Et as <-.
  destruct (extract_scores_ok rubric response) as (scores & total & E).
  exists scores, total. split; [exact E|].
  destruct (extract_scores_inv _ _ _ _ E) as (found & _ & Ec' & _ & -> & _).
  rewrite Ec in Ec'. injection Ec' as <-.
  intros key Hkey.
  rewrite get_fill_missing, (get_found _ _ key Hkey Hkeys), (existsb_key _ _ Hkey).
  rewrite <- (lines_values _ pre entries tail key Hflex Hpre Htail Hnd Hall Hkey).
  now destruct (first_accepted (combinations key) _).
Qed.

(** The second text of the test of the extractor. *)
Lemma flexible_lines_witness :
  flexible (Dict.keys RUBRIC) = true
  /\ score_text_of alternative_format
     = Ok (("Evaluation Results:" ++ LF) ++ entry_lines alternative_entries
           ++ "OVERALL SCORE: 82.8")
  /\ exists scores total,
       extract_scores RUBRIC alternative_format = Ok (scores, total)
       /\ forall key, In key (Dict.keys RUBRIC) ->
            Dict.get key scores = Some (listed_value alternative_entries key).
Proof.
  split; [reflexivity|]. split; [reflexivity|].
  refine (flexible_lines RUBRIC alternative_format ("Evaluation Results:" ++ LF)
            alternative_entries "OVERALL SCORE: 82.8" eq_refl eq_refl eq_refl eq_refl _ _).
  - apply nodup_keys_NoDup. reflexivity.
  - intros e He. cbn [In alternative_entries] in He.
    repeat (destruct He as [<-|He];
            [split; [cbn; tauto | eexists; split; reflexivity]|]).
    destruct He.
Defined.

End Lines.

(** ** White space between the name and the value *)

Module Spacing.
Import StrFacts CharFacts ReFacts Numbers Search Block Total DictFacts Categories Totals Lines.

Lemma star_space_run {R} r ws s g (k : string -> option string -> option R) x :
  all_chars Char.is_space ws = true ->
  exec (Seq (Star Space) r) s g k = Some x ->
  exec (Seq (Star Space) r) (ws ++ s) g k = Some x.
Proof.
  intros Hws H. induction ws as [|a ws IH]; [exact H|].
  cbn [all_chars] in Hws. apply andb_true_iff in Hws as [Ha Hws].
  cbn [append]. apply step_star_take; [exact Ha | exact (IH Hws)].
Qed.

(** The first pattern reads a value that follows the name after white
    space. *)
Lemma match_after_space key ws v rest :
  all_chars Char.is_space ws = true -> decimal v -> ends_number rest ->
  match_here (total_pattern key) (key ++ ws ++ v ++ rest) = Some {| group1 := Some v |}.
Proof.
  intros Hws Hv Hrest. destruct (decimal_head v Hv) as (d & v' & Ev & Hd).
  unfold match_here, total_pattern. cbn [cat]. rewrite step_lit.
  apply star_space_run; [exact Hws|].
  rewrite step_star_stop by (rewrite Ev; exact (digit_not_space d Hd)).
  unfold colon. rewrite step_opt_skip.
  - rewrite step_star_stop by (rewrite Ev; exact (digit_not_space d Hd)).
    apply step_group_number; [exact Hv | exact Hrest | reflexivity].
  - rewrite Ev. apply step_chr_fails. cbn. clear -Hd. revert Hd. by_cases d.
Qed.

(** X8.  The first pattern skips white space, newlines included,
    between the name and the value, and it is tried before the pattern
    for a value in front of the name: when the first occurrence of a
    name in the text searched is followed by white space and a number
    in the range, that number is the score of the category.  In a list
    of lines [<value>: <name>] a category therefore takes the value at
    the start of the line below. *)
Theorem value_after_white_space rubric response before key ws value rest :
  NoDup (Dict.keys rubric) -> In key (Dict.keys rubric) ->
  score_text_of response = Ok (before ++ key ++ ws ++ value ++ rest) ->
  throughout (lit_fails key) before (key ++ ws ++ value ++ rest) ->
  all_chars Char.is_space ws = true ->
  reported value -> ends_number rest ->
  exists scores total,
    extract_scores rubric response = Ok (scores, total)
    /\ Dict.get key scores = Some (value_of value).
Proof.
  intros Hnd Hkey Htext Hbefore Hws Hrep Hrest.
  assert (Hv : decimal value).
  { destruct Hrep as (x & Hx & _). exact (py_float_decimal _ _ Hx). }
  destruct (category_scores_spec rubric response Hnd) as (text & Et & Ec).
  rewrite Htext in Et. injection Et as <-.
  destruct (extract_scores_ok rubric response) as (scores & total & E).
  exists scores, total. split; [exact E|].
  destruct (extract_scores_inv _ _ _ _ E) as (found & _ & Ec' & _ & -> & _).
  rewrite Ec in Ec'. injection Ec' as <-.
  rewrite get_fill_missing, (get_found _ _ key Hkey Hnd).
  change (combinations key) with (total_pattern key :: tl (combinations key)).
  cbn [first_accepted].
  rewrite (accepted_value _ _ value Hrep); [reflexivity|].
  rewrite search_skip.
  - apply search_here, match_after_space; assumption.
  - revert Hbefore. apply throughout_impl. intros t Ht.
    unfold total_pattern. cbn [cat]. now apply lit_fails_match.
Qed.

(** Two lines with the value in front: the first category is given the
    value of the second line. *)
Lemma value_after_white_space_witness :
  throughout (lit_fails "Project Definition") "85: "
             ("Project Definition" ++ LF ++ "90" ++ ": Risk Analysis")
  /\ exists scores total,
       extract_scores RUBRIC number_first = Ok (scores, total)
       /\ Dict.get "Project Definition" scores = Some (Float.of_N 90).
Proof.
  assert (H : throughout (lit_fails "Project Definition") "85: "
                         ("Project Definition" ++ LF ++ "90" ++ ": Risk Analysis"))
    by (cbn; repeat split).
  split; [exact H|].
  refine (value_after_white_space RUBRIC number_first "85: " "Project Definition" LF "90"
            ": Risk Analysis" _ _ eq_refl H eq_refl _ eq_refl).
  - apply nodup_keys_NoDup. reflexivity.
  - cbn. tauto.
  - eexists. split; reflexivity.
Defined.

End Spacing.

(** ** A reply that lacks a category *)

Module Incomplete.
Import FloatFacts StrFacts CharFacts ReFacts Total DictFacts Categories Totals Replies.

Lemma filter_shorter {A} (f : A -> bool) l x :
  In x l -> f x = false -> List.length (filter f l) < List.length l.
Proof.
  induction l as [|a l IH]; intros Hin Hx; [destruct Hin|].
  cbn [filter List.length]. pose proof (filter_length_le f l) as Hle.
  destruct Hin as [->|Hin].
  - rewrite Hx. lia.
  - specialize (IH Hin Hx). destruct (f a); cbn [List.length]; lia.
Qed.

Lemma found_shorter ks text key :
  In key ks -> first_accepted (combinations key) text = None ->
  List.length (found_scores ks text) < List.length ks.
Proof.
  intros Hkey Hnone.
  rewrite <- (length_map fst (found_scores ks text)). fold (Dict.keys (found_scores ks text)).
  rewrite keys_found. apply (filter_shorter _ ks key Hkey). now rewrite Hnone.
Qed.

(** X14.  When some category of the rubric has no accepted value in
    the text searched, the total is the weighted sum of the scores
    returned whenever that sum is positive, whatever total the reply
    gives; the total found by the scan is returned only when the sum is
    not positive. *)
Theorem incomplete_scores_recomputed rubric response text key :
  NoDup (Dict.keys rubric) ->
  score_text_of response = Ok text ->
  In key (Dict.keys rubric) ->
  first_accepted (combinations key) text = None ->
  exists scores total scanned c,
    extract_scores rubric response = Ok (scores, total)
    /\ scanned_total response = Ok scanned
    /\ calculated_total rubric scores = Ok c
    /\ total = if Float.ltb Float.zero c then c else scanned.
Proof.
  intros Hnd Htext Hkey Hnone.
  destruct (category_scores_spec rubric response Hnd) as (text' & Et & Ec).
  rewrite Htext in Et. injection Et as <-.
  destruct (scanned_total_ok response) as [scanned Es].
  destruct (calculated_total_ok rubric (found_scores (Dict.keys rubric) text)) as [c Ecalc].
  exists (fill_missing (Dict.keys rubric) (found_scores (Dict.keys rubric) text)),
         (if Float.ltb Float.zero c then c else scanned), scanned, c.
  assert (Hlt : Nat.ltb (List.length (found_scores (Dict.keys rubric) text))
                        (List.length rubric) = true).
  { apply Nat.ltb_lt. rewrite <- (length_map fst rubric). fold (Dict.keys rubric).
    now apply (found_shorter _ text key). }
  split; [|split; [exact Es|split; [|reflexivity]]].
  - unfold extract_scores. rewrite Ec, Es. cbn [bind]. rewrite Hlt, orb_true_r.
    rewrite Ecalc. reflexivity.
  - unfold calculated_total. rewrite weighted_sum_fill. exact Ecalc.
Qed.

(** The third text of the test of the extractor: the total given is
    87.5, the total returned is the sum for the three categories given. *)
Lemma incomplete_scores_recomputed_witness :
  score_text_of partial_scores
  = Ok ("Project Definition: 90" ++ LF ++ "Mathematical Modeling: 85" ++ LF
        ++ "Risk Analysis: 88" ++ LF)
  /\ scanned_total partial_scores = Ok (Float.of_decimal 875 1)
  /\ exists scores total,
       extract_scores RUBRIC partial_scores = Ok (scores, total)
       /\ calculated_total RUBRIC scores = Ok total
       /\ Float.ltb total (Float.of_N 53) = true.
Proof.
  split; [reflexivity|]. split; [reflexivity|].
  destruct (incomplete_scores_recomputed RUBRIC partial_scores
              ("Project Definition: 90" ++ LF ++ "Mathematical Modeling: 85" ++ LF
               ++ "Risk Analysis: 88" ++ LF) "Recommendations")
    as (scores & total & scanned & c & E & Es & Ec & Ht);
    [apply Block.nodup_keys_NoDup; reflexivity | reflexivity | cbn; tauto | reflexivity|].
  exists scores, total. split; [exact E|].
  assert (E' : extract_scores RUBRIC partial_scores
               = Ok (scores, total)) by exact E.
  vm_compute in E'. injection E' as <- <-.
  split; [|reflexivity]. vm_compute. reflexivity.
Defined.

End Incomplete.

(** ** The history of a run *)

Module History.
Import FloatFacts Total Totals.

Lemma nth_error_lt {A} (l : list A) i x : nth_error l i = Some x -> i < List.length l.
Proof. intros H. apply nth_error_Some. congruence. Qed.

Lemma nth_error_snoc {A} (h : list A) r i x :
  nth_error (h ++ [r]) i = Some x ->
  (i < List.length h /\ nth_error h i = Some x) \/ (i = List.length h /\ x = r).
Proof.
  intros H. destruct (Nat.lt_ge_cases i (List.length h)) as [Hlt|Hge].
  - left. split; [exact Hlt|]. now rewrite nth_error_app1 in H.
  - right. rewrite nth_error_app2 in H by exact Hge.
    destruct (i - List.length h) as [|j] eqn:E; simpl in H.
    + split; [lia | congruence].
    + destruct j; discriminate.
Qed.

Lemma firstn_snoc {A} (h : list A) r i : i <= List.length h -> firstn i (h ++ [r]) = firstn i h.
Proof.
  intros Hle. rewrite firstn_app. replace (i - List.length h) with 0 by lia.
  simpl. apply List.app_nil_r.
Qed.

Section World.
Variable rubric : dict float.
Variable texts : prompts.
Variable cfg : config.
Variable w : world.

Lemma prompt_after_snoc h r :
  prompt_after texts cfg (h ++ [r]) = feedback texts cfg r.
Proof. unfold prompt_after. rewrite map_app. apply last_last. Qed.

Lemma last_overall_snoc h r : last_overall (h ++ [r]) = r_overall_score r.
Proof. unfold last_overall. rewrite map_app. apply last_last. Qed.

(** Appending the record of one more pass. *)
Lemma linked_snoc h r :
  linked rubric texts cfg w h ->
  r_iteration r = S (List.length h) ->
  chat w (S (List.length h)) (prompt_after texts cfg h) = Ok (r_script r) ->
  extract_scores rubric (r_script r) = Ok (r_scores r, r_overall_score r) ->
  r_timestamp r = clock w (S (List.length h)) ->
  linked rubric texts cfg w (h ++ [r]).
Proof.
  intros Hh H1 H2 H3 H4 i x Hx.
  apply nth_error_snoc in Hx as [[Hlt Hx]|[-> ->]].
  - rewrite firstn_snoc by lia. exact (Hh i x Hx).
  - rewrite firstn_snoc, firstn_all by lia. auto.
Qed.

Lemma only_last_snoc h r : Forall (below cfg) h -> only_last_reaches cfg (h ++ [r]).
Proof.
  intros Hh i x Hx Hlt. rewrite length_app in Hlt. cbn [List.length] in Hlt.
  apply nth_error_snoc in Hx as [[_ Hx]|[-> _]]; [|lia].
  rewrite Forall_forall in Hh. apply Hh. eapply nth_error_In, Hx.
Qed.

Lemma only_last_all h : Forall (below cfg) h -> only_last_reaches cfg h.
Proof.
  intros Hh i x Hx _. rewrite Forall_forall in Hh. apply Hh. eapply nth_error_In, Hx.
Qed.

Lemma initial_invariant : loop_invariant rubric texts cfg w (initial_state texts).
Proof.
  unfold loop_invariant, initial_state. cbn.
  split; [reflexivity|]. split; [lia|]. split; [reflexivity|]. split; [reflexivity|].
  split; [reflexivity|]. split; [reflexivity|]. split; [|constructor].
  intros i r H. destruct i; discriminate.
Qed.

(** The states a pass can end in, from a state that satisfies the
    invariant and the condition of the loop. *)
Lemma pass_invariant st st' e :
  loop_invariant rubric texts cfg w st ->
  iteration st <= max_iterations cfg ->
  pass rubric texts cfg w st = (st', e) ->
  match e with
  | Next => loop_invariant rubric texts cfg w st'
  | _ => loop_left rubric texts cfg w st' (exit_of e)
  end.
Proof.
  intros (Hit & Hcap & Hlen & Hfiles & Hprompt & Hover & Hlink & Hbelow) Hle.
  unfold pass.
  destruct (chat w (S (requests st)) (prompt st)) as [response|x] eqn:Echat;
    rewrite Hprompt in Echat.
  - destruct (extract_scores_ok rubric response) as (scores & total & Eext).
    rewrite Eext. unfold write.
    set (r := {| r_iteration := iteration st; r_script := response; r_scores := scores;
                 r_overall_score := total; r_timestamp := clock w (S (requests st)) |}).
    assert (Hr : linked rubric texts cfg w (all_iterations st ++ [r])).
    { apply linked_snoc; [exact Hlink | | | |]; try rewrite Hlen; subst r; cbn; auto. }
    assert (Hlen' : List.length (all_iterations st ++ [r]) = S (requests st)).
    { rewrite length_app. cbn. lia. }
    destruct (write_error w (iteration_json (iteration st))) as [x|] eqn:Ew.
    + intros [= <- <-].
      assert (H : forall y, y = ExceptBreak x \/ y = Uncaught x ->
                  loop_left rubric texts cfg w
                    {| iteration := iteration st; overall := total; prompt := prompt st;
                       all_iterations := all_iterations st ++ [r]; files := files st;
                       requests := S (requests st) |} y).
      { intros y Hy. unfold loop_left.
        cbn [all_iterations overall iteration requests files].
        split; [exact Hr|]. split; [now apply only_last_snoc|].
        split; [now rewrite last_overall_snoc|]. split; [lia|].
        assert (iteration st = S (requests st) /\ 1 <= S (requests st)
                /\ ((S (List.length (all_iterations st ++ [r])) = S (requests st)
                     /\ files st = map file_of (all_iterations st ++ [r])
                     /\ Forall (below cfg) (all_iterations st ++ [r])
                     /\ chat w (S (requests st))
                          (prompt_after texts cfg (all_iterations st ++ [r])) = Raise x)
                    \/ (List.length (all_iterations st ++ [r]) = S (requests st)
                        /\ (exists h r', (all_iterations st ++ [r] = h ++ [r'])%list
                                         /\ files st = map file_of h)
                        /\ write_error w (iteration_json (S (requests st))) = Some x)))
          as H.
        { split; [exact Hit|]. split; [lia|]. right.
          split; [exact Hlen'|]. split; [eauto|]. now rewrite <- Hit. }
        destruct Hy as [->| ->]; exact H. }
      cbn [exit_of]. destruct (is_Exception x); apply H; auto.
    + destruct (Float.leb (target_score cfg) total) eqn:Ereach; intros [= <- <-].
      * unfold loop_left. cbn [exit_of all_iterations overall iteration requests files].
        split; [exact Hr|]. split; [now apply only_last_snoc|].
        split; [now rewrite last_overall_snoc|]. split; [lia|].
        split; [exact Hit|]. split; [lia|]. split; [exact Hlen'|].
        split; [|exact Ereach]. rewrite map_app, Hfiles. reflexivity.
      * unfold loop_invariant. cbn [all_iterations overall iteration requests files prompt].
        split; [now rewrite Hit|]. split; [lia|]. split; [exact Hlen'|].
        split; [rewrite map_app, Hfiles; reflexivity|].
        split; [rewrite prompt_after_snoc; reflexivity|].
        split; [now rewrite last_overall_snoc|].
        split; [exact Hr|].
        apply Forall_app. split; [exact Hbelow|]. constructor; [exact Ereach | constructor].
  - intros [= <- <-].
    assert (H : forall y, y = ExceptBreak x \/ y = Uncaught x ->
                loop_left rubric texts cfg w
                  {| iteration := iteration st; overall := overall st;
                     prompt := prompt st;
                     all_iterations := all_iterations st; files := files st;
                     requests := S (requests st) |} y).
    { intros y Hy. unfold loop_left.
      cbn [all_iterations overall iteration requests files].
      split; [exact Hlink|]. split; [now apply only_last_all|].
      split; [exact Hover|]. split; [lia|].
      assert (iteration st = S (requests st) /\ 1 <= S (requests st)
              /\ ((S (List.length (all_iterations st)) = S (requests st)
                   /\ files st = map file_of (all_iterations st)
                   /\ Forall (below cfg) (all_iterations st)
                   /\ chat w (S (requests st))
                        (prompt_after texts cfg (all_iterations st)) = Raise x)
                  \/ (List.length (all_iterations st) = S (requests st)
                      /\ (exists h r', all_iterations st = (h ++ [r'])%list
                                       /\ files st = map file_of h)
                      /\ write_error w (iteration_json (S (requests st))) = Some x)))
        as H.
      { split; [exact Hit|]. split; [lia|]. left. split; [now rewrite Hlen|].
        split; [exact Hfiles|]. split; [exact Hbelow | exact Echat]. }
      destruct Hy as [->| ->]; exact H. }
    cbn [exit_of]. destruct (is_Exception x); apply H; auto.
Qed.

Lemma while_loop_invariant fuel : forall st st' x,
  loop_invariant rubric texts cfg w st ->
  while_loop rubric texts cfg w fuel st = Some (st', x) ->
  loop_left rubric texts cfg w st' x.
Proof.
  assert (Hfalse : forall st,
            loop_invariant rubric texts cfg w st ->
            Float.ltb (overall st) (target_score cfg)
            && (iteration st <=? max_iterations cfg)%nat = false ->
            loop_left rubric texts cfg w st ConditionFalse).
  { intros st Hinv Hcond.
    pose proof Hinv as (Hit & Hcap & Hlen & Hfiles & Hprompt & Hover & Hlink & Hbelow).
    unfold loop_left. split; [exact Hlink|]. split; [now apply only_last_all|].
    split; [exact Hover|]. split; [exact Hcap|]. split; [exact Hinv | exact Hcond]. }
  induction fuel as [|fuel IH]; intros st st' x Hinv; cbn [while_loop].
  - destruct (_ && _) eqn:Econd; [discriminate|]. intros [= <- <-]. now apply Hfalse.
  - destruct (_ && _) eqn:Econd; [|intros [= <- <-]; now apply Hfalse].
    apply andb_true_iff in Econd as [_ Hle]. apply Nat.leb_le in Hle.
    destruct (pass rubric texts cfg w st) as [st1 e] eqn:Epass.
    pose proof (pass_invariant st st1 e Hinv Hle Epass) as H.
    destruct e as [| |e].
    + apply IH. exact H.
    + intros [= <- <-]. exact H.
    + intros [= <- <-]. exact H.
Qed.

End World.
End History.

(** ** Runs in every world *)

Module Runs.
Import FloatFacts Total Totals Loop History.

Ltac run_of Hmain :=
  let Hm := fresh "Hm" in
  pose proof Hmain as Hm; vm_compute in Hm; injection Hm as Hm; subst.

Lemma written_summary_records h tail :
  written_summary (map file_of h ++ tail)%list = written_summary tail.
Proof. induction h as [|r h IH]; [reflexivity | exact IH]. Qed.

Lemma written_iterations_records h :
  written_iterations (map file_of h) = map r_iteration h.
Proof. induction h as [|r h IH]; [reflexivity|]. cbn. now rewrite IH. Qed.

(** What [main] leaves behind, in every world. *)
Lemma main_left rubric texts cfg w :
  exists st x,
    main rubric texts cfg w = Some (after_loop cfg w st x)
    /\ loop_left rubric texts cfg w st x.
Proof.
  destruct (main_returns rubric texts cfg w) as (o & Hmain & _).
  unfold main in *.
  destruct (while_loop rubric texts cfg w (max_iterations cfg) (initial_state texts))
    as [[st x]|] eqn:E; [|discriminate].
  exists st, x. split; [reflexivity|].
  exact (while_loop_invariant rubric texts cfg w _ _ _ _
           (initial_invariant rubric texts cfg w) E).
Qed.

Lemma after_loop_history cfg w st x :
  all_iterations (final (after_loop cfg w st x)) = all_iterations st
  /\ overall (final (after_loop cfg w st x)) = overall st
  /\ iteration (final (after_loop cfg w st x)) = iteration st
  /\ requests (final (after_loop cfg w st x)) = requests st
  /\ exit (after_loop cfg w st x) = x.
Proof.
  unfold after_loop. destruct x; try destruct (write w _ _ _); cbn; auto.
Qed.

Lemma numbered (h : list iteration_result) :
  (forall i r, nth_error h i = Some r -> r_iteration r = S i) ->
  map r_iteration h = seq 1 (List.length h).
Proof.
  induction h as [|r h IH] using rev_ind; intros H; [reflexivity|].
  rewrite map_app, length_app, Nat.add_1_r, seq_S, IH.
  - cbn. f_equal. f_equal. apply H. rewrite nth_error_app2, Nat.sub_diag by lia. reflexivity.
  - intros i x Hx. apply H. rewrite nth_error_app1; [exact Hx|].
    now apply nth_error_lt in Hx.
Qed.

(** The files of the state the loop is left in are the iteration files
    of the first [j] records. *)
Lemma loop_left_files rubric texts cfg w st x :
  loop_left rubric texts cfg w st x ->
  exists j,
    files st = map file_of (firstn j (all_iterations st))
    /\ (j = List.length (all_iterations st)
        \/ (S j = List.length (all_iterations st)
            /\ exists e, write_error w (iteration_json (S j)) = Some e)).
Proof.
  intros (_ & _ & _ & _ & H).
  assert (Hall : files st = map file_of (all_iterations st) ->
                 exists j,
                   files st = map file_of (firstn j (all_iterations st))
                   /\ (j = List.length (all_iterations st)
                       \/ (S j = List.length (all_iterations st)
                           /\ exists e, write_error w (iteration_json (S j)) = Some e))).
  { intros Hf. exists (List.length (all_iterations st)). rewrite firstn_all. auto. }
  assert (Hlast : forall e,
            List.length (all_iterations st) = requests st ->
            (exists h r, all_iterations st = (h ++ [r])%list /\ files st = map file_of h) ->
            write_error w (iteration_json (requests st)) = Some e ->
            exists j,
              files st = map file_of (firstn j (all_iterations st))
              /\ (j = List.length (all_iterations st)
                  \/ (S j = List.length (all_iterations st)
                      /\ exists e, write_error w (iteration_json (S j)) = Some e))).
  { intros e Hlen (h & r & E & Hf) Hw. exists (List.length h).
    rewrite E, length_app in *. cbn [List.length] in *.
    rewrite firstn_app, firstn_all, Nat.sub_diag. cbn. rewrite List.app_nil_r.
    split; [exact Hf|]. right. split; [lia|]. exists e.
    replace (S (List.length h)) with (requests st) by lia. exact Hw. }
  destruct x.
  - destruct H as ((_ & _ & _ & Hf & _) & _). now apply Hall.
  - destruct H as (_ & _ & _ & Hf & _). now apply Hall.
  - destruct H as (_ & _ & [(_ & Hf & _)|(Hlen & Hh & Hw)]); [now apply Hall|].
    now apply (Hlast e).
  - destruct H as (_ & _ & [(_ & Hf & _)|(Hlen & Hh & Hw)]); [now apply Hall|].
    now apply (Hlast e).
Qed.

Lemma written_summary_after rubric texts cfg w st x s :
  loop_left rubric texts cfg w st x ->
  written_summary (files (final (after_loop cfg w st x))) = Some s ->
  s = summary_of cfg st.
Proof.
  intros Hleft. destruct (loop_left_files _ _ _ _ _ _ Hleft) as (j & Hh & _).
  unfold after_loop, write.
  assert (Hnone : written_summary (files st) = None).
  { rewrite Hh, <- (List.app_nil_r (map file_of _)). apply written_summary_records. }
  destruct x; try destruct (write_error w summary_json); cbn [final files];
    try (rewrite Hnone; discriminate);
    rewrite Hh, written_summary_records; cbn; congruence.
Qed.

(** X9.  In every world the records of the history are numbered 1, 2,
    ... in order, and record [i] holds the reply to request [i], sent
    with the initial prompt for [i = 1] and with the feedback built
    from record [i - 1] otherwise, the scores and the total the
    extractor gives that reply, and the time of the pass. *)
Theorem history_consistent rubric texts cfg w :
  exists o,
    main rubric texts cfg w = Some o
    /\ forall i r, nth_error (all_iterations (final o)) i = Some r ->
         r_iteration r = S i
         /\ chat w (S i) (prompt_after texts cfg (firstn i (all_iterations (final o))))
            = Ok (r_script r)
         /\ extract_scores rubric (r_script r) = Ok (r_scores r, r_overall_score r)
         /\ r_timestamp r = clock w (S i).
Proof.
  destruct (main_left rubric texts cfg w) as (st & x & Hmain & Hlink & _).
  eexists. split; [exact Hmain|].
  destruct (after_loop_history cfg w st x) as (-> & _). exact Hlink.
Qed.

(** Three passes with totals 40, 70 and 96. *)
Lemma history_consistent_witness :
  exists o,
    main RUBRIC plain_texts (config_of 96 3) three_passes = Some o
    /\ map r_iteration (all_iterations (final o)) = [1; 2; 3]
    /\ forall i r, nth_error (all_iterations (final o)) i = Some r ->
         extract_scores RUBRIC (r_script r) = Ok (r_scores r, r_overall_score r).
Proof.
  destruct (history_consistent RUBRIC plain_texts (config_of 96 3) three_passes)
    as (o & Hmain & H).
  exists o. split; [exact Hmain|]. split.
  - run_of Hmain. reflexivity.
  - intros i r Hr. now destruct (H i r Hr) as (_ & _ & E & _).
Defined.

(** X10.  In every world a summary that is written lists the whole
    history, gives as final score the overall score of the last record
    (0 for an empty history) and sets [achieved_target] exactly when
    that score reaches the target. *)
Theorem summary_of_run rubric texts cfg w :
  exists o,
    main rubric texts cfg w = Some o
    /\ forall s, written_summary (files (final o)) = Some s ->
         iterations s = all_iterations (final o)
         /\ final_score s = last_overall (iterations s)
         /\ achieved_target s = Float.leb (target_score cfg) (last_overall (iterations s))
         /\ s_target_score s = target_score cfg.
Proof.
  destruct (main_left rubric texts cfg w) as (st & x & Hmain & Hleft).
  eexists. split; [exact Hmain|].
  destruct (after_loop_history cfg w st x) as (-> & _).
  intros s Hs. apply (written_summary_after _ _ _ _ _ _ _ Hleft) in Hs. subst s.
  destruct Hleft as (_ & _ & Hover & _).
  unfold summary_of. cbn. rewrite Hover. auto.
Qed.

(** Three passes with totals 40, 70 and 96. *)
Lemma summary_of_run_witness :
  exists o s,
    main RUBRIC plain_texts (config_of 96 3) three_passes = Some o
    /\ written_summary (files (final o)) = Some s
    /\ final_score s = last_overall (iterations s)
    /\ final_score s = Float.of_N 96
    /\ achieved_target s = true.
Proof.
  destruct (summary_of_run RUBRIC plain_texts (config_of 96 3) three_passes)
    as (o & Hmain & H).
  destruct (written_summary (files (final o))) as [s|] eqn:Es.
  - exists o, s. split; [exact Hmain|]. split; [exact Es|].
    destruct (H s eq_refl) as (_ & Hf & _). split; [exact Hf|].
    run_of Hmain. vm_compute in Es. injection Es as <-. split; reflexivity.
  - exfalso. run_of Hmain. discriminate Es.
Defined.

(** X11.  [total_iterations] counts the passes that ran to the end of
    the loop body.  It is the number of records when the loop ended by
    its condition or by a failed request, and one less than the number
    of records when the loop was left on reaching the target or on a
    failed write of an iteration file. *)
Theorem iterations_counted rubric texts cfg w :
  exists o,
    main rubric texts cfg w = Some o
    /\ forall s, written_summary (files (final o)) = Some s ->
         match exit o with
         | ConditionFalse =>
             total_iterations s = List.length (iterations s)
         | TargetBreak =>
             S (total_iterations s) = List.length (iterations s)
         | ExceptBreak e | Uncaught e =>
             (total_iterations s = List.length (iterations s)
              /\ chat w (S (total_iterations s)) (prompt_after texts cfg (iterations s))
                 = Raise e)
             \/ (S (total_iterations s) = List.length (iterations s)
                 /\ write_error w (iteration_json (S (total_iterations s))) = Some e)
         end.
Proof.
  destruct (main_left rubric texts cfg w) as (st & x & Hmain & Hleft).
  eexists. split; [exact Hmain|].
  destruct (after_loop_history cfg w st x) as (_ & _ & _ & _ & ->).
  intros s Hs. apply (written_summary_after _ _ _ _ _ _ _ Hleft) in Hs. subst s.
  unfold summary_of. cbn [total_iterations iterations].
  destruct Hleft as (_ & _ & _ & _ & H).
  assert (Hexn : forall e,
            iteration st = requests st /\ 1 <= requests st
            /\ ((S (List.length (all_iterations st)) = requests st
                 /\ files st = map file_of (all_iterations st)
                 /\ Forall (below cfg) (all_iterations st)
                 /\ chat w (requests st) (prompt_after texts cfg (all_iterations st))
                    = Raise e)
                \/ (List.length (all_iterations st) = requests st
                    /\ (exists h r, all_iterations st = (h ++ [r])%list
                                    /\ files st = map file_of h)
                    /\ write_error w (iteration_json (requests st)) = Some e)) ->
            (iteration st - 1 = List.length (all_iterations st)
             /\ chat w (S (iteration st - 1)) (prompt_after texts cfg (all_iterations st))
                = Raise e)
            \/ (S (iteration st - 1) = List.length (all_iterations st)
                /\ write_error w (iteration_json (S (iteration st - 1))) = Some e)).
  { intros e (Hit & Hpos & [(Hlen & _ & _ & Hchat)|(Hlen & _ & Hw)]);
      replace (S (iteration st - 1)) with (requests st) by lia.
    - left. split; [lia | exact Hchat].
    - right. split; [lia | exact Hw]. }
  destruct x.
  - destruct H as ((Hit & _ & Hlen & _) & _). lia.
  - destruct H as (Hit & Hpos & Hlen & _). lia.
  - now apply Hexn.
  - now apply Hexn.
Qed.

(** Three passes with totals 40, 70 and 96. *)
Lemma iterations_counted_witness :
  exists o s,
    main RUBRIC plain_texts (config_of 96 3) three_passes = Some o
    /\ exit o = TargetBreak
    /\ written_summary (files (final o)) = Some s
    /\ S (total_iterations s) = List.length (iterations s).
Proof.
  destruct (iterations_counted RUBRIC plain_texts (config_of 96 3) three_passes)
    as (o & Hmain & H).
  destruct (written_summary (files (final o))) as [s|] eqn:Es.
  - assert (Hexit : exit o = TargetBreak) by (run_of Hmain; reflexivity).
    exists o, s. split; [exact Hmain|]. split; [exact Hexit|]. split; [exact Es|].
    specialize (H s eq_refl). rewrite Hexit in H. exact H.
  - exfalso. run_of Hmain. discriminate Es.
Defined.

(** X12.  In every world the iteration files are written in the order
    [iteration_1.json], [iteration_2.json], ..., each once, and each
    holds the record of its number as the history has it; there is a
    file for every record, except for the last record when the write of
    its file failed. *)
Theorem iteration_files_written rubric texts cfg w :
  exists o j,
    main rubric texts cfg w = Some o
    /\ (j = List.length (all_iterations (final o))
        \/ (S j = List.length (all_iterations (final o))
            /\ exists e, write_error w (iteration_json (S j)) = Some e))
    /\ written_iterations (files (final o)) = seq 1 j
    /\ forall i r, In (iteration_json i, IterationDoc r) (files (final o)) ->
         1 <= i <= j /\ nth_error (all_iterations (final o)) (i - 1) = Some r.
Proof.
  destruct (main_left rubric texts cfg w) as (st & x & Hmain & Hleft).
  destruct (after_loop_history cfg w st x) as (Hh & _).
  destruct (loop_left_files _ _ _ _ _ _ Hleft) as (j & Hfiles & Hj).
  assert (Hle : j <= List.length (all_iterations st)) by (destruct Hj as [->|[? _]]; lia).
  assert (Hnum : forall i r, nth_error (firstn j (all_iterations st)) i = Some r ->
                             r_iteration r = S i /\ nth_error (all_iterations st) i = Some r).
  { intros i r Hr.
    assert (Hi : i < j).
    { apply nth_error_lt in Hr. rewrite length_firstn in Hr. lia. }
    rewrite nth_error_firstn in Hr. apply Nat.ltb_lt in Hi. rewrite Hi in Hr.
    split; [|exact Hr]. destruct Hleft as (Hlink & _). now destruct (Hlink i r Hr). }
  assert (Htail : exists tail,
            files (final (after_loop cfg w st x))
            = (map file_of (firstn j (all_iterations st)) ++ tail)%list
            /\ (tail = [] \/ exists s, tail = [(summary_json, SummaryDoc s)])).
  { unfold after_loop, write.
    destruct x; try destruct (write_error w summary_json); cbn [final files]; rewrite Hfiles;
      try (exists []; rewrite List.app_nil_r; split; [reflexivity | left; reflexivity]);
      (eexists; split; [reflexivity | right; eexists; reflexivity]). }
  destruct Htail as (tail & Hall & Htail).
  exists (after_loop cfg w st x), j. split; [exact Hmain|]. rewrite Hh, Hall.
  split; [exact Hj|]. split.
  - rewrite written_iterations_app, written_iterations_records.
    rewrite numbered by (intros i r Hr; now destruct (Hnum i r Hr)).
    rewrite length_firstn, Nat.min_l by exact Hle.
    destruct Htail as [->|[s ->]]; cbn; now rewrite List.app_nil_r.
  - intros i r Hin. apply in_app_or in Hin as [Hin|Hin].
    + apply in_map_iff in Hin as (r' & [= <- <-] & Hin).
      apply In_nth_error in Hin as [k Hk].
      destruct (Hnum k r' Hk) as [-> Hr']. cbn. rewrite Nat.sub_0_r.
      split; [|exact Hr'].
      apply nth_error_lt in Hk. rewrite length_firstn in Hk. lia.
    + destruct Htail as [->|[s ->]]; [destruct Hin|].
      destruct Hin as [Hin|[]]. discriminate.
Qed.

(** Three passes with totals 40, 70 and 96. *)
Lemma iteration_files_written_witness :
  exists o,
    main RUBRIC plain_texts (config_of 96 3) three_passes = Some o
    /\ written_iterations (files (final o)) = [1; 2; 3]
    /\ forall i r, In (iteration_json i, IterationDoc r) (files (final o)) ->
         nth_error (all_iterations (final o)) (i - 1) = Some r.
Proof.
  destruct (iteration_files_written RUBRIC plain_texts (config_of 96 3) three_passes)
    as (o & j & Hmain & _ & Hfiles & H).
  exists o. split; [exact Hmain|]. split.
  - run_of Hmain. reflexivity.
  - intros i r Hin. now destruct (H i r Hin).
Defined.

Lemma last_overall_nth h :
  h <> [] ->
  exists r, nth_error h (List.length h - 1) = Some r /\ last_overall h = r_overall_score r.
Proof.
  intros Hne. destruct (exists_last Hne) as (h' & r & ->).
  exists r. rewrite last_overall_snoc, length_app, nth_error_app2 by (cbn; lia).
  cbn [List.length]. replace (_ - _) with 0 by lia. now split.
Qed.

Lemma below_not_nan cfg : forall h,
  Forall (below cfg) h ->
  Float.ltb Float.zero (target_score cfg) = true ->
  (forall r, In r h -> Float.is_nan (r_overall_score r) = false) ->
  Float.ltb (last_overall h) (target_score cfg) = true.
Proof.
  intros h Hbelow Hpos Hnan.
  destruct h as [|r0 h0] eqn:Eh; [exact Hpos|]. rewrite <- Eh in *.
  destruct (last_overall_nth h) as (r & Hr & ->); [congruence|].
  apply nth_error_In in Hr. rewrite Forall_forall in Hbelow.
  rewrite ltb_negb_leb, (Hbelow r Hr);
    [reflexivity | now apply Hnan | exact (ltb_true_not_nan_r _ _ Hpos)].
Qed.

(** X13.  How a run ends, in every world, for a positive target.  A
    record that reaches the target is the last record and no request
    follows it; a loop left by the break on the target has such a
    record; and a loop left by its condition has sent [max_iterations]
    requests, each answered by a record below the target. *)
Theorem run_ends rubric texts cfg w :
  Float.ltb Float.zero (target_score cfg) = true ->
  exists o,
    main rubric texts cfg w = Some o
    /\ (forall i r, nth_error (all_iterations (final o)) i = Some r ->
          Float.leb (target_score cfg) (r_overall_score r) = true ->
          S i = List.length (all_iterations (final o))
          /\ requests (final o) = List.length (all_iterations (final o)))
    /\ (exit o = TargetBreak ->
          exists r, nth_error (all_iterations (final o)) (requests (final o) - 1) = Some r
                    /\ Float.leb (target_score cfg) (r_overall_score r) = true)
    /\ (exit o = ConditionFalse ->
          requests (final o) = max_iterations cfg
          /\ List.length (all_iterations (final o)) = max_iterations cfg
          /\ Forall (below cfg) (all_iterations (final o))).
Proof.
  intros Hpos.
  destruct (main_left rubric texts cfg w) as (st & x & Hmain & Hleft).
  eexists. split; [exact Hmain|].
  destruct (after_loop_history cfg w st x) as (-> & _ & _ & -> & ->).
  destruct Hleft as (Hlink & Honly & Hover & Hcap & H).
  split; [|split].
  - intros i r Hr Hreach.
    assert (Hlast : S i = List.length (all_iterations st)).
    { pose proof (nth_error_lt _ _ _ Hr) as Hlt.
      destruct (Nat.eq_dec (S i) (List.length (all_iterations st))) as [E|E]; [exact E|].
      assert (Hb : below cfg r) by (apply (Honly i r Hr); lia).
      unfold below in Hb. congruence. }
    split; [exact Hlast|].
    assert (Hnot : Forall (below cfg) (all_iterations st) -> False).
    { intros Hb. rewrite Forall_forall in Hb.
      specialize (Hb r (nth_error_In _ _ Hr)). unfold below in Hb. congruence. }
    destruct x.
    + destruct H as ((_ & _ & _ & _ & _ & _ & _ & Hb) & _). now apply Hnot in Hb.
    + destruct H as (_ & _ & Hlen & _). now symmetry.
    + destruct H as (_ & _ & [(_ & _ & Hb & _)|(Hlen & _)]);
        [now apply Hnot in Hb | now symmetry].
    + destruct H as (_ & _ & [(_ & _ & Hb & _)|(Hlen & _)]);
        [now apply Hnot in Hb | now symmetry].
  - intros ->. destruct H as (_ & Hone & Hlen & _ & Hreach).
    destruct (last_overall_nth (all_iterations st)) as (r & Hr & Er).
    { intros E. rewrite E in Hlen. cbn in Hlen. lia. }
    exists r. rewrite <- Hlen. split; [exact Hr|]. now rewrite <- Er, <- Hover.
  - intros ->. destruct H as ((Hit & _ & Hlen & _ & _ & _ & _ & Hb) & Hcond).
    assert (Hlt : Float.ltb (overall st) (target_score cfg) = true).
    { rewrite Hover. apply below_not_nan; [exact Hb | exact Hpos|].
      intros r Hr. apply In_nth_error in Hr as [i Hi].
      destruct (Hlink i r Hi) as (_ & _ & E & _).
      exact (extract_total_not_nan _ _ _ _ E). }
    rewrite Hlt in Hcond. cbn [andb] in Hcond. apply Nat.leb_gt in Hcond.
    split; [lia|]. split; [lia | exact Hb].
Qed.

(** Three passes with totals 40, 70 and 96. *)
Lemma run_ends_witness :
  Float.ltb Float.zero (target_score (config_of 96 3)) = true
  /\ exists o,
       main RUBRIC plain_texts (config_of 96 3) three_passes = Some o
       /\ exit o = TargetBreak
       /\ requests (final o) = 3
       /\ exists r, nth_error (all_iterations (final o)) 2 = Some r
                    /\ Float.leb (target_score (config_of 96 3)) (r_overall_score r) = true.
Proof.
  split; [reflexivity|].
  destruct (run_ends RUBRIC plain_texts (config_of 96 3) three_passes eq_refl)
    as (o & Hmain & _ & Hbreak & _).
  assert (Hexit : exit o = TargetBreak) by (run_of Hmain; reflexivity).
  assert (Hreq : requests (final o) = 3) by (run_of Hmain; reflexivity).
  exists o. split; [exact Hmain|]. split; [exact Hexit|]. split; [exact Hreq|].
  destruct (Hbreak Hexit) as (r & Hr & Hreach). rewrite Hreq in Hr.
  exists r. split; [exact Hr | exact Hreach].
Defined.

End Runs.
